(** * WorkoutTimer: the step builder and the run controller of [app.js]

    A shallow embedding of the current revision of the program (the second
    document of [src/app.js], lines 457-1223): [clampInt], the step builder
    ([buildStepsForCircuit], [buildSteps]), the progress query
    ([getProgressForStep]) and the timer engine ([startTimer], [stopTimer],
    [setStep], [goToNextStep], [skipStep], [resetWorkout] and the interval
    callback).

    Conventions.
    - A JavaScript number that the program only ever uses as an integer is a
      [Z]; an array index and a timer handle are [nat].  The program computes
      on doubles, which is exact on the integers up to [MAX_SAFE_INTEGER]
      (2^53 - 1) in absolute value and rounds beyond; [Z] does not round.
      The theorems whose conclusion is the result of arithmetic are stated
      for numbers of that range.
    - A JavaScript string is the list of its UTF-16 code units.
    - [null] is [None].
    - A function that can throw a [TypeError] returns an [option]; [None] is
      the exception.
    - Writes to the DOM ([render], [updateRunControls]) read the module
      variables and change none of them; they are left out.  Calls of the
      audio and speech helpers are recorded in a log. *)

From Stdlib Require Import ZArith NArith String Ascii List Bool Lia.
Import ListNotations.
Open Scope Z_scope.

(* ================================================================== *)
(** ** JavaScript numbers *)
(* ================================================================== *)

(** [Number.MAX_SAFE_INTEGER], 2^53 - 1.  The program computes on IEEE 754
    doubles.  From [- MAX_SAFE_INTEGER] to [MAX_SAFE_INTEGER] every integer
    is a double, and on integers of this range whose result stays in it
    [+], [-], [Math.max], [Math.floor (n / 60)], [n % 60], [String n] and
    [Number.parseInt] of a digit run give the exact result.  Out of this
    range the program rounds ([2^54 - 1] is [2^54] again, a digit run of the
    value [2^53 + 1] parses as [2^53]), and the definitions of this file,
    which compute on [Z], do not follow it there.  A theorem whose conclusion
    is the result of such an operation therefore assumes that the numbers it
    is about are in this range. *)
Definition MAX_SAFE_INTEGER : Z := 9007199254740991.

(** [Number.isSafeInteger], on integers. *)
Definition isSafeInteger (n : Z) : Prop :=
  - MAX_SAFE_INTEGER <= n <= MAX_SAFE_INTEGER.

(* ================================================================== *)
(** ** JavaScript strings and [Number.parseInt] *)
(* ================================================================== *)

Definition JSString := list N.

(** A string literal of the source, as code units. *)
Definition lit (s : string) : JSString :=
  map N_of_ascii (list_ascii_of_string s).
Arguments lit s%_string.

(** ECMAScript StrWhiteSpaceChar: WhiteSpace and LineTerminator code units
    (TAB, LF, VT, FF, CR, SP, NBSP, the Unicode space separators, LS, PS and
    ZWNBSP). *)
Definition isStrWhiteSpaceChar (c : N) : bool :=
  ((9 <=? c) && (c <=? 13) || (c =? 32) || (c =? 160) || (c =? 5760)
   || (8192 <=? c) && (c <=? 8202) || (c =? 8232) || (c =? 8233)
   || (c =? 8239) || (c =? 8287) || (c =? 12288) || (c =? 65279))%N.

Definition isDigit (c : N) : bool := ((48 <=? c) && (c <=? 57))%N.

Definition digitValue (c : N) : Z := Z.of_N c - 48.

Fixpoint trimStart (s : JSString) : JSString :=
  match s with
  | c :: s' => if isStrWhiteSpaceChar c then trimStart s' else s
  | [] => []
  end.

Definition trimEnd (s : JSString) : JSString := rev (trimStart (rev s)).

(** [String.prototype.trim]. *)
Definition trim (s : JSString) : JSString := trimEnd (trimStart s).

(** The longest prefix of decimal digits. *)
Fixpoint takeDigits (s : JSString) : JSString :=
  match s with
  | c :: s' => if isDigit c then c :: takeDigits s' else []
  | [] => []
  end.

(** The mathematical value of a digit string, most significant digit first. *)
Definition decimalValue (ds : JSString) : Z :=
  fold_left (fun acc c => 10 * acc + digitValue c) ds 0.

(** [Number.parseInt(string, 10)]: leading white space is skipped, one sign is
    accepted, then the longest run of decimal digits is read; [None] is NaN
    (no digit where one is expected).  The result is the integer the digits
    denote, which is what the built-in returns when that integer is a safe
    one; the built-in rounds a larger one to a double. *)
Definition parseInt (s : JSString) : option Z :=
  let s1 := trimStart s in
  let '(sign, s2) :=
    match s1 with
    | c :: s' =>
        if (c =? 45)%N then (-1, s')
        else if (c =? 43)%N then (1, s')
        else (1, s1)
    | [] => (1, s1)
    end in
  match takeDigits s2 with
  | [] => None
  | ds => Some (sign * decimalValue ds)
  end.

(* ================================================================== *)
(** ** Helpers *)
(* ================================================================== *)

(** [clampInt(value, min, fallback)], app.js 460-464. *)
Definition clampInt (value : JSString) (min fallback : Z) : Z :=
  match parseInt value with
  | None => fallback
  | Some n => Z.max min n
  end.

(* ================================================================== *)
(** ** Data model *)
(* ================================================================== *)

(** An exercise row: [{ name, secondsOverride }]. *)
Record Exercise := mkExercise {
  name : JSString;
  secondsOverride : option Z
}.

(** [workout.circuitA] and [workout.circuitB].  Only circuit B carries
    [enabled]; the program never reads [circuitA.enabled]. *)
Record Circuit := mkCircuit {
  enabled : bool;
  repeats : Z;
  exercises : list Exercise
}.

Record Workout := mkWorkout {
  workSeconds : Z;
  restBetweenExercisesSeconds : Z;
  restBetweenCircuitsSeconds : Z;
  transitionRestSeconds : Z;
  circuitA : Circuit;
  circuitB : Circuit
}.

Inductive StepType := exercise | rest | circuit_rest | transition_rest.

Inductive CircuitId := A | B.

Record Step := mkStep {
  type : StepType;
  label : JSString;
  durationSeconds : Z;
  circuitId : CircuitId
}.

Definition StepType_eqb (a b : StepType) : bool :=
  match a, b with
  | exercise, exercise | rest, rest | circuit_rest, circuit_rest
  | transition_rest, transition_rest => true
  | _, _ => false
  end.

Definition CircuitId_eqb (a b : CircuitId) : bool :=
  match a, b with
  | A, A | B, B => true
  | _, _ => false
  end.

(* ================================================================== *)
(** ** Exercise list editor *)
(* ================================================================== *)

(** [getExercisesFromList(container)], app.js 561-577.  A row of the editor
    is the pair of the values of its name and seconds inputs. *)
Fixpoint getExercisesFromList (rows : list (JSString * JSString))
  : list Exercise :=
  match rows with
  | [] => []
  | (nameRaw, secondsRaw) :: rows' =>
      let name := trim nameRaw in
      match name with
      | [] => getExercisesFromList rows'
      | _ =>
          let secondsOverride :=
            match trim secondsRaw with
            | [] => None
            | _ =>
                match parseInt secondsRaw with
                | Some n => if 0 <? n then Some n else None
                | None => None
                end
            end in
          mkExercise name secondsOverride :: getExercisesFromList rows'
      end
  end.

(* ================================================================== *)
(** ** Build steps *)
(* ================================================================== *)

(** The inner loop of [buildStepsForCircuit], app.js 586-606, from index [i]
    on; [todo] is [exercises.slice(i)] and [len] is [exercises.length]. *)
Fixpoint exerciseLoop (circuitId : CircuitId) (workout : Workout)
    (len i : Z) (todo : list Exercise) : list Step :=
  match todo with
  | [] => []
  | ex :: todo' =>
      let duration :=
        match secondsOverride ex with
        | Some d => d
        | None => workSeconds workout
        end in
      let isLastExercise := i =? len - 1 in
      mkStep exercise (name ex) duration circuitId
      :: (if negb isLastExercise && (0 <? restBetweenExercisesSeconds workout)
          then [mkStep rest (lit "Rest")
                  (restBetweenExercisesSeconds workout) circuitId]
          else [])
      ++ exerciseLoop circuitId workout len (i + 1) todo'
  end.

(** The outer loop, app.js 585-617, from repetition [rep] on; [left] is the
    number of iterations that remain. *)
Fixpoint repeatLoop (circuitId : CircuitId) (workout : Workout)
    (exercises : list Exercise) (repeats : Z) (left : nat) (rep : Z)
  : list Step :=
  match left with
  | O => []
  | S left' =>
      let isLastRepeat := rep =? repeats in
      exerciseLoop circuitId workout (Z.of_nat (List.length exercises)) 0 exercises
      ++ (if negb isLastRepeat && (0 <? restBetweenCircuitsSeconds workout)
          then [mkStep circuit_rest (lit "Circuit rest")
                  (restBetweenCircuitsSeconds workout) circuitId]
          else [])
      ++ repeatLoop circuitId workout exercises repeats left' (rep + 1)
  end.

(** [buildStepsForCircuit(circuitId, workout, exercises, repeats)],
    app.js 582-620.  [for (rep = 1; rep <= repeats; rep++)] runs
    [max 0 repeats] times. *)
Definition buildStepsForCircuit (circuitId : CircuitId) (workout : Workout)
    (exercises : list Exercise) (repeats : Z) : list Step :=
  repeatLoop circuitId workout exercises repeats (Z.to_nat repeats) 1.

(** [buildSteps(workout)], app.js 622-639. *)
Definition buildSteps (workout : Workout) : list Step :=
  buildStepsForCircuit A workout
    (exercises (circuitA workout)) (repeats (circuitA workout))
  ++ (if enabled (circuitB workout)
      then (if 0 <? transitionRestSeconds workout
            then [mkStep transition_rest (lit "Transition rest")
                    (transitionRestSeconds workout) B]
            else [])
           ++ buildStepsForCircuit B workout
                (exercises (circuitB workout)) (repeats (circuitB workout))
      else []).

(** [getTotalDurationSecondsForWorkout(w)], app.js 641-646.  The sum is the
    program's as long as it stays a safe integer. *)
Definition getTotalDurationSecondsForWorkout (w : Workout) : Z :=
  fold_left (fun total step => total + durationSeconds step) (buildSteps w) 0.

(* ================================================================== *)
(** ** Build workout from UI *)
(* ================================================================== *)

(** What [getWorkoutFromInputs] reads from the page: the value of each number
    input, the state of the circuit B toggle and the rows of the two exercise
    editors.  [transitionRestSecondsInput] is [None] when the element is not in
    the page. *)
Record Inputs := mkInputs {
  workSecondsInput : JSString;
  restBetweenExercisesInput : JSString;
  restBetweenCircuitsInput : JSString;
  transitionRestSecondsInput : option JSString;
  circuitRepeatsInput : JSString;
  circuitBRepeatsInput : JSString;
  toggleCircuitBPressed : bool;
  exerciseListA : list (JSString * JSString);
  exerciseListB : list (JSString * JSString)
}.

(** [getWorkoutFromInputs()], app.js 810-832. *)
Definition getWorkoutFromInputs (inp : Inputs) : Workout :=
  let circuitAExercises := getExercisesFromList (exerciseListA inp) in
  let circuitBEnabled := toggleCircuitBPressed inp in
  let circuitBExercises := getExercisesFromList (exerciseListB inp) in
  {| workSeconds := clampInt (workSecondsInput inp) 1 45;
     restBetweenExercisesSeconds :=
       clampInt (restBetweenExercisesInput inp) 0 15;
     restBetweenCircuitsSeconds :=
       clampInt (restBetweenCircuitsInput inp) 0 60;
     transitionRestSeconds :=
       clampInt (match transitionRestSecondsInput inp with
                 | Some v => v
                 | None => lit "60"
                 end) 0 60;
     circuitA :=
       {| enabled := false;
          repeats := clampInt (circuitRepeatsInput inp) 1 2;
          exercises := circuitAExercises |};
     circuitB :=
       {| enabled := circuitBEnabled;
          repeats := clampInt (circuitBRepeatsInput inp) 1 2;
          exercises := circuitBExercises |} |}.

(* ================================================================== *)
(** ** Progress *)
(* ================================================================== *)

Module Progress.

(** The object [getProgressForStep] returns. *)
Record t := mk {
  circuitId : CircuitId;
  round : Z;
  exercise : Z;
  exercisesPerRound : Z;
  totalRounds : Z
}.

End Progress.

(** [Math.ceil(a / b)] on integers, [b] not zero. *)
Definition ceilDiv (a b : Z) : Z := - (- a / b).

(** The counting loop of [getProgressForStep], app.js 854-857: [i] runs over
    [0 .. stepIndex]. *)
Definition exerciseCountLoop (cid : CircuitId) (steps : list Step)
    (stepIndex : nat) : Z :=
  fold_left
    (fun exerciseCount step =>
       if CircuitId_eqb (circuitId step) cid
          && StepType_eqb (type step) exercise
       then exerciseCount + 1 else exerciseCount)
    (firstn (S stepIndex) steps) 0.

(** [getProgressForStep(stepIndex)], app.js 844-866, with the module
    variables [workout] and [steps] it reads as arguments; [None] is the
    [null] result. *)
Definition getProgressForStep (workout : option Workout) (steps : list Step)
    (stepIndex : nat) : option Progress.t :=
  match workout with
  | None => None
  | Some workout =>
      match nth_error steps stepIndex with
      | None => None
      | Some step =>
          let cid := circuitId step in
          let circuit :=
            if CircuitId_eqb cid B then circuitB workout
            else circuitA workout in
          let exercisesPerRound := Z.of_nat (List.length (exercises circuit)) in
          let totalRounds := repeats circuit in
          if exercisesPerRound <=? 0 then None
          else
            let exerciseCount := exerciseCountLoop cid steps stepIndex in
            if exerciseCount =? 0
            then Some (Progress.mk cid 1 1 exercisesPerRound totalRounds)
            else
              let round := ceilDiv exerciseCount exercisesPerRound in
              let exercise :=
                Z.rem (exerciseCount - 1) exercisesPerRound + 1 in
              Some (Progress.mk cid round exercise exercisesPerRound
                      totalRounds)
      end
  end.

(* ================================================================== *)
(** ** State *)
(* ================================================================== *)

(** A call of one of the sound and speech helpers. *)
Inductive Call :=
| cueHalf
| cueFinalTick
| speak (text : JSString).

(** The module variables of app.js 704-716, followed by the part of the host
    the timer engine acts on: the intervals registered with [setInterval] and
    not yet cleared, the handle the next [setInterval] returns, and the calls
    of the cue helpers so far (latest first).  [currentStepIndex] starts at 0
    and is only ever assigned 0 or [currentStepIndex + 1], hence [nat]. *)
Record State := mkState {
  steps : list Step;
  workout : option Workout;
  currentStepIndex : nat;
  secondsRemaining : Z;
  intervalId : option nat;
  isRunning : bool;
  hasStarted : bool;
  isFinished : bool;
  lastHalfCueStepIndex : option nat;
  lastFinalCueKey : option (nat * Z);
  lastSpokenRestStepIndex : option nat;
  intervals : list nat;
  nextHandle : nat;
  calls : list Call
}.

Definition set_steps v s :=
  mkState v (workout s) (currentStepIndex s) (secondsRemaining s)
    (intervalId s) (isRunning s) (hasStarted s) (isFinished s)
    (lastHalfCueStepIndex s) (lastFinalCueKey s) (lastSpokenRestStepIndex s)
    (intervals s) (nextHandle s) (calls s).

Definition set_workout v s :=
  mkState (steps s) v (currentStepIndex s) (secondsRemaining s)
    (intervalId s) (isRunning s) (hasStarted s) (isFinished s)
    (lastHalfCueStepIndex s) (lastFinalCueKey s) (lastSpokenRestStepIndex s)
    (intervals s) (nextHandle s) (calls s).

Definition set_currentStepIndex v s :=
  mkState (steps s) (workout s) v (secondsRemaining s)
    (intervalId s) (isRunning s) (hasStarted s) (isFinished s)
    (lastHalfCueStepIndex s) (lastFinalCueKey s) (lastSpokenRestStepIndex s)
    (intervals s) (nextHandle s) (calls s).

Definition set_secondsRemaining v s :=
  mkState (steps s) (workout s) (currentStepIndex s) v
    (intervalId s) (isRunning s) (hasStarted s) (isFinished s)
    (lastHalfCueStepIndex s) (lastFinalCueKey s) (lastSpokenRestStepIndex s)
    (intervals s) (nextHandle s) (calls s).

Definition set_intervalId v s :=
  mkState (steps s) (workout s) (currentStepIndex s) (secondsRemaining s)
    v (isRunning s) (hasStarted s) (isFinished s)
    (lastHalfCueStepIndex s) (lastFinalCueKey s) (lastSpokenRestStepIndex s)
    (intervals s) (nextHandle s) (calls s).

Definition set_isRunning v s :=
  mkState (steps s) (workout s) (currentStepIndex s) (secondsRemaining s)
    (intervalId s) v (hasStarted s) (isFinished s)
    (lastHalfCueStepIndex s) (lastFinalCueKey s) (lastSpokenRestStepIndex s)
    (intervals s) (nextHandle s) (calls s).

Definition set_hasStarted v s :=
  mkState (steps s) (workout s) (currentStepIndex s) (secondsRemaining s)
    (intervalId s) (isRunning s) v (isFinished s)
    (lastHalfCueStepIndex s) (lastFinalCueKey s) (lastSpokenRestStepIndex s)
    (intervals s) (nextHandle s) (calls s).

Definition set_isFinished v s :=
  mkState (steps s) (workout s) (currentStepIndex s) (secondsRemaining s)
    (intervalId s) (isRunning s) (hasStarted s) v
    (lastHalfCueStepIndex s) (lastFinalCueKey s) (lastSpokenRestStepIndex s)
    (intervals s) (nextHandle s) (calls s).

Definition set_lastHalfCueStepIndex v s :=
  mkState (steps s) (workout s) (currentStepIndex s) (secondsRemaining s)
    (intervalId s) (isRunning s) (hasStarted s) (isFinished s)
    v (lastFinalCueKey s) (lastSpokenRestStepIndex s)
    (intervals s) (nextHandle s) (calls s).

Definition set_lastFinalCueKey v s :=
  mkState (steps s) (workout s) (currentStepIndex s) (secondsRemaining s)
    (intervalId s) (isRunning s) (hasStarted s) (isFinished s)
    (lastHalfCueStepIndex s) v (lastSpokenRestStepIndex s)
    (intervals s) (nextHandle s) (calls s).

Definition set_lastSpokenRestStepIndex v s :=
  mkState (steps s) (workout s) (currentStepIndex s) (secondsRemaining s)
    (intervalId s) (isRunning s) (hasStarted s) (isFinished s)
    (lastHalfCueStepIndex s) (lastFinalCueKey s) v
    (intervals s) (nextHandle s) (calls s).

Definition set_intervals v s :=
  mkState (steps s) (workout s) (currentStepIndex s) (secondsRemaining s)
    (intervalId s) (isRunning s) (hasStarted s) (isFinished s)
    (lastHalfCueStepIndex s) (lastFinalCueKey s) (lastSpokenRestStepIndex s)
    v (nextHandle s) (calls s).

Definition set_nextHandle v s :=
  mkState (steps s) (workout s) (currentStepIndex s) (secondsRemaining s)
    (intervalId s) (isRunning s) (hasStarted s) (isFinished s)
    (lastHalfCueStepIndex s) (lastFinalCueKey s) (lastSpokenRestStepIndex s)
    (intervals s) v (calls s).

(** Record a call of a cue helper. *)
Definition call (c : Call) s :=
  mkState (steps s) (workout s) (currentStepIndex s) (secondsRemaining s)
    (intervalId s) (isRunning s) (hasStarted s) (isFinished s)
    (lastHalfCueStepIndex s) (lastFinalCueKey s) (lastSpokenRestStepIndex s)
    (intervals s) (nextHandle s) (c :: calls s).

(** The state when the script has been loaded; [h0] is the first handle the
    host will hand out. *)
Definition initialState (h0 : nat) : State :=
  {| steps := []; workout := None; currentStepIndex := 0%nat;
     secondsRemaining := 0; intervalId := None; isRunning := false;
     hasStarted := false; isFinished := false;
     lastHalfCueStepIndex := None; lastFinalCueKey := None;
     lastSpokenRestStepIndex := None;
     intervals := []; nextHandle := h0; calls := [] |}.

(** The phases of the run controller, read off the three flags. *)
Inductive Phase := NotStarted | Running | Paused | Finished.

Definition phase (s : State) : Phase :=
  if isFinished s then Finished
  else if isRunning s then Running
  else if hasStarted s then Paused
  else NotStarted.

(** [a !== b] for a variable that holds [null] or an index. *)
Definition differs_nat (a : option nat) (b : nat) : bool :=
  match a with
  | Some a => negb (a =? b)%nat
  | None => true
  end.

(** [a !== b] for a variable that holds [null] or a cue key; the key
    [`${stepIndex}:${secondsRemaining}`] is the pair of its two numbers. *)
Definition differs_key (a : option (nat * Z)) (b : nat * Z) : bool :=
  match a with
  | Some (i, r) => negb ((i =? fst b)%nat && (r =? snd b))
  | None => true
  end.

(* ================================================================== *)
(** ** Timer engine *)
(* ================================================================== *)

(** The host's [setInterval]: registers an interval and returns its handle. *)
Definition setInterval (s : State) : nat * State :=
  let h := nextHandle s in
  (h, set_nextHandle (S h) (set_intervals (h :: intervals s) s)).

(** The host's [clearInterval]. *)
Definition clearInterval (h : nat) (s : State) : State :=
  set_intervals (remove Nat.eq_dec h (intervals s)) s.

(** [stopTimer()], app.js 871-878. *)
Definition stopTimer (s : State) : State :=
  let s :=
    match intervalId s with
    | Some h => set_intervalId None (clearInterval h s)
    | None => s
    end in
  set_isRunning false s.

(** [startTimer()], app.js 880-921, without the body of the callback it
    registers (that is [intervalCallback] below).  [ensureAudio()] creates the
    audio context and touches no variable of the timer. *)
Definition startTimer (s : State) : State :=
  if isRunning s || (List.length (steps s) =? 0)%nat || isFinished s then s
  else
    let s := set_isRunning true s in
    let s := set_hasStarted true s in
    let '(h, s) := setInterval s in
    set_intervalId (Some h) s.

Definition isRestType (t : StepType) : bool :=
  StepType_eqb t rest || StepType_eqb t circuit_rest
  || StepType_eqb t transition_rest.

(** [setStep(index, previousStep)], app.js 923-939.  Reading
    [step.durationSeconds] throws when [steps[index]] is undefined. *)
Definition setStep (index : nat) (previousStep : option Step) (s : State)
  : option State :=
  let s := set_currentStepIndex index s in
  match nth_error (steps s) (currentStepIndex s) with
  | None => None
  | Some step =>
      let s := set_secondsRemaining (durationSeconds step) s in
      let isNowRest := isRestType (type step) in
      let wasExercise :=
        match previousStep with
        | Some p => StepType_eqb (type p) exercise
        | None => false
        end in
      if isNowRest && wasExercise
         && differs_nat (lastSpokenRestStepIndex s) (currentStepIndex s)
      then
        let s := set_lastSpokenRestStepIndex (Some (currentStepIndex s)) s in
        Some (call (speak (lit "Rest")) s)
      else Some s
  end.

(** [goToNextStep(autoContinue)], app.js 941-959. *)
Definition goToNextStep (autoContinue : bool) (s : State) : option State :=
  let prev := nth_error (steps s) (currentStepIndex s) in
  let s := stopTimer s in
  let nextIndex := (currentStepIndex s + 1)%nat in
  if (List.length (steps s) <=? nextIndex)%nat then
    let s := set_isFinished true s in
    Some (set_secondsRemaining 0 s)
  else
    let s := set_isFinished false s in
    match setStep nextIndex prev s with
    | None => None
    | Some s => if autoContinue then Some (startTimer s) else Some s
    end.

(** [skipStep()], app.js 961-964. *)
Definition skipStep (s : State) : option State :=
  if (List.length (steps s) =? 0)%nat then Some s
  else goToNextStep (isRunning s) s.

(** [resetWorkout()], app.js 966-977. *)
Definition resetWorkout (s : State) : option State :=
  let s := stopTimer s in
  let r :=
    if (0 <? List.length (steps s))%nat then
      let s := set_lastHalfCueStepIndex None s in
      let s := set_lastFinalCueKey None s in
      let s := set_lastSpokenRestStepIndex None s in
      setStep 0 None s
    else Some s in
  match r with
  | None => None
  | Some s => Some (set_isFinished false (set_hasStarted false s))
  end.

(** The cue block of the interval callback, app.js 892-913: the halfway cue,
    once per Exercise step, and the final countdown cue, once per step and
    second. *)
Definition tickCues (s : State) : State :=
  match nth_error (steps s) (currentStepIndex s) with
  | Some step =>
      let s :=
        if StepType_eqb (type step) exercise then
          let halfPoint := durationSeconds step / 2 in
          if (secondsRemaining s =? halfPoint)
             && differs_nat (lastHalfCueStepIndex s) (currentStepIndex s)
          then
            call cueHalf
              (set_lastHalfCueStepIndex (Some (currentStepIndex s)) s)
          else s
        else s in
      if (secondsRemaining s <=? 3) && (1 <=? secondsRemaining s) then
        let key := (currentStepIndex s, secondsRemaining s) in
        if differs_key (lastFinalCueKey s) key
        then call cueFinalTick (set_lastFinalCueKey (Some key) s)
        else s
      else s
  | None => s
  end.

(** The function [startTimer] passes to [setInterval], app.js 889-920: one
    tick.  The decrement is the program's for [secondsRemaining] up to
    [MAX_SAFE_INTEGER]. *)
Definition intervalCallback (s : State) : option State :=
  let s := set_secondsRemaining (secondsRemaining s - 1) s in
  let s := tickCues s in
  if secondsRemaining s <=? 0 then goToNextStep true s else Some s.

(* ================================================================== *)
(** ** Events *)
(* ================================================================== *)

(** The click handler of [startBtn], app.js 1063-1088.  A rejected
    configuration ([alert] and [return]) changes nothing. *)
Definition startBtn_click (inp : Inputs) (s : State) : option State :=
  let nextWorkout := getWorkoutFromInputs inp in
  if (List.length (exercises (circuitA nextWorkout)) =? 0)%nat then Some s
  else if enabled (circuitB nextWorkout)
          && (List.length (exercises (circuitB nextWorkout)) =? 0)%nat
  then Some s
  else
    let s := set_workout (Some nextWorkout) s in
    let s := set_steps (buildSteps nextWorkout) s in
    let s := set_hasStarted false s in
    let s := set_isFinished false s in
    let s := set_lastHalfCueStepIndex None s in
    let s := set_lastFinalCueKey None s in
    let s := set_lastSpokenRestStepIndex None s in
    match setStep 0 None s with
    | None => None
    | Some s => Some (stopTimer s)
    end.

(** What can happen to the page: a click on one of the buttons of app.js
    1063-1098, or the host firing the interval with handle [h]. *)
Inductive Event :=
| startBtn (inp : Inputs)
| runStartBtn
| pauseBtn
| resumeBtn
| skipBtn
| resetBtn
| backToSetupBtn
| intervalFired (h : nat).

(** The listener each event runs. *)
Definition dispatch (e : Event) (s : State) : option State :=
  match e with
  | startBtn inp => startBtn_click inp s
  | runStartBtn => Some (startTimer s)
  | pauseBtn => Some (stopTimer s)
  | resumeBtn => Some (startTimer s)
  | skipBtn => skipStep s
  | resetBtn => resetWorkout s
  | backToSetupBtn => Some (stopTimer s)
  | intervalFired _ => intervalCallback s
  end.

(** The host fires only intervals that are registered; a click can come at
    any time. *)
Definition occurs (e : Event) (s : State) : Prop :=
  match e with
  | intervalFired h => In h (intervals s)
  | _ => True
  end.

(** The states the page can be in. *)
Inductive reachable : State -> Prop :=
| reachable_init : forall h0, reachable (initialState h0)
| reachable_step : forall s e s',
    reachable s -> occurs e s -> dispatch e s = Some s' -> reachable s'.

(** The operations of the run controller, by the names the specification
    gives them. *)
Inductive Op := start | tick | pause | resume | skip | reset.

Definition run (op : Op) (s : State) : option State :=
  match op with
  | start => dispatch runStartBtn s
  | tick => intervalCallback s
  | pause => dispatch pauseBtn s
  | resume => dispatch resumeBtn s
  | skip => dispatch skipBtn s
  | reset => dispatch resetBtn s
  end.

(* ================================================================== *)
(** ** Time format, labels, run controls and overall progress *)
(* ================================================================== *)

(** The decimal digits of a non-negative integer, least significant first
    into [acc]; [fuel] bounds the number of digits. *)
Fixpoint digitsLoop (fuel : nat) (n : Z) (acc : JSString) : JSString :=
  match fuel with
  | O => acc
  | S fuel' =>
      let acc' := Z.to_N (48 + n mod 10) :: acc in
      if n <? 10 then acc' else digitsLoop fuel' (n / 10) acc'
  end.

(** [String(n)] for a safe integer [n]. *)
Definition NumberToString (n : Z) : JSString :=
  if n <? 0 then 45%N :: digitsLoop (S (Z.to_nat (- n))) (- n) []
  else digitsLoop (S (Z.to_nat n)) n [].

(** [s.padStart(targetLength, pad)] for a one-unit [pad]. *)
Definition padStart (targetLength : nat) (pad : N) (s : JSString) : JSString :=
  repeat pad (targetLength - List.length s) ++ s.

(** [formatTime(totalSeconds)], app.js 466-471, for a time of at most
    [MAX_SAFE_INTEGER] seconds: there [Math.floor(s / 60)] is the integer
    quotient and [s % 60] the remainder. *)
Definition formatTime (totalSeconds : Z) : JSString :=
  let s := Z.max 0 totalSeconds in
  let mm := padStart 2 48 (NumberToString (s / 60)) in
  let ss := padStart 2 48 (NumberToString (Z.rem s 60)) in
  mm ++ lit ":" ++ ss.

(** The loop of [getNextExerciseLabel] over [steps.slice(i)]. *)
Fixpoint nextExerciseLoop (todo : list Step) : option JSString :=
  match todo with
  | [] => None
  | step :: todo' =>
      if StepType_eqb (type step) exercise then Some (label step)
      else nextExerciseLoop todo'
  end.

(** [getNextExerciseLabel(fromIndexExclusive)], app.js 837-842, with the
    module variable [steps] as an argument. *)
Definition getNextExerciseLabel (steps : list Step) (fromIndexExclusive : nat)
  : option JSString :=
  nextExerciseLoop (skipn (fromIndexExclusive + 1) steps).

(** What [updateRunControls()], app.js 800-805, writes: for each of the three
    buttons, whether it gets the class "hidden". *)
Record RunControls := mkRunControls {
  runStartHidden : bool;
  pauseHidden : bool;
  resumeHidden : bool
}.

Definition updateRunControls (s : State) : RunControls :=
  let empty := (List.length (steps s) =? 0)%nat in
  let canResume :=
    hasStarted s && negb (isRunning s) && negb (isFinished s)
    && (0 <? List.length (steps s))%nat in
  {| runStartHidden := hasStarted s || empty || isFinished s;
     pauseHidden := negb (isRunning s) || empty || isFinished s;
     resumeHidden := negb canResume |}.

(** The three sums [render()] computes for the overall progress bar,
    app.js 986-990.  They are the program's as long as the total stays a
    safe integer. *)
Definition totalSeconds (s : State) : Z :=
  fold_left (fun acc step => acc + durationSeconds step) (steps s) 0.

Definition remainingSeconds (s : State) : Z :=
  fold_left (fun acc step => acc + durationSeconds step)
    (skipn (currentStepIndex s + 1) (steps s)) 0
  + secondsRemaining s.


(** [s.replaceAll(c, by)] for a one-unit pattern [c]. *)
Definition replaceAll (c : N) (by_ : JSString) (s : JSString) : JSString :=
  flat_map (fun x => if (x =? c)%N then by_ else [x]) s.

(** [escapeHtmlAttr(str)], src/unnamed/part_000 115-121: the ampersand, the
    double quote (code unit 34), "<" and ">" become entities, in this
    order. *)
Definition escapeHtmlAttr (str : JSString) : JSString :=
  replaceAll 62 (lit "&gt;")
    (replaceAll 60 (lit "&lt;")
       (replaceAll 34 (lit "&quot;")
          (replaceAll 38 (lit "&amp;") str))).

(* ================================================================== *)
(** ** The first revision of the step builder *)
(* ================================================================== *)

(** [src/app.js] opens with an earlier revision of the script (lines 1-457).
    Its step builder, lines 36-115, differs from the current one in two
    places: an exercise is its name only, so every "work" step lasts
    [workSeconds], and the rest before circuit B is a [circuit_rest] of
    [restBetweenCircuitsSeconds] seconds.  The later definitions of the file
    (and [src/unnamed/part_000], which differs from them in the builder only
    by naming the Exercise kind "work") replace it. *)
Module Rev1.

Record Circuit := mkCircuit {
  enabled : bool;
  repeats : Z;
  exercises : list JSString
}.

Record Workout := mkWorkout {
  workSeconds : Z;
  restBetweenExercisesSeconds : Z;
  restBetweenCircuitsSeconds : Z;
  circuitA : Circuit;
  circuitB : Circuit
}.

Inductive StepType := work | rest | circuit_rest.

Record Step := mkStep {
  type : StepType;
  label : JSString;
  durationSeconds : Z;
  circuitId : CircuitId
}.

(** The inner loop, app.js 40-61. *)
Fixpoint exerciseLoop (circuitId : CircuitId) (workout : Workout)
    (len i : Z) (todo : list JSString) : list Step :=
  match todo with
  | [] => []
  | ex :: todo' =>
      let isLastExercise := i =? len - 1 in
      mkStep work ex (workSeconds workout) circuitId
      :: (if negb isLastExercise && (0 <? restBetweenExercisesSeconds workout)
          then [mkStep rest (lit "Rest")
                  (restBetweenExercisesSeconds workout) circuitId]
          else [])
      ++ exerciseLoop circuitId workout len (i + 1) todo'
  end.

(** The outer loop, app.js 39-73. *)
Fixpoint repeatLoop (circuitId : CircuitId) (workout : Workout)
    (exercises : list JSString) (repeats : Z) (left : nat) (rep : Z)
  : list Step :=
  match left with
  | O => []
  | S left' =>
      let isLastRepeat := rep =? repeats in
      exerciseLoop circuitId workout (Z.of_nat (List.length exercises)) 0
        exercises
      ++ (if negb isLastRepeat && (0 <? restBetweenCircuitsSeconds workout)
          then [mkStep circuit_rest (lit "Circuit rest")
                  (restBetweenCircuitsSeconds workout) circuitId]
          else [])
      ++ repeatLoop circuitId workout exercises repeats left' (rep + 1)
  end.

(** [buildStepsForCircuit], app.js 36-76. *)
Definition buildStepsForCircuit (circuitId : CircuitId) (workout : Workout)
    (exercises : list JSString) (repeats : Z) : list Step :=
  repeatLoop circuitId workout exercises repeats (Z.to_nat repeats) 1.

(** [buildSteps], app.js 78-115. *)
Definition buildSteps (workout : Workout) : list Step :=
  buildStepsForCircuit A workout
    (exercises (circuitA workout)) (repeats (circuitA workout))
  ++ (if enabled (circuitB workout)
      then (if 0 <? restBetweenCircuitsSeconds workout
            then [mkStep circuit_rest (lit "Rest (before Circuit B)")
                    (restBetweenCircuitsSeconds workout) B]
            else [])
           ++ buildStepsForCircuit B workout
                (exercises (circuitB workout)) (repeats (circuitB workout))
      else []).

End Rev1.

(* ================================================================== *)
(** ** Vocabulary of the properties *)
(* ================================================================== *)

Definition hasType (t : StepType) (s : Step) : bool :=
  StepType_eqb (type s) t.

(** How many steps of kind [t] a sequence has. *)
Definition countType (t : StepType) (l : list Step) : Z :=
  Z.of_nat (List.length (filter (hasType t) l)).

(** The duration the specification gives the step of an exercise: its
    override when it has one, the global work time otherwise. *)
Definition expectedDuration (w : Workout) (ex : Exercise) : Z :=
  match secondsOverride ex with
  | Some d => d
  | None => workSeconds w
  end.

Definition expectedExerciseStep (cid : CircuitId) (w : Workout)
    (ex : Exercise) : Step :=
  mkStep exercise (name ex) (expectedDuration w ex) cid.

(** The Exercise steps of all the repetitions of one circuit, in order. *)
Definition expectedExerciseSteps (cid : CircuitId) (w : Workout)
    (c : Circuit) : list Step :=
  concat (repeat (map (expectedExerciseStep cid w) (exercises c))
            (Z.to_nat (repeats c))).

Definition theTransitionRest (w : Workout) : Step :=
  mkStep transition_rest (lit "Transition rest") (transitionRestSeconds w) B.

Definition with_restBetweenCircuitsSeconds (v : Z) (w : Workout) : Workout :=
  mkWorkout (workSeconds w) (restBetweenExercisesSeconds w) v
    (transitionRestSeconds w) (circuitA w) (circuitB w).

Definition with_workSeconds (v : Z) (w : Workout) : Workout :=
  mkWorkout v (restBetweenExercisesSeconds w) (restBetweenCircuitsSeconds w)
    (transitionRestSeconds w) (circuitA w) (circuitB w).

(** The invariant of a WorkoutConfig the claims rely on: circuit A has an
    exercise, so has circuit B when it is enabled, and repeats are positive. *)
Definition validWorkout (w : Workout) : Prop :=
  exercises (circuitA w) <> [] /\ 1 <= repeats (circuitA w) /\
  (enabled (circuitB w) = true ->
   exercises (circuitB w) <> [] /\ 1 <= repeats (circuitB w)).

(** The circuit a step belongs to. *)
Definition circuitOf (w : Workout) (cid : CircuitId) : Circuit :=
  match cid with
  | A => circuitA w
  | B => circuitB w
  end.

(** The Exercise steps of circuit [cid] among the first [stepIndex + 1] steps,
    as the specification counts them. *)
Definition exerciseCount (cid : CircuitId) (l : list Step) (stepIndex : nat)
  : Z :=
  Z.of_nat
    (List.length
       (filter (fun s => CircuitId_eqb (circuitId s) cid && hasType exercise s)
          (firstn (S stepIndex) l))).

(** Two workouts the statements below are tried on: the scenario of the
    specification (45 s of work, 15 s and 60 s of rest, two exercises twice,
    circuit B off), and the same with a one-exercise circuit B behind a
    30 s transition rest; the second exercise of circuit A has a 60 s
    override in the latter. *)
Definition sampleWorkout : Workout :=
  {| workSeconds := 45; restBetweenExercisesSeconds := 15;
     restBetweenCircuitsSeconds := 60; transitionRestSeconds := 30;
     circuitA := {| enabled := false; repeats := 2;
                    exercises := [mkExercise (lit "Plank") None;
                                  mkExercise (lit "Squats") None] |};
     circuitB := {| enabled := false; repeats := 1;
                    exercises := [mkExercise (lit "Push-ups") None] |} |}.

Definition sampleTwoCircuits : Workout :=
  {| workSeconds := 45; restBetweenExercisesSeconds := 15;
     restBetweenCircuitsSeconds := 60; transitionRestSeconds := 30;
     circuitA := {| enabled := false; repeats := 2;
                    exercises := [mkExercise (lit "Plank") None;
                                  mkExercise (lit "Squats") (Some 60)] |};
     circuitB := {| enabled := true; repeats := 1;
                    exercises := [mkExercise (lit "Push-ups") None] |} |}.

(** The optional sign of a numeral and the factor it stands for. *)
Inductive signPrefix : JSString -> Z -> Prop :=
| sign_none : signPrefix [] 1
| sign_plus : signPrefix [43%N] 1
| sign_minus : signPrefix [45%N] (-1).

Definition startsWithDigit (s : JSString) : bool :=
  match s with
  | c :: _ => isDigit c
  | [] => false
  end.

(** The value of a digit string by the weight of each position. *)
Fixpoint valueOfDigits (ds : JSString) : Z :=
  match ds with
  | [] => 0
  | d :: ds' =>
      digitValue d * 10 ^ Z.of_nat (List.length ds') + valueOfDigits ds'
  end.

(** What "the string parses as the integer [n]" means: white space, an
    optional sign, a non-empty run of decimal digits that the rest of the
    string does not continue, and [n] is the signed value of the run. *)
Inductive ParsesAs : JSString -> Z -> Prop :=
| ParsesAs_intro : forall ws sg sign ds rest,
    forallb isStrWhiteSpaceChar ws = true ->
    signPrefix sg sign ->
    ds <> [] ->
    forallb isDigit ds = true ->
    startsWithDigit rest = false ->
    ParsesAs (ws ++ sg ++ ds ++ rest) (sign * valueOfDigits ds).

(** What holds of every state the page can be in: the module variables agree
    with the host's interval table, the index is inside a non-empty step
    sequence, a finished run sits on the last step with no time left, and
    every duration is at least one second. *)
Record Inv (s : State) : Prop := mkInv {
  Inv_intervals :
    intervals s = match intervalId s with Some h => [h] | None => [] end;
  Inv_isRunning :
    isRunning s = match intervalId s with Some _ => true | None => false end;
  Inv_index :
    match steps s with
    | [] => isFinished s = false /\ isRunning s = false
    | _ :: _ => (currentStepIndex s < List.length (steps s))%nat
    end;
  Inv_finished :
    isFinished s = true ->
    isRunning s = false /\ secondsRemaining s = 0
    /\ S (currentStepIndex s) = List.length (steps s);
  Inv_durations :
    Forall (fun step => 1 <= durationSeconds step) (steps s);
  Inv_remaining :
    isFinished s = false -> steps s <> [] -> 1 <= secondsRemaining s
}.

(** The values [getWorkoutFromInputs] can return. *)
Definition fromInputs (w : Workout) : Prop :=
  1 <= workSeconds w /\ 1 <= repeats (circuitA w) /\ 1 <= repeats (circuitB w)
  /\ Forall (fun ex => forall d, secondsOverride ex = Some d -> 1 <= d)
       (exercises (circuitA w) ++ exercises (circuitB w)).

(** A page to try the run controller on: one exercise, once, circuit B off;
    the state after "Start workout", the state after the run screen's Start
    that follows, and the state after "Start workout" and Skip. *)
Definition sampleInputs : Inputs :=
  {| workSecondsInput := lit "45";
     restBetweenExercisesInput := lit "15";
     restBetweenCircuitsInput := lit "60";
     transitionRestSecondsInput := Some (lit "30");
     circuitRepeatsInput := lit "1";
     circuitBRepeatsInput := lit "2";
     toggleCircuitBPressed := false;
     exerciseListA := [(lit "Plank", lit "")];
     exerciseListB := [] |}.

Definition afterEvents (es : list Event) (s : State) : option State :=
  fold_left
    (fun o e => match o with Some s => dispatch e s | None => None end)
    es (Some s).

Definition sampleReady : State :=
  Eval cbv in
    match afterEvents [startBtn sampleInputs] (initialState 1) with
    | Some s => s
    | None => initialState 1
    end.

Definition sampleRunning : State :=
  Eval cbv in
    match afterEvents [startBtn sampleInputs; runStartBtn] (initialState 1)
    with
    | Some s => s
    | None => initialState 1
    end.

Definition sampleFinished : State :=
  Eval cbv in
    match afterEvents [startBtn sampleInputs; skipBtn] (initialState 1) with
    | Some s => s
    | None => initialState 1
    end.

(** ** Vocabulary of the further properties *)

Definition sumDurations (l : list Step) : Z :=
  fold_left (fun acc step => acc + durationSeconds step) l 0.

(** The seconds one circuit takes: its exercises, the rests between them and
    the rests between its repetitions. *)
Definition circuitSeconds (w : Workout) (c : Circuit) : Z :=
  let N := Z.of_nat (List.length (exercises c)) in
  let R := repeats c in
  R * fold_right (fun ex acc => expectedDuration w ex + acc) 0 (exercises c)
  + (if 0 <? restBetweenExercisesSeconds w
     then R * (N - 1) * restBetweenExercisesSeconds w else 0)
  + (if 0 <? restBetweenCircuitsSeconds w
     then (R - 1) * restBetweenCircuitsSeconds w else 0).

(** [n] firings of the interval in a row. *)
Fixpoint ticks (n : nat) (s : State) : option State :=
  match n with
  | O => Some s
  | S n' =>
      match intervalCallback s with
      | Some s' => ticks n' s'
      | None => None
      end
  end.

(** The entity of one code unit. *)
Definition escapeUnit (c : N) : JSString :=
  if (c =? 38)%N then lit "&amp;"
  else if (c =? 34)%N then lit "&quot;"
  else if (c =? 60)%N then lit "&lt;"
  else if (c =? 62)%N then lit "&gt;"
  else [c].

(** More of what holds of every state the page can be in: a running timer
    has been started, and the time left on the current step is at most its
    duration. *)
Record Inv2 (s : State) : Prop := mkInv2 {
  Inv2_started : isRunning s = true -> hasStarted s = true;
  Inv2_within :
    forall step,
      nth_error (steps s) (currentStepIndex s) = Some step ->
      secondsRemaining s <= durationSeconds step
}.

(** No white space at either end. *)
Definition trimmed (s : JSString) : Prop :=
  (forall c s', s = c :: s' -> isStrWhiteSpaceChar c = false)
  /\ (forall c s', s = s' ++ [c] -> isStrWhiteSpaceChar c = false).

(** White space only (the empty string included). *)
Definition isBlank (s : JSString) : bool := forallb isStrWhiteSpaceChar s.

Definition startsWithExercise (l : list Step) : bool :=
  match l with
  | s :: _ => hasType exercise s
  | [] => false
  end.

(** Every step that is not an exercise is directly followed by one. *)
Fixpoint restsAreFollowed (l : list Step) : bool :=
  match l with
  | [] => true
  | s :: l' =>
      (hasType exercise s || startsWithExercise l') && restsAreFollowed l'
  end.

(** Whether the cue block calls the halfway cue, and the final countdown
    cue. *)
Definition halfCueDue (s : State) (step : Step) : bool :=
  StepType_eqb (type step) exercise
  && ((secondsRemaining s =? durationSeconds step / 2)
      && differs_nat (lastHalfCueStepIndex s) (currentStepIndex s)).

Definition finalCueDue (s : State) : bool :=
  (secondsRemaining s <=? 3) && (1 <=? secondsRemaining s)
  && differs_key (lastFinalCueKey s) (currentStepIndex s, secondsRemaining s).

(** A second page: two exercises, the second with a 60 s override; the
    state after "Start workout" (three steps, none started) and the state
    after the run screen's Start that follows. *)
Definition sampleInputs2 : Inputs :=
  {| workSecondsInput := lit "45";
     restBetweenExercisesInput := lit "15";
     restBetweenCircuitsInput := lit "60";
     transitionRestSecondsInput := None;
     circuitRepeatsInput := lit "1";
     circuitBRepeatsInput := lit "2";
     toggleCircuitBPressed := false;
     exerciseListA := [(lit "Plank", lit ""); (lit " Squats ", lit "60")];
     exerciseListB := [] |}.

Definition sampleReady2 : State :=
  Eval cbv in
    match afterEvents [startBtn sampleInputs2] (initialState 1) with
    | Some s => s
    | None => initialState 1
    end.

Definition sampleRunning2 : State :=
  Eval cbv in
    match afterEvents [startBtn sampleInputs2; runStartBtn] (initialState 1)
    with
    | Some s => s
    | None => initialState 1
    end.

(** The steps of the page are those built from the workout it holds, which
    is valid; before any workout there are no steps. *)
Definition builtFromWorkout (s : State) : Prop :=
  match workout s with
  | Some w => steps s = buildSteps w /\ validWorkout w
  | None => steps s = []
  end.

(** A third page: two exercises of one second with one second of rest
    between them; the state after "Start workout" and the run screen's
    Start (the last second of the first of three steps), the state one skip
    later (the rest) and the state two skips later (the last second of the
    last step). *)
Definition sampleInputs3 : Inputs :=
  {| workSecondsInput := lit "1";
     restBetweenExercisesInput := lit "1";
     restBetweenCircuitsInput := lit "60";
     transitionRestSecondsInput := None;
     circuitRepeatsInput := lit "1";
     circuitBRepeatsInput := lit "1";
     toggleCircuitBPressed := false;
     exerciseListA := [(lit "Plank", lit ""); (lit "Squats", lit "")];
     exerciseListB := [] |}.

Definition sampleReady3 : State :=
  Eval cbv in
    match afterEvents [startBtn sampleInputs3] (initialState 1) with
    | Some s => s
    | None => initialState 1
    end.

Definition sampleLastSecond : State :=
  Eval cbv in
    match afterEvents [startBtn sampleInputs3; runStartBtn] (initialState 1)
    with
    | Some s => s
    | None => initialState 1
    end.

Definition sampleRestSecond : State :=
  Eval cbv in
    match
      afterEvents [startBtn sampleInputs3; runStartBtn; skipBtn]
        (initialState 1)
    with
    | Some s => s
    | None => initialState 1
    end.

Definition sampleLastSecondOfRun : State :=
  Eval cbv in
    match
      afterEvents [startBtn sampleInputs3; runStartBtn; skipBtn; skipBtn]
        (initialState 1)
    with
    | Some s => s
    | None => initialState 1
    end.

(* ================================================================== *)
(** * Properties of the step builder *)
(* ================================================================== *)

Lemma countType_nil t : countType t [] = 0.
Proof. reflexivity. Qed.

Lemma countType_app t l1 l2 :
  countType t (l1 ++ l2) = countType t l1 + countType t l2.
Proof. unfold countType. rewrite filter_app, length_app. lia. Qed.

Lemma countType_cons t s l :
  countType t (s :: l) = (if hasType t s then 1 else 0) + countType t l.
Proof.
  unfold countType. cbn [filter]. destruct (hasType t s); cbn [List.length]; lia.
Qed.

Lemma countType_nonneg t l : 0 <= countType t l.
Proof. unfold countType. lia. Qed.

(** Every step has one of the four kinds. *)
Lemma length_countType l :
  Z.of_nat (List.length l)
  = countType exercise l + countType rest l
    + countType circuit_rest l + countType transition_rest l.
Proof.
  induction l as [|s l IH]; [reflexivity|].
  rewrite !countType_cons. cbn [List.length]. unfold hasType.
  destruct (type s); cbn [StepType_eqb]; lia.
Qed.

(** ** The two loops of [buildStepsForCircuit] *)

Section Loops.

Variable cid : CircuitId.
Variable w : Workout.

Lemma exerciseLoop_exercises len i todo :
  filter (hasType exercise) (exerciseLoop cid w len i todo)
  = map (expectedExerciseStep cid w) todo.
Proof.
  revert i. induction todo as [|ex todo IH]; intro i; [reflexivity|].
  cbn [exerciseLoop map filter]. unfold hasType at 1. cbn [type StepType_eqb].
  rewrite filter_app, IH.
  destruct (negb (i =? len - 1) && (0 <? restBetweenExercisesSeconds w));
    reflexivity.
Qed.

Lemma exerciseLoop_count_exercise len i todo :
  countType exercise (exerciseLoop cid w len i todo)
  = Z.of_nat (List.length todo).
Proof.
  unfold countType. now rewrite exerciseLoop_exercises, length_map.
Qed.

(** Rest steps separate consecutive exercises: one less than the exercises
    that remain, when the loop is at index [i] of [len]. *)
Lemma exerciseLoop_count_rest len i todo :
  i + Z.of_nat (List.length todo) = len ->
  countType rest (exerciseLoop cid w len i todo)
  = if 0 <? restBetweenExercisesSeconds w
    then Z.max 0 (Z.of_nat (List.length todo) - 1) else 0.
Proof.
  revert i. induction todo as [|ex todo IH]; intros i Hlen.
  - cbn. now destruct (0 <? _).
  - cbn [exerciseLoop]. rewrite countType_cons, countType_app.
    unfold hasType at 1. cbn [type StepType_eqb].
    rewrite (IH (i + 1)) by (cbn [List.length] in Hlen; lia).
    cbn [List.length] in *.
    destruct (0 <? restBetweenExercisesSeconds w) eqn:Hr;
      destruct (i =? len - 1) eqn:Hi; cbn [negb andb];
      rewrite ?countType_cons, ?countType_nil;
      unfold hasType; cbn [type StepType_eqb]; lia.
Qed.

Lemma exerciseLoop_count_other len i todo t :
  t = circuit_rest \/ t = transition_rest ->
  countType t (exerciseLoop cid w len i todo) = 0.
Proof.
  intro Ht. revert i. induction todo as [|ex todo IH]; intro i; [reflexivity|].
  cbn [exerciseLoop]. rewrite countType_cons, countType_app, IH.
  destruct (negb (i =? len - 1) && (0 <? restBetweenExercisesSeconds w));
    rewrite ?countType_cons, ?countType_nil; unfold hasType;
    cbn [type StepType_eqb]; destruct Ht; subst t; reflexivity.
Qed.

Lemma exerciseLoop_circuitId len i todo :
  Forall (fun s => circuitId s = cid) (exerciseLoop cid w len i todo).
Proof.
  revert i. induction todo as [|ex todo IH]; intro i; [constructor|].
  cbn [exerciseLoop]. constructor; [reflexivity|].
  apply Forall_app. split; [|apply IH].
  destruct (negb (i =? len - 1) && (0 <? restBetweenExercisesSeconds w));
    repeat constructor.
Qed.

Lemma repeatLoop_exercises exs r left rep :
  filter (hasType exercise) (repeatLoop cid w exs r left rep)
  = concat (repeat (map (expectedExerciseStep cid w) exs) left).
Proof.
  revert rep. induction left as [|left IH]; intro rep; [reflexivity|].
  cbn [repeatLoop repeat concat].
  rewrite !filter_app, exerciseLoop_exercises, IH.
  destruct (negb (rep =? r) && (0 <? restBetweenCircuitsSeconds w));
    reflexivity.
Qed.

Lemma repeatLoop_count_exercise exs r left rep :
  countType exercise (repeatLoop cid w exs r left rep)
  = Z.of_nat left * Z.of_nat (List.length exs).
Proof.
  revert rep. induction left as [|left IH]; intro rep; [reflexivity|].
  cbn [repeatLoop]. rewrite !countType_app, exerciseLoop_count_exercise, IH.
  destruct (negb (rep =? r) && (0 <? restBetweenCircuitsSeconds w));
    rewrite ?countType_cons, ?countType_nil;
    unfold hasType; cbn [type StepType_eqb]; lia.
Qed.

Lemma repeatLoop_count_rest exs r left rep :
  countType rest (repeatLoop cid w exs r left rep)
  = if 0 <? restBetweenExercisesSeconds w
    then Z.of_nat left * Z.max 0 (Z.of_nat (List.length exs) - 1) else 0.
Proof.
  revert rep. induction left as [|left IH]; intro rep.
  - cbn. now destruct (0 <? _).
  - cbn [repeatLoop]. rewrite !countType_app, IH.
    rewrite exerciseLoop_count_rest by lia.
    destruct (negb (rep =? r) && (0 <? restBetweenCircuitsSeconds w));
      rewrite ?countType_cons, ?countType_nil;
      unfold hasType; cbn [type StepType_eqb];
      destruct (0 <? restBetweenExercisesSeconds w); lia.
Qed.

(** Circuit rests separate consecutive repetitions: one less than the
    repetitions that remain, when the loop is at repetition [rep]. *)
Lemma repeatLoop_count_circuit_rest exs r left rep :
  rep + Z.of_nat left = r + 1 ->
  countType circuit_rest (repeatLoop cid w exs r left rep)
  = if 0 <? restBetweenCircuitsSeconds w
    then Z.max 0 (Z.of_nat left - 1) else 0.
Proof.
  revert rep. induction left as [|left IH]; intros rep Hrep.
  - cbn. now destruct (0 <? _).
  - cbn [repeatLoop]. rewrite !countType_app.
    rewrite exerciseLoop_count_other by auto.
    rewrite (IH (rep + 1)) by lia.
    destruct (0 <? restBetweenCircuitsSeconds w) eqn:Hr;
      destruct (rep =? r) eqn:Hi; cbn [negb andb];
      rewrite ?countType_cons, ?countType_nil;
      unfold hasType; cbn [type StepType_eqb]; lia.
Qed.

Lemma repeatLoop_count_transition_rest exs r left rep :
  countType transition_rest (repeatLoop cid w exs r left rep) = 0.
Proof.
  revert rep. induction left as [|left IH]; intro rep; [reflexivity|].
  cbn [repeatLoop]. rewrite !countType_app, IH.
  rewrite exerciseLoop_count_other by auto.
  destruct (negb (rep =? r) && (0 <? restBetweenCircuitsSeconds w));
    reflexivity.
Qed.

Lemma repeatLoop_circuitId exs r left rep :
  Forall (fun s => circuitId s = cid) (repeatLoop cid w exs r left rep).
Proof.
  revert rep. induction left as [|left IH]; intro rep; [constructor|].
  cbn [repeatLoop]. rewrite !Forall_app. repeat split.
  - apply exerciseLoop_circuitId.
  - destruct (negb (rep =? r) && (0 <? restBetweenCircuitsSeconds w));
      repeat constructor.
  - apply IH.
Qed.

End Loops.

Lemma countType_zero_Forall t l :
  countType t l = 0 -> Forall (fun s => type s <> t) l.
Proof.
  induction l as [|s l IH]; intro H; [constructor|].
  rewrite countType_cons in H. pose proof (countType_nonneg t l).
  unfold hasType in H. constructor.
  - intro E. rewrite E in H. destruct t; cbn [StepType_eqb] in H; lia.
  - apply IH. destruct (StepType_eqb (type s) t); lia.
Qed.

(** Steps of one circuit carry its id and none is a transition rest. *)
Lemma buildStepsForCircuit_own cid w exs r :
  Forall (fun s => circuitId s = cid /\ type s <> transition_rest)
    (buildStepsForCircuit cid w exs r).
Proof.
  unfold buildStepsForCircuit. apply Forall_and.
  - apply repeatLoop_circuitId.
  - apply countType_zero_Forall, repeatLoop_count_transition_rest.
Qed.

(** A circuit with an exercise and a repetition starts with the step of its
    first exercise. *)
Lemma buildStepsForCircuit_head cid w ex exs r :
  1 <= r ->
  exists l, buildStepsForCircuit cid w (ex :: exs) r
            = expectedExerciseStep cid w ex :: l.
Proof.
  intro Hr. unfold buildStepsForCircuit.
  destruct (Z.to_nat r) as [|left] eqn:E; [lia|].
  cbn [repeatLoop exerciseLoop]. eexists. reflexivity.
Qed.

Lemma filter_hasType_own t l :
  Forall (fun s => type s <> t) l -> filter (hasType t) l = [].
Proof.
  induction 1 as [|s l Hs _ IH]; [reflexivity|].
  cbn [filter]. unfold hasType at 1.
  destruct (type s), t; cbn; try apply IH; contradiction.
Qed.

Lemma buildStepsForCircuit_no_transition cid w exs r :
  filter (hasType transition_rest) (buildStepsForCircuit cid w exs r) = [].
Proof.
  apply filter_hasType_own.
  eapply Forall_impl; [|apply buildStepsForCircuit_own]. now intros s [_ H].
Qed.

(** The transition rests of a workout: the single one before circuit B, or
    none. *)
Lemma buildSteps_transition_rests w :
  filter (hasType transition_rest) (buildSteps w)
  = if enabled (circuitB w) && (0 <? transitionRestSeconds w)
    then [theTransitionRest w] else [].
Proof.
  unfold buildSteps.
  rewrite filter_app, buildStepsForCircuit_no_transition.
  destruct (enabled (circuitB w)); [|reflexivity].
  rewrite filter_app, buildStepsForCircuit_no_transition.
  destruct (0 <? transitionRestSeconds w); reflexivity.
Qed.

Lemma buildSteps_exercises w :
  filter (hasType exercise) (buildSteps w)
  = expectedExerciseSteps A w (circuitA w)
    ++ (if enabled (circuitB w)
        then expectedExerciseSteps B w (circuitB w) else []).
Proof.
  unfold buildSteps, buildStepsForCircuit, expectedExerciseSteps.
  rewrite filter_app, repeatLoop_exercises.
  destruct (enabled (circuitB w)); [|reflexivity].
  rewrite filter_app, repeatLoop_exercises.
  destruct (0 <? transitionRestSeconds w); reflexivity.
Qed.

Lemma In_expectedExerciseSteps cid w c ex :
  In ex (exercises c) -> 1 <= repeats c ->
  In (expectedExerciseStep cid w ex) (expectedExerciseSteps cid w c).
Proof.
  intros Hin Hr. unfold expectedExerciseSteps.
  destruct (Z.to_nat (repeats c)) as [|n] eqn:E; [lia|].
  cbn [repeat concat]. apply in_or_app. left. now apply in_map.
Qed.

(** The scenario of the specification: Ex(45), Rest(15), Ex(45),
    CircuitRest(60), Ex(45), Rest(15), Ex(45); 7 steps, 270 s. *)
Example buildSteps_sampleWorkout :
  map (fun s => (type s, durationSeconds s)) (buildSteps sampleWorkout)
  = [(exercise, 45); (rest, 15); (exercise, 45); (circuit_rest, 60);
     (exercise, 45); (rest, 15); (exercise, 45)]
  /\ getTotalDurationSecondsForWorkout sampleWorkout = 270.
Proof. split; reflexivity. Qed.

(** C1. When circuit B is enabled and [transitionRestSeconds] is positive,
    [buildSteps] is circuit A's steps, then one transition rest of
    [transitionRestSeconds] seconds, then circuit B's steps: the transition
    rest is the only step of its kind, it sits at the index right after
    circuit A's last step and right before circuit B's first step (the step of
    B's first exercise), and it is the same whatever
    [restBetweenCircuitsSeconds] is.  When circuit B is disabled or
    [transitionRestSeconds] is not positive, no step is a transition rest. *)
Theorem C1_transition_rest (w : Workout) :
  let stepsA :=
    buildStepsForCircuit A w
      (exercises (circuitA w)) (repeats (circuitA w)) in
  let stepsB :=
    buildStepsForCircuit B w
      (exercises (circuitB w)) (repeats (circuitB w)) in
  (enabled (circuitB w) = true -> 0 < transitionRestSeconds w ->
   buildSteps w = stepsA ++ theTransitionRest w :: stepsB
   /\ filter (hasType transition_rest) (buildSteps w) = [theTransitionRest w]
   /\ durationSeconds (theTransitionRest w) = transitionRestSeconds w
   /\ Forall (fun s => circuitId s = A /\ type s <> transition_rest) stepsA
   /\ Forall (fun s => circuitId s = B /\ type s <> transition_rest) stepsB
   /\ nth_error (buildSteps w) (List.length stepsA)
      = Some (theTransitionRest w)
   /\ nth_error (buildSteps w) (S (List.length stepsA)) = nth_error stepsB 0
   /\ (forall ex exs,
         exercises (circuitB w) = ex :: exs -> 1 <= repeats (circuitB w) ->
         nth_error (buildSteps w) (S (List.length stepsA))
         = Some (expectedExerciseStep B w ex))
   /\ (forall v,
         filter (hasType transition_rest)
           (buildSteps (with_restBetweenCircuitsSeconds v w))
         = [theTransitionRest w]))
  /\
  (enabled (circuitB w) = false \/ transitionRestSeconds w <= 0 ->
   filter (hasType transition_rest) (buildSteps w) = []
   /\ (forall v,
         filter (hasType transition_rest)
           (buildSteps (with_restBetweenCircuitsSeconds v w)) = [])).
Proof.
  intros stepsA stepsB. split.
  - intros Hen Hpos.
    assert (Hb : buildSteps w = stepsA ++ theTransitionRest w :: stepsB).
    { unfold buildSteps. rewrite Hen.
      apply Z.ltb_lt in Hpos. rewrite Hpos. reflexivity. }
    assert (Hn : nth_error (buildSteps w) (S (List.length stepsA))
                 = nth_error stepsB 0).
    { rewrite Hb, nth_error_app2 by lia.
      replace (S (List.length stepsA) - List.length stepsA)%nat with 1%nat
        by lia.
      reflexivity. }
    repeat split.
    + exact Hb.
    + rewrite buildSteps_transition_rests, Hen.
      apply Z.ltb_lt in Hpos. now rewrite Hpos.
    + apply buildStepsForCircuit_own.
    + apply buildStepsForCircuit_own.
    + rewrite Hb, nth_error_app2 by lia. now rewrite Nat.sub_diag.
    + exact Hn.
    + intros ex exs Hex Hr. rewrite Hn. subst stepsB. rewrite Hex.
      destruct (buildStepsForCircuit_head B w ex exs _ Hr) as [l ->].
      reflexivity.
    + intro v. rewrite buildSteps_transition_rests.
      cbn [with_restBetweenCircuitsSeconds circuitB transitionRestSeconds].
      rewrite Hen. apply Z.ltb_lt in Hpos. now rewrite Hpos.
  - intro H.
    assert (E : enabled (circuitB w) && (0 <? transitionRestSeconds w)
                = false).
    { destruct H as [-> | H]; [reflexivity|].
      apply andb_false_intro2. now apply Z.ltb_ge. }
    split; [|intro v]; rewrite buildSteps_transition_rests.
    + now rewrite E.
    + cbn [with_restBetweenCircuitsSeconds circuitB transitionRestSeconds].
      now rewrite E.
Qed.

Lemma C1_transition_rest_witness :
  filter (hasType transition_rest) (buildSteps sampleTwoCircuits)
  = [theTransitionRest sampleTwoCircuits]
  /\ filter (hasType transition_rest) (buildSteps sampleWorkout) = [].
Proof.
  split.
  - apply (proj1 (C1_transition_rest sampleTwoCircuits)); reflexivity.
  - apply (proj2 (C1_transition_rest sampleWorkout)). left. reflexivity.
Defined.

(** C2. The Exercise steps of [buildSteps], in order, are the steps of the
    exercises of circuit A, once per repetition, followed by those of circuit
    B when it is enabled, and the step of an exercise lasts its
    [secondsOverride] when it has one and [workSeconds] otherwise.  In
    particular an exercise with a 60 s override gets a 60 s step, whatever
    [workSeconds] is. *)
Theorem C2_exercise_duration (w : Workout) :
  filter (hasType exercise) (buildSteps w)
  = concat (repeat (map (expectedExerciseStep A w) (exercises (circuitA w)))
              (Z.to_nat (repeats (circuitA w))))
    ++ (if enabled (circuitB w)
        then concat
               (repeat (map (expectedExerciseStep B w) (exercises (circuitB w)))
                  (Z.to_nat (repeats (circuitB w))))
        else [])
  /\ (forall cid ex,
        expectedExerciseStep cid w ex
        = mkStep exercise (name ex)
            (match secondsOverride ex with
             | Some d => d
             | None => workSeconds w
             end) cid)
  /\ (forall ex v,
        In ex (exercises (circuitA w)) -> 1 <= repeats (circuitA w) ->
        secondsOverride ex = Some 60 ->
        In (mkStep exercise (name ex) 60 A)
          (buildSteps (with_workSeconds v w)))
  /\ (forall ex v,
        enabled (circuitB w) = true ->
        In ex (exercises (circuitB w)) -> 1 <= repeats (circuitB w) ->
        secondsOverride ex = Some 60 ->
        In (mkStep exercise (name ex) 60 B)
          (buildSteps (with_workSeconds v w))).
Proof.
  split; [apply buildSteps_exercises|].
  split; [reflexivity|].
  split.
  - intros ex v Hin Hr Ho.
    apply (filter_In (hasType exercise)).
    rewrite buildSteps_exercises. apply in_or_app. left.
    replace (mkStep exercise (name ex) 60 A)
      with (expectedExerciseStep A (with_workSeconds v w) ex)
      by (unfold expectedExerciseStep, expectedDuration; now rewrite Ho).
    now apply In_expectedExerciseSteps.
  - intros ex v Hen Hin Hr Ho.
    apply (filter_In (hasType exercise)).
    rewrite buildSteps_exercises. apply in_or_app. right.
    cbn [with_workSeconds circuitB]. rewrite Hen.
    replace (mkStep exercise (name ex) 60 B)
      with (expectedExerciseStep B (with_workSeconds v w) ex)
      by (unfold expectedExerciseStep, expectedDuration; now rewrite Ho).
    now apply (In_expectedExerciseSteps B (with_workSeconds v w) (circuitB w)).
Qed.

Lemma C2_exercise_duration_witness :
  In (mkStep exercise (lit "Squats") 60 A)
    (buildSteps (with_workSeconds 20 sampleTwoCircuits)).
Proof.
  apply (proj1 (proj2 (proj2 (C2_exercise_duration sampleTwoCircuits)))
           (mkExercise (lit "Squats") (Some 60)) 20).
  - right. left. reflexivity.
  - cbn. lia.
  - reflexivity.
Defined.

(** C3. With circuit B disabled, N1 exercises and R1 repetitions in circuit A
    (both at least 1), [buildSteps] has R1*N1 Exercise steps, R1*(N1-1) Rest
    steps when [restBetweenExercisesSeconds] is positive and none otherwise,
    R1-1 CircuitRest steps when [restBetweenCircuitsSeconds] is positive and
    none otherwise, and nothing else. *)
Theorem C3_step_count (w : Workout)
    (Hdisabled : enabled (circuitB w) = false)
    (Hexercises : exercises (circuitA w) <> [])
    (Hrepeats : 1 <= repeats (circuitA w)) :
  let N1 := Z.of_nat (List.length (exercises (circuitA w))) in
  let R1 := repeats (circuitA w) in
  let rests :=
    if 0 <? restBetweenExercisesSeconds w then R1 * (N1 - 1) else 0 in
  let circuitRests :=
    if 0 <? restBetweenCircuitsSeconds w then R1 - 1 else 0 in
  countType exercise (buildSteps w) = R1 * N1
  /\ countType rest (buildSteps w) = rests
  /\ countType circuit_rest (buildSteps w) = circuitRests
  /\ countType transition_rest (buildSteps w) = 0
  /\ Z.of_nat (List.length (buildSteps w)) = R1 * N1 + rests + circuitRests.
Proof.
  intros N1 R1 rests circuitRests.
  assert (HN : 1 <= N1).
  { subst N1. destruct (exercises (circuitA w)); [contradiction|].
    cbn [List.length]. lia. }
  assert (Hb : buildSteps w
               = repeatLoop A w (exercises (circuitA w)) R1 (Z.to_nat R1) 1).
  { unfold buildSteps, buildStepsForCircuit. rewrite Hdisabled.
    now rewrite app_nil_r. }
  assert (He : countType exercise (buildSteps w) = R1 * N1).
  { rewrite Hb, repeatLoop_count_exercise, Z2Nat.id by (subst R1; lia).
    reflexivity. }
  assert (Hr : countType rest (buildSteps w) = rests).
  { rewrite Hb, repeatLoop_count_rest, Z2Nat.id by (subst R1; lia).
    fold N1. rewrite Z.max_r by lia. reflexivity. }
  assert (Hc : countType circuit_rest (buildSteps w) = circuitRests).
  { rewrite Hb, repeatLoop_count_circuit_rest by (subst R1; lia).
    subst circuitRests R1.
    destruct (0 <? restBetweenCircuitsSeconds w); lia. }
  assert (Ht : countType transition_rest (buildSteps w) = 0).
  { rewrite Hb. apply repeatLoop_count_transition_rest. }
  repeat split; try assumption.
  rewrite length_countType, He, Hr, Hc, Ht. lia.
Qed.

Lemma C3_step_count_witness :
  countType exercise (buildSteps sampleWorkout) = 2 * 2
  /\ countType rest (buildSteps sampleWorkout) = 2 * (2 - 1)
  /\ countType circuit_rest (buildSteps sampleWorkout) = 2 - 1
  /\ countType transition_rest (buildSteps sampleWorkout) = 0
  /\ Z.of_nat (List.length (buildSteps sampleWorkout))
     = 2 * 2 + 2 * (2 - 1) + (2 - 1).
Proof.
  apply (C3_step_count sampleWorkout).
  - reflexivity.
  - discriminate.
  - cbn. lia.
Defined.

(* ================================================================== *)
(** * Properties of [parseInt] and [clampInt] *)
(* ================================================================== *)

Lemma trimStart_app ws s :
  forallb isStrWhiteSpaceChar ws = true -> trimStart (ws ++ s) = trimStart s.
Proof.
  induction ws as [|c ws IH]; intro H; [reflexivity|].
  cbn [forallb] in H. apply andb_prop in H as [Hc Hws].
  cbn [app trimStart]. rewrite Hc. now apply IH.
Qed.

Lemma trimStart_split s :
  exists ws, forallb isStrWhiteSpaceChar ws = true /\ s = ws ++ trimStart s.
Proof.
  induction s as [|c s [ws [Hws Hs]]]; [now exists []|].
  cbn [trimStart]. destruct (isStrWhiteSpaceChar c) eqn:Hc.
  - exists (c :: ws). cbn [forallb app]. rewrite Hc, Hws. now rewrite <- Hs.
  - now exists [].
Qed.

Lemma takeDigits_app ds rest :
  forallb isDigit ds = true -> startsWithDigit rest = false ->
  takeDigits (ds ++ rest) = ds.
Proof.
  intros Hds Hrest. induction ds as [|d ds IH].
  - destruct rest as [|c rest]; [reflexivity|].
    cbn in Hrest. cbn [app takeDigits]. now rewrite Hrest.
  - cbn [forallb] in Hds. apply andb_prop in Hds as [Hd Hds].
    cbn [app takeDigits]. rewrite Hd. now rewrite IH.
Qed.

Lemma takeDigits_split s :
  exists rest,
    forallb isDigit (takeDigits s) = true /\ startsWithDigit rest = false
    /\ s = takeDigits s ++ rest.
Proof.
  induction s as [|c s [rest [Hd [Hr Hs]]]]; [now exists []|].
  cbn [takeDigits]. destruct (isDigit c) eqn:Hc.
  - exists rest. cbn [forallb app]. rewrite Hc, Hd. now rewrite <- Hs.
  - exists (c :: s). cbn. now rewrite Hc.
Qed.

Lemma fold_decimal ds acc :
  fold_left (fun acc c => 10 * acc + digitValue c) ds acc
  = acc * 10 ^ Z.of_nat (List.length ds) + valueOfDigits ds.
Proof.
  revert acc. induction ds as [|d ds IH]; intro acc.
  - cbn. lia.
  - cbn [fold_left valueOfDigits List.length]. rewrite IH.
    rewrite Nat2Z.inj_succ, Z.pow_succ_r by lia. ring.
Qed.

Lemma decimalValue_valueOfDigits ds : decimalValue ds = valueOfDigits ds.
Proof. unfold decimalValue. rewrite fold_decimal. lia. Qed.

Lemma digit_not_white c : isDigit c = true -> isStrWhiteSpaceChar c = false.
Proof.
  unfold isDigit, isStrWhiteSpaceChar. intro H.
  apply andb_prop in H as [H1 H2]. apply N.leb_le in H1, H2.
  repeat (apply orb_false_intro);
    try (apply N.eqb_neq; lia);
    apply andb_false_iff; rewrite !N.leb_gt; lia.
Qed.

Lemma digit_not_sign c :
  isDigit c = true -> (c =? 45)%N = false /\ (c =? 43)%N = false.
Proof.
  unfold isDigit. intro H. apply andb_prop in H as [H1 H2].
  apply N.leb_le in H1, H2. split; apply N.eqb_neq; lia.
Qed.

(** [parseInt] finds the integer a string parses as. *)
Lemma parseInt_complete s n : ParsesAs s n -> parseInt s = Some n.
Proof.
  intros [ws sg sign ds rest Hws Hsg Hne Hds Hrest].
  unfold parseInt. rewrite trimStart_app by assumption.
  destruct ds as [|d ds]; [contradiction|].
  pose proof Hds as Hd. cbn [forallb] in Hd. apply andb_prop in Hd as [Hd _].
  destruct (digit_not_sign d Hd) as [Hm Hp].
  pose proof (takeDigits_app (d :: ds) rest Hds Hrest) as Htake.
  destruct Hsg; cbn [app trimStart].
  - rewrite (digit_not_white d Hd), Hm, Hp.
    change (d :: ds ++ rest) with ((d :: ds) ++ rest). rewrite Htake.
    now rewrite decimalValue_valueOfDigits.
  - change (isStrWhiteSpaceChar 43) with false. cbn iota.
    change ((43 =? 45)%N) with false. change ((43 =? 43)%N) with true.
    cbn iota. change (d :: ds ++ rest) with ((d :: ds) ++ rest).
    rewrite Htake. now rewrite decimalValue_valueOfDigits.
  - change (isStrWhiteSpaceChar 45) with false. cbn iota.
    change ((45 =? 45)%N) with true. cbn iota.
    change (d :: ds ++ rest) with ((d :: ds) ++ rest).
    rewrite Htake. now rewrite decimalValue_valueOfDigits.
Qed.

(** Whatever [parseInt] returns is the integer the string parses as. *)
Lemma parseInt_sound s n : parseInt s = Some n -> ParsesAs s n.
Proof.
  unfold parseInt. intro H.
  destruct (trimStart_split s) as [ws [Hws Hs]].
  assert (Hgen : forall sg sign s2,
             signPrefix sg sign -> trimStart s = sg ++ s2 ->
             match takeDigits s2 with
             | [] => None
             | ds => Some (sign * decimalValue ds)
             end = Some n -> ParsesAs s n).
  { intros sg sign s2 Hsg Hs2 Hn.
    destruct (takeDigits_split s2) as [rest [Hd [Hr Hsplit]]].
    destruct (takeDigits s2) as [|d ds] eqn:Htake; [discriminate|].
    injection Hn as <-. rewrite decimalValue_valueOfDigits.
    rewrite Hs, Hs2, Hsplit.
    apply ParsesAs_intro; try assumption. discriminate. }
  destruct (trimStart s) as [|c s'] eqn:Ht.
  - apply (Hgen [] 1 []); [constructor | reflexivity | exact H].
  - destruct (c =? 45)%N eqn:Hm.
    + apply N.eqb_eq in Hm. subst c.
      apply (Hgen [45%N] (-1) s'); [constructor | reflexivity | exact H].
    + destruct (c =? 43)%N eqn:Hp.
      * apply N.eqb_eq in Hp. subst c.
        apply (Hgen [43%N] 1 s'); [constructor | reflexivity | exact H].
      * apply (Hgen [] 1 (c :: s')); [constructor | reflexivity | exact H].
Qed.

Example MAX_SAFE_INTEGER_eq : MAX_SAFE_INTEGER = 2 ^ 53 - 1.
Proof. reflexivity. Qed.

(** C10. When the string parses as an integer [n] of the safe range (from
    [- MAX_SAFE_INTEGER] to [MAX_SAFE_INTEGER], where [Number.parseInt]
    returns the integer itself), [clampInt] returns the larger of [min] and
    [n]; when it parses as no integer, [clampInt] returns [fallback] as it
    is, also when [fallback] is below [min]. *)
Theorem C10_clampInt (value : JSString) (min fallback : Z) :
  (forall n, ParsesAs value n -> isSafeInteger n ->
     clampInt value min fallback = Z.max min n)
  /\ ((forall n, ~ ParsesAs value n) -> clampInt value min fallback = fallback).
Proof.
  unfold clampInt. split.
  - intros n H _. now rewrite (parseInt_complete _ _ H).
  - intro H. destruct (parseInt value) as [n|] eqn:E; [|reflexivity].
    exfalso. exact (H n (parseInt_sound _ _ E)).
Qed.

Lemma C10_clampInt_witness :
  clampInt (lit " -7px") 0 15 = Z.max 0 (-7)
  /\ clampInt (lit "9007199254740991") 1 45 = 9007199254740991
  /\ clampInt (lit "abc") 10 3 = 3.
Proof.
  split; [|split].
  - apply (proj1 (C10_clampInt (lit " -7px") 0 15) (-7)).
    + apply (ParsesAs_intro [32%N] [45%N] (-1) [55%N] (lit "px"));
        [reflexivity | constructor | discriminate | reflexivity | reflexivity].
    + split; apply Z.leb_le; reflexivity.
  - apply (proj1 (C10_clampInt (lit "9007199254740991") 1 45)
             9007199254740991).
    + apply (ParsesAs_intro [] [] 1 (lit "9007199254740991") []);
        [reflexivity | constructor | discriminate | reflexivity | reflexivity].
    + split; apply Z.leb_le; reflexivity.
  - apply (proj2 (C10_clampInt (lit "abc") 10 3)).
    intros n H. apply parseInt_complete in H. discriminate H.
Defined.

(* ================================================================== *)
(** * Properties of the run controller *)
(* ================================================================== *)

Lemma clampInt_min value min fallback :
  min <= fallback -> min <= clampInt value min fallback.
Proof. unfold clampInt. destruct (parseInt value); lia. Qed.

Lemma getExercisesFromList_overrides rows :
  Forall (fun ex => forall d, secondsOverride ex = Some d -> 1 <= d)
    (getExercisesFromList rows).
Proof.
  induction rows as [|[nameRaw secondsRaw] rows IH]; [constructor|].
  cbn [getExercisesFromList]. destruct (trim nameRaw) as [|c cs]; [exact IH|].
  constructor; [|exact IH]. cbn [secondsOverride]. intros d.
  destruct (trim secondsRaw) as [|c' cs']; [discriminate|].
  destruct (parseInt secondsRaw) as [n|]; [|discriminate].
  destruct (0 <? n) eqn:Hn; [|discriminate].
  intros [= <-]. apply Z.ltb_lt in Hn. lia.
Qed.

Lemma getWorkoutFromInputs_fromInputs inp :
  fromInputs (getWorkoutFromInputs inp).
Proof.
  unfold fromInputs, getWorkoutFromInputs.
  cbn [workSeconds repeats circuitA circuitB exercises].
  repeat split; try (apply clampInt_min; lia).
  apply Forall_app. split; apply getExercisesFromList_overrides.
Qed.

Lemma exerciseLoop_durations cid w len i todo :
  1 <= workSeconds w ->
  Forall (fun ex => forall d, secondsOverride ex = Some d -> 1 <= d) todo ->
  Forall (fun step => 1 <= durationSeconds step)
    (exerciseLoop cid w len i todo).
Proof.
  intros Hw Ho. revert i.
  induction Ho as [|ex todo Hex _ IH]; intro i; [constructor|].
  cbn [exerciseLoop]. constructor.
  - cbn [durationSeconds]. destruct (secondsOverride ex); auto.
  - apply Forall_app. split; [|apply IH].
    destruct (0 <? restBetweenExercisesSeconds w) eqn:Hr;
      [|rewrite andb_false_r; constructor].
    destruct (negb (i =? len - 1)); [|constructor].
    apply Z.ltb_lt in Hr. repeat constructor. cbn. lia.
Qed.

Lemma repeatLoop_durations cid w exs r left rep :
  1 <= workSeconds w ->
  Forall (fun ex => forall d, secondsOverride ex = Some d -> 1 <= d) exs ->
  Forall (fun step => 1 <= durationSeconds step)
    (repeatLoop cid w exs r left rep).
Proof.
  intros Hw Ho. revert rep.
  induction left as [|left IH]; intro rep; [constructor|].
  cbn [repeatLoop]. rewrite !Forall_app. repeat split.
  - now apply exerciseLoop_durations.
  - destruct (0 <? restBetweenCircuitsSeconds w) eqn:Hr;
      [|rewrite andb_false_r; constructor].
    destruct (negb (rep =? r)); [|constructor].
    apply Z.ltb_lt in Hr. repeat constructor. cbn. lia.
  - apply IH.
Qed.

(** No step of a workout read from the page lasts less than a second. *)
Lemma buildSteps_durations w :
  fromInputs w ->
  Forall (fun step => 1 <= durationSeconds step) (buildSteps w).
Proof.
  intros (Hw & _ & _ & Ho). apply Forall_app in Ho as [HoA HoB].
  unfold buildSteps, buildStepsForCircuit. apply Forall_app. split.
  - now apply repeatLoop_durations.
  - destruct (enabled (circuitB w)); [|constructor].
    apply Forall_app. split; [|now apply repeatLoop_durations].
    destruct (0 <? transitionRestSeconds w) eqn:Ht; [|constructor].
    apply Z.ltb_lt in Ht. repeat constructor. cbn. lia.
Qed.

Lemma buildSteps_nonempty w :
  exercises (circuitA w) <> [] -> 1 <= repeats (circuitA w) ->
  buildSteps w <> [].
Proof.
  intros Hex Hr. unfold buildSteps.
  destruct (exercises (circuitA w)) as [|ex exs]; [contradiction|].
  destruct (buildStepsForCircuit_head A w ex exs _ Hr) as [l ->].
  discriminate.
Qed.

Ltac destruct_state s :=
  destruct s as [st wo idx sec iid run started fin lh lf ls ivs nh cs].

Lemma remove_single (h : nat) : remove Nat.eq_dec h [h] = [].
Proof. cbn. destruct (Nat.eq_dec h h); [reflexivity|contradiction]. Qed.

(** ** What each function of the timer engine does to the state *)

Lemma stopTimer_eq s :
  stopTimer s
  = set_isRunning false
      (set_intervalId None
         (set_intervals
            (match intervalId s with
             | Some h => remove Nat.eq_dec h (intervals s)
             | None => intervals s
             end) s)).
Proof. destruct_state s. unfold stopTimer. cbn. now destruct iid. Qed.

Lemma startTimer_noop s :
  isRunning s = true \/ steps s = [] \/ isFinished s = true ->
  startTimer s = s.
Proof.
  intro H. unfold startTimer.
  destruct H as [-> | [-> | ->]]; cbn; rewrite ?orb_true_r; reflexivity.
Qed.

Lemma startTimer_idle s :
  isRunning s = false -> steps s <> [] -> isFinished s = false ->
  startTimer s
  = set_intervalId (Some (nextHandle s))
      (set_nextHandle (S (nextHandle s))
         (set_intervals (nextHandle s :: intervals s)
            (set_hasStarted true (set_isRunning true s)))).
Proof.
  intros Hr Hs Hf. unfold startTimer. rewrite Hr, Hf.
  destruct (steps s); [contradiction|]. reflexivity.
Qed.

(** [setStep] moves to an index inside the sequence and loads the duration of
    the step there; beside the spoken-rest tracker and the log, nothing else
    changes. *)
Lemma setStep_inside index prev s step :
  nth_error (steps s) index = Some step ->
  exists s',
    setStep index prev s = Some s'
    /\ steps s' = steps s /\ workout s' = workout s
    /\ currentStepIndex s' = index
    /\ secondsRemaining s' = durationSeconds step
    /\ intervalId s' = intervalId s /\ isRunning s' = isRunning s
    /\ hasStarted s' = hasStarted s /\ isFinished s' = isFinished s
    /\ intervals s' = intervals s /\ nextHandle s' = nextHandle s
    /\ lastHalfCueStepIndex s' = lastHalfCueStepIndex s
    /\ lastFinalCueKey s' = lastFinalCueKey s.
Proof.
  intro Hnth. unfold setStep. cbn. rewrite Hnth.
  match goal with |- context [if ?c then _ else _] => destruct c end;
    eexists; (split; [reflexivity|]); cbn; repeat split.
Qed.

Lemma setStep_outside index prev s :
  (List.length (steps s) <= index)%nat -> setStep index prev s = None.
Proof.
  intro H. unfold setStep. cbn.
  now apply nth_error_None in H as ->.
Qed.

(** The cue block touches the two cue trackers and the log only. *)
Lemma tickCues_frame s :
  steps (tickCues s) = steps s /\ workout (tickCues s) = workout s
  /\ currentStepIndex (tickCues s) = currentStepIndex s
  /\ secondsRemaining (tickCues s) = secondsRemaining s
  /\ intervalId (tickCues s) = intervalId s
  /\ isRunning (tickCues s) = isRunning s
  /\ hasStarted (tickCues s) = hasStarted s
  /\ isFinished (tickCues s) = isFinished s
  /\ intervals (tickCues s) = intervals s
  /\ nextHandle (tickCues s) = nextHandle s
  /\ lastSpokenRestStepIndex (tickCues s) = lastSpokenRestStepIndex s.
Proof.
  unfold tickCues.
  destruct (nth_error (steps s) (currentStepIndex s)) as [step|];
    [|repeat split].
  repeat match goal with
         | |- context [if ?c then _ else _] => destruct c; cbn
         end; repeat split.
Qed.

(** On the last step [goToNextStep] finishes the run where it stands. *)
Lemma goToNextStep_last b s :
  (List.length (steps s) <= currentStepIndex s + 1)%nat ->
  goToNextStep b s
  = Some (set_secondsRemaining 0 (set_isFinished true (stopTimer s))).
Proof.
  intro H. unfold goToNextStep. rewrite stopTimer_eq. cbn.
  apply Nat.leb_le in H. now rewrite H.
Qed.

(** Before the last step [goToNextStep] moves one step on; the timer runs
    afterwards exactly when [autoContinue] is set. *)
Lemma goToNextStep_next b s step :
  nth_error (steps s) (currentStepIndex s + 1) = Some step ->
  exists s',
    goToNextStep b s = Some s'
    /\ steps s' = steps s /\ workout s' = workout s
    /\ currentStepIndex s' = (currentStepIndex s + 1)%nat
    /\ secondsRemaining s' = durationSeconds step
    /\ isFinished s' = false
    /\ isRunning s' = b
    /\ hasStarted s' = (hasStarted s || b)
    /\ intervalId s' = (if b then Some (nextHandle s) else None)
    /\ intervals s'
       = (if b then [nextHandle s] else []) ++ intervals (stopTimer s).
Proof.
  intro Hnth.
  assert (Hlt : (currentStepIndex s + 1 < List.length (steps s))%nat)
    by (apply nth_error_Some; congruence).
  unfold goToNextStep.
  set (prev := nth_error (steps s) (currentStepIndex s)).
  assert (E : steps (set_isFinished false (stopTimer s)) = steps s)
    by (rewrite stopTimer_eq; reflexivity).
  assert (Ei : currentStepIndex (stopTimer s) = currentStepIndex s)
    by (rewrite stopTimer_eq; reflexivity).
  assert (Es : steps (stopTimer s) = steps s)
    by (rewrite stopTimer_eq; reflexivity).
  cbv zeta. rewrite Es, Ei.
  apply Nat.leb_gt in Hlt. rewrite Hlt.
  destruct (setStep_inside (currentStepIndex s + 1) prev
              (set_isFinished false (stopTimer s)) step)
    as (s1 & -> & H1 & H2 & H3 & H4 & H5 & H6 & H7 & H8 & H9 & H10 & _);
    [now rewrite E|].
  rewrite stopTimer_eq in H1, H2, H5, H6, H7, H8, H10. cbn in *.
  destruct b.
  - rewrite startTimer_idle; try assumption.
    + eexists. split; [reflexivity|]. cbn.
      rewrite H9, H10, orb_true_r. repeat split; assumption.
    + rewrite H1. destruct (steps s); [cbn in Hlt; discriminate|discriminate].
  - eexists. split; [reflexivity|].
    rewrite H9, orb_false_r. repeat split; assumption.
Qed.

(** ** The invariant *)

Lemma Inv_initialState h0 : Inv (initialState h0).
Proof.
  constructor; cbn; auto; try discriminate. intros _ H. now contradiction H.
Qed.

Lemma stopTimer_intervals s :
  intervals s = match intervalId s with Some h => [h] | None => [] end ->
  intervals (stopTimer s) = [].
Proof.
  intro H. rewrite stopTimer_eq. cbn. rewrite H.
  destruct (intervalId s); [apply remove_single|reflexivity].
Qed.

Lemma stopTimer_Inv s : Inv s -> Inv (stopTimer s).
Proof.
  intros [H1 H2 H3 H4 H5 H6]. rewrite stopTimer_eq.
  constructor; cbn; try assumption.
  - rewrite H1. destruct (intervalId s); [apply remove_single|reflexivity].
  - reflexivity.
  - destruct (steps s); intuition.
  - intuition.
Qed.

Lemma startTimer_Inv s : Inv s -> Inv (startTimer s).
Proof.
  intros HI. pose proof HI as [H1 H2 H3 H4 H5 H6].
  destruct (isRunning s) eqn:Hr;
    [now rewrite startTimer_noop by auto|].
  destruct (steps s) as [|step0 l] eqn:Hs;
    [now rewrite startTimer_noop by auto|].
  destruct (isFinished s) eqn:Hf;
    [now rewrite startTimer_noop by auto|].
  rewrite startTimer_idle by (auto; rewrite Hs; discriminate).
  constructor; cbn; rewrite ?Hs; try assumption; try discriminate.
  - rewrite H1. destruct (intervalId s); [discriminate|reflexivity].
  - reflexivity.
  - congruence.
  - intros _ _. apply H6; [reflexivity|discriminate].
Qed.

Lemma nth_error_duration l i step :
  Forall (fun step => 1 <= durationSeconds step) l ->
  nth_error l i = Some step -> 1 <= durationSeconds step.
Proof.
  intros H Hn. apply nth_error_In in Hn.
  rewrite Forall_forall in H. now apply H.
Qed.

(** From a state whose index is inside the sequence and whose interval table
    is in order, [goToNextStep] does not throw and re-establishes the
    invariant, whatever the time that was left. *)
Lemma goToNextStep_Inv b s :
  intervals s = match intervalId s with Some h => [h] | None => [] end ->
  Forall (fun step => 1 <= durationSeconds step) (steps s) ->
  (currentStepIndex s < List.length (steps s))%nat ->
  exists s', goToNextStep b s = Some s' /\ Inv s'.
Proof.
  intros Hi Hd Hlt.
  pose proof (stopTimer_intervals s Hi) as Hst.
  destruct (nth_error (steps s) (currentStepIndex s + 1)) as [step|] eqn:Hn.
  - destruct (goToNextStep_next b s step Hn)
      as (s' & -> & H1 & H2 & H3 & H4 & H5 & H6 & H7 & H8 & H9).
    exists s'. split; [reflexivity|].
    assert (Hlt' : (currentStepIndex s + 1 < List.length (steps s))%nat)
      by (apply nth_error_Some; congruence).
    rewrite Hst, app_nil_r in H9.
    constructor; rewrite ?H1, ?H3, ?H4, ?H5, ?H6, ?H8, ?H9.
    + now destruct b.
    + now destruct b.
    + destruct (steps s); [cbn in Hlt; lia|exact Hlt'].
    + discriminate.
    + exact Hd.
    + intros _ _. eapply nth_error_duration; eassumption.
  - apply nth_error_None in Hn. rewrite goToNextStep_last by exact Hn.
    eexists. split; [reflexivity|].
    rewrite stopTimer_eq in *. cbn in Hst.
    constructor; cbn; try assumption; try discriminate; try reflexivity.
    + destruct (steps s); [cbn in Hlt; lia|exact Hlt].
    + intros _. repeat split. lia.
Qed.

Lemma Inv_nonempty_index s :
  Inv s -> steps s <> [] ->
  (currentStepIndex s < List.length (steps s))%nat.
Proof.
  intros [_ _ H _ _ _] Hne. destruct (steps s); [contradiction|exact H].
Qed.

Lemma Inv_running_nonempty s : Inv s -> isRunning s = true -> steps s <> [].
Proof.
  intros [_ _ H _ _ _] Hr Hs. rewrite Hs in H. destruct H; congruence.
Qed.

Lemma Inv_occurs_running s h :
  Inv s -> In h (intervals s) -> isRunning s = true /\ intervalId s = Some h.
Proof.
  intros [H1 H2 _ _ _ _] Hin. rewrite H1 in Hin. rewrite H2.
  destruct (intervalId s) as [h'|]; [|contradiction].
  destruct Hin as [->|[]]. auto.
Qed.

Lemma skipStep_Inv s : Inv s -> exists s', skipStep s = Some s' /\ Inv s'.
Proof.
  intro HI. unfold skipStep.
  destruct (steps s) as [|step0 l] eqn:Hs; cbn [List.length Nat.eqb].
  - now exists s.
  - apply goToNextStep_Inv; try apply HI.
    apply Inv_nonempty_index; [exact HI|]. rewrite Hs. discriminate.
Qed.

Lemma resetWorkout_Inv s :
  Inv s -> exists s', resetWorkout s = Some s' /\ Inv s'.
Proof.
  intro HI. apply stopTimer_Inv in HI. unfold resetWorkout. cbv zeta.
  revert HI. generalize (stopTimer s). intros s0 HI.
  destruct (steps s0) as [|step0 l] eqn:Hs; cbn [List.length Nat.ltb Nat.leb].
  - eexists. split; [reflexivity|].
    destruct HI as [H1 H2 H3 H4 H5 H6].
    constructor; cbn; rewrite ?Hs in *; try assumption; try discriminate.
    + tauto.
    + intros _ H. now contradiction H.
  - set (s1 := set_lastSpokenRestStepIndex None
                 (set_lastFinalCueKey None
                    (set_lastHalfCueStepIndex None s0))).
    destruct (setStep_inside 0 None s1 step0)
      as (s' & -> & H1 & H2 & H3 & H4 & H5 & H6 & H7 & H8 & H9 & _);
      [subst s1; cbn; now rewrite Hs|].
    subst s1. cbn in H1, H5, H6, H9.
    eexists. split; [reflexivity|].
    destruct HI as [I1 I2 I3 I4 I5 I6].
    constructor; cbn; rewrite ?H1, ?H3, ?H4, ?H5, ?H6, ?H9, ?Hs;
      try assumption; try discriminate.
    + cbn. lia.
    + now rewrite <- Hs.
    + intros _ _. rewrite Hs in I5. now inversion I5.
Qed.

Lemma intervalCallback_Inv s h :
  Inv s -> In h (intervals s) ->
  exists s', intervalCallback s = Some s' /\ Inv s'.
Proof.
  intros HI Hin.
  destruct (Inv_occurs_running s h HI Hin) as [Hr Hid].
  pose proof (Inv_running_nonempty s HI Hr) as Hne.
  pose proof (Inv_nonempty_index s HI Hne) as Hlt.
  destruct HI as [I1 I2 I3 I4 I5 I6].
  unfold intervalCallback. cbv zeta.
  set (s1 := set_secondsRemaining (secondsRemaining s - 1) s).
  destruct (tickCues_frame s1)
    as (F1 & F2 & F3 & F4 & F5 & F6 & F7 & F8 & F9 & F10 & F11).
  subst s1. cbn in F1, F2, F3, F4, F5, F6, F7, F8, F9, F10, F11.
  rewrite F4.
  destruct (secondsRemaining s - 1 <=? 0) eqn:Hz.
  - apply goToNextStep_Inv; rewrite ?F1, ?F3, ?F5, ?F9; assumption.
  - eexists. split; [reflexivity|]. apply Z.leb_gt in Hz.
    constructor; rewrite ?F1, ?F3, ?F4, ?F5, ?F6, ?F8, ?F9; try assumption.
    + intro Hf. destruct (I4 Hf) as [Hr' _]. congruence.
    + intros _ _. lia.
Qed.

Lemma startBtn_click_Inv inp s :
  Inv s -> exists s', startBtn_click inp s = Some s' /\ Inv s'.
Proof.
  intro HI. unfold startBtn_click. cbv zeta.
  set (w := getWorkoutFromInputs inp).
  destruct (exercises (circuitA w)) as [|ex exs] eqn:HexA;
    cbn [List.length Nat.eqb]; [now exists s|].
  destruct (enabled (circuitB w)
            && (List.length (exercises (circuitB w)) =? 0)%nat);
    [now exists s|].
  pose proof (getWorkoutFromInputs_fromInputs inp) as Hw. fold w in Hw.
  pose proof (buildSteps_durations w Hw) as Hd.
  destruct Hw as (_ & HrA & _).
  assert (Hne : buildSteps w <> [])
    by (apply buildSteps_nonempty; [rewrite HexA; discriminate|exact HrA]).
  destruct (buildSteps w) as [|step0 l] eqn:Hb; [contradiction|].
  match goal with
  | |- context [setStep 0 None ?s0] =>
      destruct (setStep_inside 0 None s0 step0)
        as (s' & -> & H1 & H2 & H3 & H4 & H5 & H6 & H7 & H8 & H9 & _);
        [reflexivity|]
  end.
  cbn in H1, H5, H8, H9.
  eexists. split; [reflexivity|].
  destruct HI as [I1 I2 I3 I4 I5 I6]. rewrite stopTimer_eq.
  constructor; cbn; rewrite ?H1, ?H3, ?H4, ?H5, ?H8, ?H9;
    try assumption; try discriminate; try reflexivity.
  - rewrite I1. destruct (intervalId s); [apply remove_single|reflexivity].
  - cbn. lia.
  - intros _ _. now inversion Hd.
Qed.

(** Every listener the page can run from a state that satisfies the
    invariant returns normally, in a state that satisfies the invariant. *)
Lemma dispatch_Inv e s :
  Inv s -> occurs e s -> exists s', dispatch e s = Some s' /\ Inv s'.
Proof.
  intros HI Ho. destruct e; cbn [dispatch].
  - now apply startBtn_click_Inv.
  - eexists. split; [reflexivity|]. now apply startTimer_Inv.
  - eexists. split; [reflexivity|]. now apply stopTimer_Inv.
  - eexists. split; [reflexivity|]. now apply startTimer_Inv.
  - now apply skipStep_Inv.
  - now apply resetWorkout_Inv.
  - eexists. split; [reflexivity|]. now apply stopTimer_Inv.
  - eapply intervalCallback_Inv; eassumption.
Qed.

Lemma reachable_Inv s : reachable s -> Inv s.
Proof.
  induction 1 as [h0 | s e s' _ IH Ho Hd]; [apply Inv_initialState|].
  destruct (dispatch_Inv e s IH Ho) as (s'' & Hd' & HI). congruence.
Qed.

Lemma sampleReady_reachable : reachable sampleReady.
Proof.
  apply (reachable_step (initialState 1) (startBtn sampleInputs) sampleReady);
    [apply reachable_init | exact I | vm_compute; reflexivity].
Qed.

Lemma sampleRunning_reachable : reachable sampleRunning.
Proof.
  apply (reachable_step sampleReady runStartBtn sampleRunning);
    [apply sampleReady_reachable | exact I | vm_compute; reflexivity].
Qed.

Lemma sampleFinished_reachable : reachable sampleFinished.
Proof.
  apply (reachable_step sampleReady skipBtn sampleFinished);
    [apply sampleReady_reachable | exact I | vm_compute; reflexivity].
Qed.

Lemma sampleReady3_reachable : reachable sampleReady3.
Proof.
  apply (reachable_step (initialState 1) (startBtn sampleInputs3)
           sampleReady3);
    [apply reachable_init | exact I | vm_compute; reflexivity].
Qed.

Lemma sampleLastSecond_reachable : reachable sampleLastSecond.
Proof.
  apply (reachable_step sampleReady3 runStartBtn sampleLastSecond);
    [apply sampleReady3_reachable | exact I | vm_compute; reflexivity].
Qed.

Lemma sampleRestSecond_reachable : reachable sampleRestSecond.
Proof.
  apply (reachable_step sampleLastSecond skipBtn sampleRestSecond);
    [apply sampleLastSecond_reachable | exact I | vm_compute; reflexivity].
Qed.

Lemma sampleLastSecondOfRun_reachable : reachable sampleLastSecondOfRun.
Proof.
  apply (reachable_step sampleRestSecond skipBtn sampleLastSecondOfRun);
    [apply sampleRestSecond_reachable | exact I | vm_compute; reflexivity].
Qed.

(** The page of one-second steps: three steps of 1 s; running on the first
    with 1 s left, and running on the last with 1 s left. *)
Example sample_last_seconds :
  map durationSeconds (steps sampleLastSecond) = [1; 1; 1]
  /\ (currentStepIndex sampleLastSecond, secondsRemaining sampleLastSecond,
      phase sampleLastSecond) = (0%nat, 1, Running)
  /\ (currentStepIndex sampleLastSecondOfRun,
      secondsRemaining sampleLastSecondOfRun, phase sampleLastSecondOfRun)
     = (2%nat, 1, Running).
Proof. repeat split. Qed.

(** The three sample states: one 45 s step; ready, running on interval 1,
    and finished by a skip. *)
Example sample_states :
  map durationSeconds (steps sampleReady) = [45]
  /\ (phase sampleReady, secondsRemaining sampleReady, intervals sampleReady)
     = (NotStarted, 45, [])
  /\ (phase sampleRunning, secondsRemaining sampleRunning,
      intervals sampleRunning) = (Running, 45, [1%nat])
  /\ (phase sampleFinished, secondsRemaining sampleFinished,
      intervals sampleFinished) = (Finished, 0, []).
Proof. repeat split. Qed.

Lemma phase_Running s :
  phase s = Running -> isFinished s = false /\ isRunning s = true.
Proof.
  unfold phase.
  destruct (isFinished s), (isRunning s), (hasStarted s);
    intro; try discriminate; auto.
Qed.

Lemma phase_Finished s : phase s = Finished <-> isFinished s = true.
Proof.
  unfold phase.
  destruct (isFinished s), (isRunning s), (hasStarted s);
    split; intro; try discriminate; auto.
Qed.

(** ** The claims on the run controller *)

(** C4. In a Running state whose [secondsRemaining] is at most
    [MAX_SAFE_INTEGER] (so that the program's subtraction is exact) a tick
    takes one second off [secondsRemaining], which stays non-negative.  While
    time is left the step and the phase stay.  When the decremented value is
    0 and a step follows, the index moves to it, [secondsRemaining] is that
    step's whole duration and the phase is Running again, on a fresh
    interval; when no step follows, the phase is Finished, [secondsRemaining]
    is 0, the index stays and no interval is registered any more. *)
Theorem C4_tick (s : State)
    (Hreach : reachable s) (Hrunning : phase s = Running)
    (Hsafe : secondsRemaining s <= MAX_SAFE_INTEGER) :
  let remaining := secondsRemaining s - 1 in
  let nextIndex := (currentStepIndex s + 1)%nat in
  exists s',
    run tick s = Some s'
    /\ steps s' = steps s
    /\ steps s <> []
    /\ 0 <= remaining
    /\ (0 < remaining ->
        secondsRemaining s' = remaining
        /\ currentStepIndex s' = currentStepIndex s
        /\ phase s' = Running)
    /\ (remaining = 0 -> (nextIndex < List.length (steps s))%nat ->
        exists step,
          nth_error (steps s) nextIndex = Some step
          /\ currentStepIndex s' = nextIndex
          /\ secondsRemaining s' = durationSeconds step
          /\ phase s' = Running
          /\ intervals s' = [nextHandle s])
    /\ (remaining = 0 -> (List.length (steps s) <= nextIndex)%nat ->
        phase s' = Finished
        /\ secondsRemaining s' = 0
        /\ currentStepIndex s' = currentStepIndex s
        /\ intervalId s' = None
        /\ intervals s' = []).
Proof.
  intros remaining nextIndex. subst remaining nextIndex.
  pose proof (reachable_Inv s Hreach) as HI.
  destruct (phase_Running s Hrunning) as [Hf Hr].
  pose proof (Inv_running_nonempty s HI Hr) as Hne.
  pose proof (Inv_remaining s HI Hf Hne) as Hsec.
  pose proof (Inv_intervals s HI) as Hiv.
  cbn [run]. unfold intervalCallback. cbv zeta.
  set (s1 := set_secondsRemaining (secondsRemaining s - 1) s).
  destruct (tickCues_frame s1)
    as (F1 & F2 & F3 & F4 & F5 & F6 & F7 & F8 & F9 & F10 & F11).
  subst s1. cbn in F1, F2, F3, F4, F5, F6, F7, F8, F9, F10, F11.
  rewrite F4.
  destruct (secondsRemaining s - 1 <=? 0) eqn:Hz.
  - apply Z.leb_le in Hz.
    destruct (nth_error (steps s) (currentStepIndex s + 1)) as [step|] eqn:Hn.
    + rewrite <- F1, <- F3 in Hn.
      destruct (goToNextStep_next true _ step Hn)
        as (s' & -> & H1 & H2 & H3 & H4 & H5 & H6 & H7 & H8 & H9).
      rewrite F1, F3 in Hn. rewrite stopTimer_intervals in H9
        by (rewrite F5, F9; exact Hiv).
      exists s'. split; [reflexivity|].
      rewrite H1, F1. repeat split; try assumption; try lia;
        try match goal with
            | H : (List.length (steps s) <= _)%nat |- _ =>
                apply nth_error_None in H; congruence
            end.
      intros _ _. exists step. rewrite H3, H4, F3, H9, F10.
      unfold phase. rewrite H5, H6. repeat split; assumption.
    + apply nth_error_None in Hn.
      rewrite goToNextStep_last by (rewrite F1, F3; exact Hn).
      eexists. split; [reflexivity|].
      rewrite stopTimer_eq. cbn. rewrite F1, F3, F5, F9, Hiv.
      repeat split; try assumption; try lia; try (intros; lia).
      destruct (intervalId s); [apply remove_single|reflexivity].
  - apply Z.leb_gt in Hz. eexists. split; [reflexivity|].
    rewrite F1, F3, F4. unfold phase. rewrite F6, F8, Hf, Hr.
    repeat split; try assumption; try lia; try (intros; lia).
Qed.

Lemma C4_tick_witness :
  (exists s',
     run tick sampleRunning = Some s'
     /\ secondsRemaining s' = 44
     /\ currentStepIndex s' = 0%nat
     /\ phase s' = Running)
  /\ (exists s' step,
        run tick sampleLastSecond = Some s'
        /\ nth_error (steps sampleLastSecond) 1 = Some step
        /\ currentStepIndex s' = 1%nat
        /\ secondsRemaining s' = durationSeconds step
        /\ phase s' = Running
        /\ intervals s' = [nextHandle sampleLastSecond])
  /\ (exists s',
        run tick sampleLastSecondOfRun = Some s'
        /\ phase s' = Finished
        /\ secondsRemaining s' = 0
        /\ currentStepIndex s' = 2%nat
        /\ intervalId s' = None
        /\ intervals s' = []).
Proof.
  split; [|split].
  - pose proof (C4_tick sampleRunning sampleRunning_reachable eq_refl) as H.
    cbv zeta in H.
    destruct H as (s' & E & _ & _ & _ & H & _ & _);
      [apply Z.leb_le; reflexivity|].
    exists s'. split; [exact E|]. apply H. reflexivity.
  - pose proof
      (C4_tick sampleLastSecond sampleLastSecond_reachable eq_refl) as H.
    cbv zeta in H.
    destruct H as (s' & E & _ & _ & _ & _ & H & _);
      [apply Z.leb_le; reflexivity|].
    destruct (H eq_refl) as (step & H');
      [apply Nat.ltb_lt; reflexivity|].
    exists s', step. split; [exact E | exact H'].
  - pose proof
      (C4_tick sampleLastSecondOfRun sampleLastSecondOfRun_reachable eq_refl)
      as H.
    cbv zeta in H.
    destruct H as (s' & E & _ & _ & _ & _ & _ & H);
      [apply Z.leb_le; reflexivity|].
    exists s'. split; [exact E|]. apply (H eq_refl).
    apply Nat.leb_le. reflexivity.
Defined.

(** C5. From any state that is not Finished and stands on the last step of
    a non-empty sequence, whatever time is left, [skip] leads to Finished
    with 0 seconds remaining (and the index stays on the last step). *)
Theorem C5_skip_last (s : State)
    (Hnonempty : steps s <> [])
    (Hlast : currentStepIndex s = (List.length (steps s) - 1)%nat)
    (Hphase : phase s <> Finished) :
  exists s',
    run skip s = Some s'
    /\ phase s' = Finished
    /\ secondsRemaining s' = 0
    /\ currentStepIndex s' = currentStepIndex s
    /\ steps s' = steps s.
Proof.
  cbn [run dispatch]. unfold skipStep.
  destruct (steps s) as [|step0 l] eqn:Hs; [contradiction|].
  cbn [List.length Nat.eqb]. rewrite goToNextStep_last
    by (rewrite Hs, Hlast; cbn [List.length]; lia).
  eexists. split; [reflexivity|]. rewrite stopTimer_eq. cbn.
  repeat split. now rewrite Hs.
Qed.

Lemma C5_skip_last_witness :
  exists s',
    run skip sampleRunning = Some s'
    /\ phase s' = Finished
    /\ secondsRemaining s' = 0
    /\ currentStepIndex s' = currentStepIndex sampleRunning
    /\ steps s' = steps sampleRunning.
Proof.
  apply (C5_skip_last sampleRunning); [discriminate | reflexivity | discriminate].
Defined.

(** C7. [pause] after [pause] changes nothing more than the first [pause]
    did, in every state; [start] (and [resume], which is the same function)
    in a Running state returns the state as it is, [secondsRemaining]
    included. *)
Theorem C7_idempotence (s : State) :
  (exists s1, run pause s = Some s1 /\ run pause s1 = Some s1)
  /\ (phase s = Running ->
      run start s = Some s /\ run resume s = Some s).
Proof.
  split.
  - exists (stopTimer s). split; [reflexivity|].
    cbn [run dispatch]. f_equal.
    destruct_state s. unfold stopTimer. cbn. now destruct iid.
  - intro H. apply phase_Running in H as [_ Hr].
    cbn [run dispatch]. rewrite startTimer_noop by auto. auto.
Qed.

Lemma C7_idempotence_witness :
  (exists s1, run pause sampleRunning = Some s1 /\ run pause s1 = Some s1)
  /\ run start sampleRunning = Some sampleRunning
  /\ run resume sampleRunning = Some sampleRunning.
Proof.
  split.
  - apply (proj1 (C7_idempotence sampleRunning)).
  - apply (proj2 (C7_idempotence sampleRunning)). reflexivity.
Defined.

(** C8. Every operation of the run controller, from a state whose index is
    inside the step sequence, returns normally, keeps the sequence and leaves
    the index inside it; an operation that finishes the run leaves the index
    on the last step, and every Finished state the page can be in has its
    index there. *)
Theorem C8_index_in_range (op : Op) (s : State)
    (Hindex : (currentStepIndex s < List.length (steps s))%nat) :
  (exists s',
     run op s = Some s'
     /\ steps s' = steps s
     /\ (currentStepIndex s' < List.length (steps s'))%nat
     /\ (phase s <> Finished -> phase s' = Finished ->
         currentStepIndex s' = (List.length (steps s') - 1)%nat))
  /\ (reachable s -> phase s = Finished ->
      currentStepIndex s = (List.length (steps s) - 1)%nat).
Proof.
  split.
  2:{ intros Hreach Hf. apply phase_Finished in Hf.
      destruct (Inv_finished s (reachable_Inv s Hreach) Hf) as (_ & _ & H).
      lia. }
  assert (Hgo : forall b s0,
             steps s0 = steps s -> currentStepIndex s0 = currentStepIndex s ->
             exists s',
               goToNextStep b s0 = Some s'
               /\ steps s' = steps s
               /\ (currentStepIndex s' < List.length (steps s'))%nat
               /\ (phase s' = Finished ->
                   currentStepIndex s' = (List.length (steps s') - 1)%nat)).
  { intros b s0 E1 E2.
    destruct (nth_error (steps s0) (currentStepIndex s0 + 1))
      as [step|] eqn:Hn.
    - destruct (goToNextStep_next b s0 step Hn)
        as (s' & -> & H1 & H2 & H3 & H4 & H5 & H6 & H7 & H8 & H9).
      exists s'. split; [reflexivity|]. rewrite H1, H3, E1.
      repeat split.
      + rewrite <- E1. apply nth_error_Some. congruence.
      + intro Hf. apply phase_Finished in Hf. congruence.
    - apply nth_error_None in Hn. rewrite goToNextStep_last by exact Hn.
      eexists. split; [reflexivity|]. rewrite stopTimer_eq. cbn.
      rewrite E1, E2 in *. repeat split; [exact Hindex | lia]. }
  assert (Hstart : exists s',
             Some (startTimer s) = Some s'
             /\ steps s' = steps s
             /\ (currentStepIndex s' < List.length (steps s'))%nat
             /\ (phase s <> Finished -> phase s' = Finished ->
                 currentStepIndex s' = (List.length (steps s') - 1)%nat)).
  { eexists. split; [reflexivity|]. unfold startTimer.
    destruct (isRunning s || (List.length (steps s) =? 0)%nat || isFinished s)
      eqn:E.
    - repeat split; [exact Hindex | intros; contradiction].
    - cbn. repeat split; [exact Hindex|].
      intros _ Hf. apply phase_Finished in Hf. cbn in Hf.
      apply orb_false_elim in E as [_ E]. congruence. }
  destruct op; cbn [run dispatch].
  - exact Hstart.
  - unfold intervalCallback. cbv zeta.
    set (s1 := set_secondsRemaining (secondsRemaining s - 1) s).
    destruct (tickCues_frame s1)
      as (F1 & F2 & F3 & F4 & F5 & F6 & F7 & F8 & F9 & F10 & F11).
    subst s1. cbn in F1, F2, F3, F4, F5, F6, F7, F8, F9, F10, F11.
    destruct (secondsRemaining (tickCues _) <=? 0).
    + destruct (Hgo true _ F1 F3) as (s' & He & H1 & H2 & H3).
      exists s'. repeat split; auto.
    + eexists. split; [reflexivity|]. rewrite F1, F3.
      repeat split; [exact Hindex|].
      intros Hnf Hf. apply phase_Finished in Hf. rewrite F8 in Hf.
      apply phase_Finished in Hf. contradiction.
  - eexists. split; [reflexivity|]. rewrite stopTimer_eq. cbn.
    repeat split; [exact Hindex|].
    intros Hnf Hf. apply phase_Finished in Hf. cbn in Hf.
    apply phase_Finished in Hf. contradiction.
  - exact Hstart.
  - unfold skipStep.
    destruct (List.length (steps s) =? 0)%nat eqn:E;
      [apply Nat.eqb_eq in E; lia|].
    destruct (Hgo (isRunning s) s eq_refl eq_refl) as (s' & He & H1 & H2 & H3).
    exists s'. repeat split; auto.
  - unfold resetWorkout. cbv zeta.
    assert (Es : steps (stopTimer s) = steps s)
      by (rewrite stopTimer_eq; reflexivity).
    rewrite Es.
    destruct (0 <? List.length (steps s))%nat eqn:E;
      [|apply Nat.ltb_ge in E; lia].
    destruct (nth_error (steps s) 0) as [step0|] eqn:Hn0;
      [|apply nth_error_None in Hn0; lia].
    match goal with
    | |- context [setStep 0 None ?s0] =>
        destruct (setStep_inside 0 None s0 step0)
          as (s' & -> & H1 & H2 & H3 & H4 & H5 & H6 & H7 & H8 & H9 & _);
          [cbn [steps set_lastSpokenRestStepIndex set_lastFinalCueKey
                  set_lastHalfCueStepIndex]; now rewrite Es|]
    end.
    cbn [steps set_lastSpokenRestStepIndex set_lastFinalCueKey
           set_lastHalfCueStepIndex] in H1.
    rewrite Es in H1.
    eexists. split; [reflexivity|]. cbn. rewrite H1, H3.
    repeat split; [lia|]. intros _ Hf.
    destruct (isRunning s'); discriminate Hf.
Qed.

Lemma C8_index_in_range_witness :
  (exists s',
     run tick sampleRunning = Some s'
     /\ steps s' = steps sampleRunning
     /\ (currentStepIndex s' < List.length (steps s'))%nat
     /\ (phase sampleRunning <> Finished -> phase s' = Finished ->
         currentStepIndex s' = (List.length (steps s') - 1)%nat))
  /\ currentStepIndex sampleFinished
     = (List.length (steps sampleFinished) - 1)%nat.
Proof.
  split.
  - apply (proj1 (C8_index_in_range tick sampleRunning
                    ltac:(cbn; lia))).
  - apply (proj2 (C8_index_in_range skip sampleFinished
                    ltac:(cbn; lia))).
    + apply sampleFinished_reachable.
    + reflexivity.
Defined.

(** C9. In a Finished state the page can be in, [skip] returns the state as
    it is: the phase is still Finished, [secondsRemaining] is still 0, the
    index has not moved and no interval is registered. *)
Theorem C9_skip_finished (s : State)
    (Hreach : reachable s) (Hfinished : phase s = Finished) :
  steps s <> []
  /\ run skip s = Some s
  /\ secondsRemaining s = 0
  /\ isRunning s = false
  /\ intervalId s = None
  /\ intervals s = [].
Proof.
  pose proof (reachable_Inv s Hreach) as [H1 H2 H3 H4 H5 H6].
  apply phase_Finished in Hfinished.
  destruct (H4 Hfinished) as (Hr & Hsec & Hidx).
  rewrite Hr in H2.
  destruct (intervalId s) as [h|] eqn:Hid; [discriminate|].
  assert (Hne : steps s <> []).
  { intro E. rewrite E in Hidx. discriminate. }
  repeat split; try assumption.
  cbn [run dispatch]. unfold skipStep.
  destruct (steps s) as [|step0 l] eqn:Hs; [contradiction|].
  cbn [List.length Nat.eqb]. rewrite goToNextStep_last
    by (rewrite Hs; cbn [List.length] in *; lia).
  f_equal. unfold stopTimer. rewrite Hid.
  destruct_state s. cbn in *. subst. reflexivity.
Qed.

Lemma C9_skip_finished_witness :
  steps sampleFinished <> []
  /\ run skip sampleFinished = Some sampleFinished
  /\ secondsRemaining sampleFinished = 0
  /\ isRunning sampleFinished = false
  /\ intervalId sampleFinished = None
  /\ intervals sampleFinished = [].
Proof.
  apply (C9_skip_finished sampleFinished sampleFinished_reachable).
  reflexivity.
Defined.

(* ================================================================== *)
(** * Properties of the progress query *)
(* ================================================================== *)

Lemma fold_count {X} (p : X -> bool) (l : list X) (acc : Z) :
  fold_left (fun c x => if p x then c + 1 else c) l acc
  = acc + Z.of_nat (List.length (filter p l)).
Proof.
  revert acc. induction l as [|x l IH]; intro acc; cbn [fold_left filter].
  - cbn. lia.
  - rewrite IH. destruct (p x); cbn [List.length]; lia.
Qed.

(** The loop of [getProgressForStep] counts what the specification counts. *)
Lemma exerciseCountLoop_exerciseCount cid l stepIndex :
  exerciseCountLoop cid l stepIndex = exerciseCount cid l stepIndex.
Proof.
  unfold exerciseCountLoop, exerciseCount.
  rewrite (fold_count
             (fun s => CircuitId_eqb (circuitId s) cid
                       && StepType_eqb (type s) exercise)).
  reflexivity.
Qed.

Lemma filter_firstn_length {X} (p : X -> bool) (l : list X) k :
  (List.length (filter p (firstn k l)) <= List.length (filter p l))%nat.
Proof.
  revert k. induction l as [|x l IH]; intro k.
  - now rewrite firstn_nil.
  - destruct k as [|k]; cbn [firstn filter]; [cbn; lia|].
    specialize (IH k). destruct (p x); cbn [List.length]; lia.
Qed.

Lemma filter_and {X} (p q : X -> bool) (l : list X) :
  filter (fun x => p x && q x) l = filter p (filter q l).
Proof.
  induction l as [|x l IH]; [reflexivity|].
  cbn [filter]. destruct (q x) eqn:Eq, (p x) eqn:Ep;
    cbn [filter andb]; rewrite ?Ep, ?IH; reflexivity.
Qed.

Lemma length_concat_repeat {X} (l : list X) n :
  List.length (concat (repeat l n)) = (n * List.length l)%nat.
Proof.
  induction n as [|n IH]; [reflexivity|].
  cbn [repeat concat]. rewrite length_app, IH. lia.
Qed.

Lemma filter_circuit_map cid cid' w exs :
  filter (fun s => CircuitId_eqb (circuitId s) cid)
    (map (expectedExerciseStep cid' w) exs)
  = if CircuitId_eqb cid' cid
    then map (expectedExerciseStep cid' w) exs else [].
Proof.
  induction exs as [|ex exs IH].
  - cbn. now destruct (CircuitId_eqb cid' cid).
  - cbn [map filter expectedExerciseStep circuitId]. rewrite IH.
    now destruct (CircuitId_eqb cid' cid).
Qed.

Lemma filter_circuit_expected cid cid' w c :
  filter (fun s => CircuitId_eqb (circuitId s) cid)
    (expectedExerciseSteps cid' w c)
  = if CircuitId_eqb cid' cid then expectedExerciseSteps cid' w c else [].
Proof.
  unfold expectedExerciseSteps.
  induction (Z.to_nat (repeats c)) as [|n IH].
  - cbn. now destruct (CircuitId_eqb cid' cid).
  - cbn [repeat concat]. rewrite filter_app, IH, filter_circuit_map.
    now destruct (CircuitId_eqb cid' cid).
Qed.

(** All the Exercise steps of one circuit in a built sequence. *)
Lemma buildSteps_circuit_exercises w cid :
  filter (fun s => CircuitId_eqb (circuitId s) cid && hasType exercise s)
    (buildSteps w)
  = match cid with
    | A => expectedExerciseSteps A w (circuitA w)
    | B => if enabled (circuitB w)
           then expectedExerciseSteps B w (circuitB w) else []
    end.
Proof.
  rewrite (filter_and (fun s => CircuitId_eqb (circuitId s) cid)
             (hasType exercise)).
  rewrite buildSteps_exercises, filter_app, filter_circuit_expected.
  destruct (enabled (circuitB w)).
  - rewrite filter_circuit_expected. destruct cid; cbn [CircuitId_eqb].
    + now rewrite app_nil_r.
    + reflexivity.
  - destruct cid; cbn [CircuitId_eqb filter]; [now rewrite app_nil_r|].
    reflexivity.
Qed.

Lemma length_expectedExerciseSteps cid w c :
  0 <= repeats c ->
  Z.of_nat (List.length (expectedExerciseSteps cid w c))
  = repeats c * Z.of_nat (List.length (exercises c)).
Proof.
  intro H. unfold expectedExerciseSteps.
  rewrite length_concat_repeat, length_map, Nat2Z.inj_mul, Z2Nat.id by lia.
  reflexivity.
Qed.

(** A step of circuit B is only built when circuit B is enabled. *)
Lemma buildSteps_B_enabled w step :
  In step (buildSteps w) -> circuitId step = B ->
  enabled (circuitB w) = true.
Proof.
  unfold buildSteps. intros Hin HB. apply in_app_or in Hin as [Hin|Hin].
  - pose proof (buildStepsForCircuit_own A w (exercises (circuitA w))
                  (repeats (circuitA w))) as HA.
    rewrite Forall_forall in HA. destruct (HA _ Hin). congruence.
  - destruct (enabled (circuitB w)); [reflexivity|contradiction].
Qed.

(** The round and the position [getProgressForStep] computes from a count. *)
Lemma round_and_position n N R :
  1 <= N -> 1 <= n <= R * N ->
  1 <= ceilDiv n N <= R
  /\ 1 <= Z.rem (n - 1) N + 1 <= N
  /\ (ceilDiv n N - 1) * N < n <= ceilDiv n N * N
  /\ Z.rem (n - 1) N + 1 = (n - 1) mod N + 1.
Proof.
  intros HN Hn. unfold ceilDiv.
  pose proof (Z.div_mod (- n) N ltac:(lia)) as Hdm.
  pose proof (Z.mod_pos_bound (- n) N ltac:(lia)) as Hmb.
  set (q := - n / N) in *.
  assert (Hc : (- q - 1) * N < n <= - q * N) by nia.
  rewrite Z.rem_mod_nonneg by lia.
  pose proof (Z.mod_pos_bound (n - 1) N ltac:(lia)).
  repeat split; try lia; nia.
Qed.

Lemma circuit_of_step w cid :
  (if CircuitId_eqb cid B then circuitB w else circuitA w) = circuitOf w cid.
Proof. now destruct cid. Qed.

(** In a sequence built from a valid workout, the circuit of every step has
    an exercise and a repetition, and a prefix of the sequence holds at most
    [repeats] times that many Exercise steps of the circuit. *)
Lemma exerciseCount_bound w stepIndex step :
  validWorkout w ->
  nth_error (buildSteps w) stepIndex = Some step ->
  let c := circuitOf w (circuitId step) in
  1 <= Z.of_nat (List.length (exercises c))
  /\ 1 <= repeats c
  /\ 0 <= exerciseCount (circuitId step) (buildSteps w) stepIndex
     <= repeats c * Z.of_nat (List.length (exercises c)).
Proof.
  intros (HexA & HrA & HB) Hn c.
  assert (Hc : exercises c <> [] /\ 1 <= repeats c).
  { subst c. destruct (circuitId step) eqn:Hcid; cbn [circuitOf]; [auto|].
    apply HB. eapply buildSteps_B_enabled; [|exact Hcid].
    eapply nth_error_In; eassumption. }
  destruct Hc as [Hex Hr].
  split; [destruct (exercises c); [contradiction|cbn [List.length]; lia]|].
  split; [exact Hr|].
  unfold exerciseCount. split; [lia|].
  rewrite <- (length_expectedExerciseSteps (circuitId step) w c) by lia.
  apply inj_le.
  etransitivity; [apply filter_firstn_length|].
  rewrite buildSteps_circuit_exercises. subst c.
  destruct (circuitId step) eqn:Hcid; cbn [circuitOf]; [lia|].
  rewrite (buildSteps_B_enabled w step); [lia| |exact Hcid].
  eapply nth_error_In; eassumption.
Qed.

(** C6. On the steps built from a valid workout, at every index inside the
    sequence, [getProgressForStep] returns a result for the circuit of the
    step, with that circuit's number of exercises (positive) and repeats, an
    exercise position between 1 and [exercisesPerRound] and a round between 1
    and [totalRounds].  With n the number of Exercise steps of the circuit up
    to and including the index: round and exercise are 1 when n is 0;
    otherwise round is the ceiling of n / exercisesPerRound and exercise is
    ((n - 1) mod exercisesPerRound) + 1.  For any steps, the result is
    unavailable when the index is outside the sequence or the circuit of the
    step has no exercise. *)
Theorem C6_progress :
  (forall w stepIndex,
     validWorkout w ->
     (stepIndex < List.length (buildSteps w))%nat ->
     exists step p,
       nth_error (buildSteps w) stepIndex = Some step
       /\ getProgressForStep (Some w) (buildSteps w) stepIndex = Some p
       /\ Progress.circuitId p = circuitId step
       /\ Progress.exercisesPerRound p
          = Z.of_nat (List.length (exercises (circuitOf w (circuitId step))))
       /\ Progress.totalRounds p = repeats (circuitOf w (circuitId step))
       /\ 0 < Progress.exercisesPerRound p
       /\ 1 <= Progress.exercise p <= Progress.exercisesPerRound p
       /\ 1 <= Progress.round p <= Progress.totalRounds p
       /\ (let n := exerciseCount (circuitId step) (buildSteps w) stepIndex in
           (n = 0 -> Progress.round p = 1 /\ Progress.exercise p = 1)
           /\ (0 < n ->
               (Progress.round p - 1) * Progress.exercisesPerRound p < n
               /\ n <= Progress.round p * Progress.exercisesPerRound p
               /\ Progress.exercise p
                  = (n - 1) mod Progress.exercisesPerRound p + 1)))
  /\ (forall workout l stepIndex,
        (List.length l <= stepIndex)%nat ->
        getProgressForStep workout l stepIndex = None)
  /\ (forall w l stepIndex step,
        nth_error l stepIndex = Some step ->
        exercises (circuitOf w (circuitId step)) = [] ->
        getProgressForStep (Some w) l stepIndex = None).
Proof.
  split; [|split].
  - intros w stepIndex Hv Hrange.
    destruct (nth_error (buildSteps w) stepIndex) as [step|] eqn:Hn;
      [|apply nth_error_None in Hn; lia].
    destruct (exerciseCount_bound w stepIndex step Hv Hn) as (HN & HR & Hc).
    unfold getProgressForStep. rewrite Hn. cbv zeta.
    rewrite circuit_of_step, exerciseCountLoop_exerciseCount.
    set (c := circuitOf w (circuitId step)) in *.
    set (N := Z.of_nat (List.length (exercises c))) in *.
    set (n := exerciseCount (circuitId step) (buildSteps w) stepIndex) in *.
    destruct (N <=? 0) eqn:HN0; [apply Z.leb_le in HN0; lia|].
    exists step. destruct (n =? 0) eqn:Hn0.
    + apply Z.eqb_eq in Hn0. eexists. split; [reflexivity|].
      split; [reflexivity|]. cbn.
      repeat split; try reflexivity; try lia.
    + apply Z.eqb_neq in Hn0. eexists. split; [reflexivity|].
      split; [reflexivity|]. cbn.
      destruct (round_and_position n N (repeats c) HN ltac:(lia))
        as (H1 & H2 & H3 & H4).
      repeat split; try reflexivity; try lia; try exact H4.
  - intros wo l stepIndex H. unfold getProgressForStep.
    apply nth_error_None in H. rewrite H. now destruct wo.
  - intros w l stepIndex step Hn Hex. unfold getProgressForStep.
    rewrite Hn. cbv zeta. rewrite circuit_of_step, Hex. reflexivity.
Qed.

Lemma C6_progress_witness :
  (exists step p,
     nth_error (buildSteps sampleTwoCircuits) 4%nat = Some step
     /\ getProgressForStep (Some sampleTwoCircuits)
          (buildSteps sampleTwoCircuits) 4%nat = Some p
     /\ Progress.circuitId p = circuitId step
     /\ Progress.exercisesPerRound p
        = Z.of_nat
            (List.length
               (exercises (circuitOf sampleTwoCircuits (circuitId step))))
     /\ Progress.totalRounds p
        = repeats (circuitOf sampleTwoCircuits (circuitId step))
     /\ 0 < Progress.exercisesPerRound p
     /\ 1 <= Progress.exercise p <= Progress.exercisesPerRound p
     /\ 1 <= Progress.round p <= Progress.totalRounds p
     /\ (let n :=
           exerciseCount (circuitId step) (buildSteps sampleTwoCircuits) 4%nat in
         (n = 0 -> Progress.round p = 1 /\ Progress.exercise p = 1)
         /\ (0 < n ->
             (Progress.round p - 1) * Progress.exercisesPerRound p < n
             /\ n <= Progress.round p * Progress.exercisesPerRound p
             /\ Progress.exercise p
                = (n - 1) mod Progress.exercisesPerRound p + 1)))
  /\ getProgressForStep (Some sampleTwoCircuits)
       (buildSteps sampleTwoCircuits) 9%nat = None
  /\ getProgressForStep
       (Some (mkWorkout 45 15 60 30 (mkCircuit false 1 [])
                (mkCircuit false 1 [])))
       (buildSteps sampleTwoCircuits) 0%nat = None.
Proof.
  split; [|split].
  - apply (proj1 C6_progress sampleTwoCircuits 4%nat).
    + repeat split; try discriminate; cbn; lia.
    + apply Nat.ltb_lt. reflexivity.
  - apply (proj1 (proj2 C6_progress)). apply Nat.leb_le. reflexivity.
  - eapply (proj2 (proj2 C6_progress)); reflexivity.
Defined.

(** The progress line of the second round of circuit A, and of the
    transition rest, in the two-circuit sample. *)
Example getProgressForStep_sample :
  getProgressForStep (Some sampleTwoCircuits) (buildSteps sampleTwoCircuits) 4%nat
  = Some (Progress.mk A 2 1 2 2)
  /\ getProgressForStep (Some sampleTwoCircuits)
       (buildSteps sampleTwoCircuits) 7%nat
     = Some (Progress.mk B 1 1 1 1).
Proof. split; reflexivity. Qed.

(* ================================================================== *)
(** * The first revision *)
(* ================================================================== *)

(** In the first revision the step between the two circuits is a circuit
    rest whose duration is [restBetweenCircuitsSeconds]. *)
Lemma Rev1_buildSteps_between w :
  Rev1.enabled (Rev1.circuitB w) = true ->
  0 < Rev1.restBetweenCircuitsSeconds w ->
  Rev1.buildSteps w
  = Rev1.buildStepsForCircuit A w
      (Rev1.exercises (Rev1.circuitA w)) (Rev1.repeats (Rev1.circuitA w))
    ++ Rev1.mkStep Rev1.circuit_rest (lit "Rest (before Circuit B)")
         (Rev1.restBetweenCircuitsSeconds w) B
       :: Rev1.buildStepsForCircuit B w
            (Rev1.exercises (Rev1.circuitB w))
            (Rev1.repeats (Rev1.circuitB w)).
Proof.
  intros He Hr. unfold Rev1.buildSteps. rewrite He.
  apply Z.ltb_lt in Hr. now rewrite Hr.
Qed.

(** In the first revision every work step lasts [workSeconds]. *)
Lemma Rev1_work_duration w step :
  In step (Rev1.buildSteps w) -> Rev1.type step = Rev1.work ->
  Rev1.durationSeconds step = Rev1.workSeconds w.
Proof.
  assert (Hex : forall cid len i todo,
             Forall (fun s => Rev1.type s = Rev1.work ->
                              Rev1.durationSeconds s = Rev1.workSeconds w)
               (Rev1.exerciseLoop cid w len i todo)).
  { intros cid len i todo. revert i.
    induction todo as [|ex todo IH]; intro i; [constructor|].
    cbn [Rev1.exerciseLoop]. constructor; [reflexivity|].
    apply Forall_app. split; [|apply IH].
    destruct (negb (i =? len - 1)
              && (0 <? Rev1.restBetweenExercisesSeconds w));
      repeat constructor; discriminate. }
  assert (Hrep : forall cid exs r left rep,
             Forall (fun s => Rev1.type s = Rev1.work ->
                              Rev1.durationSeconds s = Rev1.workSeconds w)
               (Rev1.repeatLoop cid w exs r left rep)).
  { intros cid exs r left. induction left as [|left IH]; intro rep;
      [constructor|].
    cbn [Rev1.repeatLoop]. rewrite !Forall_app. repeat split.
    - apply Hex.
    - destruct (negb (rep =? r) && (0 <? Rev1.restBetweenCircuitsSeconds w));
        repeat constructor; discriminate.
    - apply IH. }
  intros Hin. revert step Hin.
  apply (proj1 (Forall_forall
                  (fun s => Rev1.type s = Rev1.work ->
                            Rev1.durationSeconds s = Rev1.workSeconds w)
                  (Rev1.buildSteps w))).
  unfold Rev1.buildSteps, Rev1.buildStepsForCircuit.
  apply Forall_app. split; [apply Hrep|].
  destruct (Rev1.enabled (Rev1.circuitB w)); [|constructor].
  apply Forall_app. split; [|apply Hrep].
  destruct (0 <? Rev1.restBetweenCircuitsSeconds w);
    repeat constructor; discriminate.
Qed.

(* ================================================================== *)
(** * Further properties: reading the page *)
(* ================================================================== *)

Lemma trimStart_head s c s' :
  trimStart s = c :: s' -> isStrWhiteSpaceChar c = false.
Proof.
  induction s as [|x s IH]; [discriminate|].
  cbn [trimStart]. destruct (isStrWhiteSpaceChar x) eqn:Hx; [exact IH|].
  intros [= <- _]. exact Hx.
Qed.

Lemma trimStart_white s :
  forallb isStrWhiteSpaceChar s = true <-> trimStart s = [].
Proof.
  induction s as [|x s IH]; [now split|].
  cbn [forallb trimStart]. destruct (isStrWhiteSpaceChar x); cbn [andb].
  - exact IH.
  - split; discriminate.
Qed.

(** [trimEnd] cuts white space off the end only. *)
Lemma trimEnd_split s :
  exists ws, forallb isStrWhiteSpaceChar ws = true /\ s = trimEnd s ++ ws.
Proof.
  unfold trimEnd. destruct (trimStart_split (rev s)) as [ws [Hws Hs]].
  exists (rev ws). split.
  - rewrite forallb_forall in *. intros x Hx. apply Hws. now apply in_rev.
  - rewrite <- rev_app_distr, <- Hs. now rewrite rev_involutive.
Qed.

Lemma trimEnd_last s c s' :
  trimEnd s = s' ++ [c] -> isStrWhiteSpaceChar c = false.
Proof.
  unfold trimEnd. intro H. apply (f_equal (@rev N)) in H.
  rewrite rev_involutive, rev_app_distr in H. cbn in H.
  eapply trimStart_head. exact H.
Qed.

Lemma trim_trimmed s : trimmed (trim s).
Proof.
  unfold trim. split.
  - intros c s' H. destruct (trimEnd_split (trimStart s)) as [ws [_ Hs]].
    rewrite H in Hs. eapply trimStart_head. exact Hs.
  - intros c s' H. eapply trimEnd_last. exact H.
Qed.

(** [trim] gives the empty string on white space only. *)
Lemma trim_empty s :
  trim s = [] <-> forallb isStrWhiteSpaceChar s = true.
Proof.
  unfold trim. split.
  - intro H. destruct (trimEnd_split (trimStart s)) as [ws [Hws Hs]].
    rewrite H in Hs. cbn in Hs.
    destruct (trimStart s) as [|c r] eqn:Ht; [now apply trimStart_white|].
    apply trimStart_head in Ht. subst ws. cbn [forallb] in Hws.
    rewrite Ht in Hws. discriminate.
  - intro H. apply trimStart_white in H. rewrite H. reflexivity.
Qed.

(** A string of white space only parses as no integer. *)
Lemma parseInt_white s :
  forallb isStrWhiteSpaceChar s = true -> parseInt s = None.
Proof.
  intro H. unfold parseInt. apply trimStart_white in H. now rewrite H.
Qed.

Lemma getExercisesFromList_names rows :
  map name (getExercisesFromList rows)
  = map trim (filter (fun n => negb (isBlank n)) (map fst rows)).
Proof.
  induction rows as [|[nameRaw secondsRaw] rows IH]; [reflexivity|].
  cbn [getExercisesFromList map filter fst].
  destruct (trim nameRaw) as [|c cs] eqn:Ht.
  - apply trim_empty in Ht. unfold isBlank at 1. rewrite Ht. exact IH.
  - assert (Hb : isBlank nameRaw = false).
    { unfold isBlank. destruct (forallb isStrWhiteSpaceChar nameRaw) eqn:E;
        [|reflexivity].
      apply trim_empty in E. congruence. }
    rewrite Hb. cbn [negb map name]. now rewrite IH, Ht.
Qed.

(** X2. [getExercisesFromList] drops the rows whose name is blank and keeps
    the others in order, with the name trimmed: no name is empty or has white
    space at either end.  An override is at least 1, and a seconds field that
    is blank gives none. *)
Theorem X2_getExercisesFromList (rows : list (JSString * JSString)) :
  map name (getExercisesFromList rows)
  = map trim (filter (fun n => negb (isBlank n)) (map fst rows))
  /\ Forall (fun ex =>
               name ex <> [] /\ trimmed (name ex)
               /\ forall d, secondsOverride ex = Some d -> 1 <= d)
       (getExercisesFromList rows)
  /\ (forall nameRaw secondsRaw,
        isBlank nameRaw = false -> isBlank secondsRaw = true ->
        getExercisesFromList [(nameRaw, secondsRaw)]
        = [mkExercise (trim nameRaw) None]).
Proof.
  split; [apply getExercisesFromList_names|]. split.
  - induction rows as [|[nameRaw secondsRaw] rows IH]; [constructor|].
    cbn [getExercisesFromList].
    destruct (trim nameRaw) as [|c cs] eqn:Ht; [exact IH|].
    constructor; [|exact IH]. cbn [name secondsOverride].
    split; [discriminate|]. split; [rewrite <- Ht; apply trim_trimmed|].
    intro d. destruct (trim secondsRaw) as [|c' cs']; [discriminate|].
    destruct (parseInt secondsRaw) as [n|]; [|discriminate].
    destruct (0 <? n) eqn:Hn; [|discriminate].
    intros [= <-]. apply Z.ltb_lt in Hn. lia.
  - intros nameRaw secondsRaw Hn Hs. cbn [getExercisesFromList].
    destruct (trim nameRaw) as [|c cs] eqn:Ht.
    + apply trim_empty in Ht. unfold isBlank in Hn. congruence.
    + apply trim_empty in Hs. now rewrite Hs.
Qed.

Lemma X2_getExercisesFromList_witness :
  getExercisesFromList [(lit " Plank ", lit "  ")]
  = [mkExercise (trim (lit " Plank ")) None].
Proof.
  apply (proj2 (proj2 (X2_getExercisesFromList []))); reflexivity.
Defined.

(** X1. Whatever the inputs hold, the workout [getWorkoutFromInputs] returns
    has [workSeconds] and both [repeats] at least 1 and the three rest times
    at least 0; a field that parses as no integer gets its default (45, 15,
    60, 60, 2, 2), also when the transition input is missing from the page. *)
Theorem X1_getWorkoutFromInputs (inp : Inputs) :
  let w := getWorkoutFromInputs inp in
  let unparsable s := forall n, ~ ParsesAs s n in
  (1 <= workSeconds w /\ 0 <= restBetweenExercisesSeconds w
   /\ 0 <= restBetweenCircuitsSeconds w /\ 0 <= transitionRestSeconds w
   /\ 1 <= repeats (circuitA w) /\ 1 <= repeats (circuitB w))
  /\ (unparsable (workSecondsInput inp) -> workSeconds w = 45)
  /\ (unparsable (restBetweenExercisesInput inp) ->
      restBetweenExercisesSeconds w = 15)
  /\ (unparsable (restBetweenCircuitsInput inp) ->
      restBetweenCircuitsSeconds w = 60)
  /\ (transitionRestSecondsInput inp = None
      \/ (exists v, transitionRestSecondsInput inp = Some v /\ unparsable v) ->
      transitionRestSeconds w = 60)
  /\ (unparsable (circuitRepeatsInput inp) -> repeats (circuitA w) = 2)
  /\ (unparsable (circuitBRepeatsInput inp) -> repeats (circuitB w) = 2)
  /\ enabled (circuitB w) = toggleCircuitBPressed inp.
Proof.
  intros w unparsable.
  assert (Hfb : forall s min fb, unparsable s -> clampInt s min fb = fb).
  { intros s min fb H. unfold clampInt.
    destruct (parseInt s) as [n|] eqn:E; [|reflexivity].
    exfalso. exact (H n (parseInt_sound _ _ E)). }
  subst w. unfold getWorkoutFromInputs.
  cbn [workSeconds restBetweenExercisesSeconds restBetweenCircuitsSeconds
         transitionRestSeconds repeats circuitA circuitB enabled].
  split; [repeat split; apply clampInt_min; lia|].
  repeat split; try (intro H; now apply Hfb).
  intros [-> | [v [-> Hv]]]; [reflexivity|now apply Hfb].
Qed.

Lemma X1_getWorkoutFromInputs_witness :
  workSeconds
    (getWorkoutFromInputs
       (mkInputs (lit "abc") (lit "15") (lit "60") None (lit "1") (lit "2")
          false [] [])) = 45.
Proof.
  apply (proj1 (proj2 (X1_getWorkoutFromInputs
                         (mkInputs (lit "abc") (lit "15") (lit "60") None
                            (lit "1") (lit "2") false [] [])))).
  intros n H. apply parseInt_complete in H. discriminate H.
Defined.

(* ================================================================== *)
(** * Further properties: the step builder *)
(* ================================================================== *)

Lemma exerciseLoop_rest_durations cid w len i todo :
  Forall (fun s => type s <> exercise -> 1 <= durationSeconds s)
    (exerciseLoop cid w len i todo).
Proof.
  revert i. induction todo as [|ex todo IH]; intro i; [constructor|].
  cbn [exerciseLoop]. constructor; [intro H; now contradiction H|].
  apply Forall_app. split; [|apply IH].
  destruct (0 <? restBetweenExercisesSeconds w) eqn:Hr;
    [|rewrite andb_false_r; constructor].
  destruct (negb (i =? len - 1)); [|constructor].
  apply Z.ltb_lt in Hr. repeat constructor. cbn. lia.
Qed.

Lemma repeatLoop_rest_durations cid w exs r left rep :
  Forall (fun s => type s <> exercise -> 1 <= durationSeconds s)
    (repeatLoop cid w exs r left rep).
Proof.
  revert rep. induction left as [|left IH]; intro rep; [constructor|].
  cbn [repeatLoop]. rewrite !Forall_app. repeat split.
  - apply exerciseLoop_rest_durations.
  - destruct (0 <? restBetweenCircuitsSeconds w) eqn:Hr;
      [|rewrite andb_false_r; constructor].
    destruct (negb (rep =? r)); [|constructor].
    apply Z.ltb_lt in Hr. repeat constructor. cbn. lia.
  - apply IH.
Qed.

(** X4. No rest of any kind that [buildSteps] emits lasts less than a
    second, for any workout at all; and for a workout read from the page no
    step does, exercises included. *)
Theorem X4_no_empty_step :
  (forall w,
     Forall (fun s => type s <> exercise -> 1 <= durationSeconds s)
       (buildSteps w))
  /\ (forall inp,
        Forall (fun s => 1 <= durationSeconds s)
          (buildSteps (getWorkoutFromInputs inp))).
Proof.
  split.
  - intro w. unfold buildSteps, buildStepsForCircuit.
    apply Forall_app. split; [apply repeatLoop_rest_durations|].
    destruct (enabled (circuitB w)); [|constructor].
    apply Forall_app. split; [|apply repeatLoop_rest_durations].
    destruct (0 <? transitionRestSeconds w) eqn:Ht; [|constructor].
    apply Z.ltb_lt in Ht. repeat constructor. cbn. lia.
  - intro inp. apply buildSteps_durations, getWorkoutFromInputs_fromInputs.
Qed.

Lemma restsAreFollowed_app l1 l2 :
  restsAreFollowed l1 = true -> restsAreFollowed l2 = true ->
  restsAreFollowed (l1 ++ l2) = true.
Proof.
  intros H1 H2. induction l1 as [|s l1 IH]; [exact H2|].
  cbn [restsAreFollowed app] in *. apply andb_prop in H1 as [Hs Hl].
  rewrite (IH Hl), andb_true_r.
  destruct l1 as [|s' l1]; [|exact Hs].
  cbn in Hs. rewrite orb_false_r in Hs. now rewrite Hs.
Qed.

Lemma restsAreFollowed_rest r l :
  startsWithExercise l = true -> restsAreFollowed l = true ->
  restsAreFollowed (r :: l) = true.
Proof.
  intros H1 H2. cbn [restsAreFollowed]. now rewrite H1, H2, orb_true_r.
Qed.

Lemma exerciseLoop_shape cid w len i todo :
  todo <> [] -> i + Z.of_nat (List.length todo) = len ->
  startsWithExercise (exerciseLoop cid w len i todo) = true
  /\ restsAreFollowed (exerciseLoop cid w len i todo) = true.
Proof.
  revert i. induction todo as [|ex todo IH]; intros i Hne Hlen;
    [contradiction|].
  split; [reflexivity|].
  cbn [exerciseLoop restsAreFollowed]. unfold hasType at 1.
  cbn [type StepType_eqb orb andb].
  destruct todo as [|ex' todo].
  - cbn [exerciseLoop]. rewrite app_nil_r.
    destruct (negb (i =? len - 1) && _) eqn:E; [|reflexivity].
    apply andb_prop in E as [E _]. apply negb_true_iff, Z.eqb_neq in E.
    cbn [List.length] in Hlen. lia.
  - destruct (IH (i + 1)) as [Hs Hr];
      [discriminate | cbn [List.length] in *; lia|].
    destruct (negb (i =? len - 1) && _); cbn [app].
    + now apply restsAreFollowed_rest.
    + exact Hr.
Qed.

Lemma repeatLoop_shape cid w exs r left rep :
  exs <> [] -> rep + Z.of_nat left = r + 1 ->
  (left <> O ->
   startsWithExercise (repeatLoop cid w exs r left rep) = true)
  /\ restsAreFollowed (repeatLoop cid w exs r left rep) = true.
Proof.
  intro Hex. revert rep. induction left as [|left IH]; intros rep Hrep.
  - split; [intro H; now contradiction H|reflexivity].
  - destruct (exerciseLoop_shape cid w (Z.of_nat (List.length exs)) 0 exs
                Hex ltac:(lia)) as [Hs Hr].
    destruct (IH (rep + 1) ltac:(lia)) as [IHs IHr].
    cbn [repeatLoop]. split.
    + intros _.
      destruct (exerciseLoop cid w (Z.of_nat (List.length exs)) 0 exs);
        [discriminate Hs|exact Hs].
    + apply restsAreFollowed_app; [exact Hr|].
      destruct (negb (rep =? r) && _) eqn:E; cbn [app]; [|exact IHr].
      apply restsAreFollowed_rest; [|exact IHr].
      apply IHs. apply andb_prop in E as [E _].
      apply negb_true_iff, Z.eqb_neq in E. lia.
Qed.

Lemma buildStepsForCircuit_shape cid w c :
  exercises c <> [] -> 1 <= repeats c ->
  startsWithExercise
    (buildStepsForCircuit cid w (exercises c) (repeats c)) = true
  /\ restsAreFollowed
       (buildStepsForCircuit cid w (exercises c) (repeats c)) = true.
Proof.
  intros Hex Hr. unfold buildStepsForCircuit.
  destruct (repeatLoop_shape cid w (exercises c) (repeats c)
              (Z.to_nat (repeats c)) 1 Hex ltac:(lia)) as [Hs Hf].
  split; [apply Hs; lia|exact Hf].
Qed.

Lemma buildSteps_shape w :
  validWorkout w ->
  startsWithExercise (buildSteps w) = true
  /\ restsAreFollowed (buildSteps w) = true.
Proof.
  intros (HexA & HrA & HB). unfold buildSteps.
  destruct (buildStepsForCircuit_shape A w (circuitA w) HexA HrA)
    as [HsA HfA].
  split.
  - destruct (buildStepsForCircuit A w _ _); [discriminate HsA|exact HsA].
  - apply restsAreFollowed_app; [exact HfA|].
    destruct (enabled (circuitB w)); [|reflexivity].
    destruct (HB eq_refl) as [HexB HrB].
    destruct (buildStepsForCircuit_shape B w (circuitB w) HexB HrB)
      as [HsB HfB].
    destruct (0 <? transitionRestSeconds w); cbn [app]; [|exact HfB].
    now apply restsAreFollowed_rest.
Qed.

Lemma restsAreFollowed_nth l i s :
  restsAreFollowed l = true -> nth_error l i = Some s ->
  type s <> exercise ->
  exists next, nth_error l (S i) = Some next /\ type next = exercise.
Proof.
  revert i. induction l as [|x l IH]; intros i Hr Hn Ht;
    [destruct i; discriminate|].
  cbn [restsAreFollowed] in Hr. apply andb_prop in Hr as [Hx Hl].
  destruct i as [|i].
  - cbn in Hn. injection Hn as ->.
    assert (Hs : hasType exercise s = false).
    { unfold hasType. destruct (type s); try reflexivity.
      now contradiction Ht. }
    rewrite Hs in Hx. cbn [orb] in Hx.
    destruct l as [|next l]; [discriminate|]. exists next. split;
      [reflexivity|].
    cbn in Hx. unfold hasType in Hx.
    destruct (type next); try discriminate. reflexivity.
  - cbn [nth_error] in *. now apply IH.
Qed.

(** X5. The steps built from a valid workout start with an exercise, end
    with an exercise, and every rest (between exercises, between repetitions
    or between the circuits) is directly followed by an exercise: no two
    rests are adjacent. *)
Theorem X5_rests_between_exercises (w : Workout) (Hvalid : validWorkout w) :
  (exists first l, buildSteps w = first :: l /\ type first = exercise)
  /\ (exists l last, buildSteps w = l ++ [last] /\ type last = exercise)
  /\ (forall i step,
        nth_error (buildSteps w) i = Some step -> type step <> exercise ->
        exists next,
          nth_error (buildSteps w) (S i) = Some next
          /\ type next = exercise).
Proof.
  destruct (buildSteps_shape w Hvalid) as [Hs Hf].
  assert (Hnext : forall i step,
             nth_error (buildSteps w) i = Some step ->
             type step <> exercise ->
             exists next,
               nth_error (buildSteps w) (S i) = Some next
               /\ type next = exercise).
  { intros i step. now apply restsAreFollowed_nth. }
  split; [|split; [|exact Hnext]].
  - destruct (buildSteps w) as [|first l]; [discriminate|].
    exists first, l. split; [reflexivity|].
    cbn in Hs. unfold hasType in Hs. now destruct (type first).
  - destruct (buildSteps w) as [|first l] eqn:Hb; [discriminate|].
    destruct (exists_last (l := first :: l)) as (l' & last & Hl);
      [discriminate|].
    exists l', last. split; [exact Hl|].
    destruct (type last) eqn:Ht; [reflexivity| | |];
      (destruct (Hnext (List.length l') last) as (next & Hn & _);
       [rewrite Hl, nth_error_app2, Nat.sub_diag by lia; reflexivity
       |congruence
       |assert (Hlt : (S (List.length l') < List.length (first :: l))%nat)
          by (apply nth_error_Some; congruence);
        rewrite Hl, length_app in Hlt; cbn in Hlt; lia]).
Qed.

Lemma X5_rests_between_exercises_witness :
  (exists first l,
     buildSteps sampleTwoCircuits = first :: l /\ type first = exercise)
  /\ (exists l last,
        buildSteps sampleTwoCircuits = l ++ [last] /\ type last = exercise)
  /\ (forall i step,
        nth_error (buildSteps sampleTwoCircuits) i = Some step ->
        type step <> exercise ->
        exists next,
          nth_error (buildSteps sampleTwoCircuits) (S i) = Some next
          /\ type next = exercise).
Proof.
  apply (X5_rests_between_exercises sampleTwoCircuits).
  repeat split; try discriminate; cbn; lia.
Defined.

Lemma fold_durations l a :
  fold_left (fun acc step => acc + durationSeconds step) l a
  = a + sumDurations l.
Proof.
  unfold sumDurations. revert a.
  induction l as [|s l IH]; intro a; cbn [fold_left]; [lia|].
  rewrite IH, (IH (0 + durationSeconds s)). lia.
Qed.

Lemma sumDurations_cons s l :
  sumDurations (s :: l) = durationSeconds s + sumDurations l.
Proof. unfold sumDurations at 1. cbn [fold_left]. now rewrite fold_durations. Qed.

Lemma sumDurations_app l1 l2 :
  sumDurations (l1 ++ l2) = sumDurations l1 + sumDurations l2.
Proof.
  induction l1 as [|s l1 IH]; [reflexivity|].
  cbn [app]. rewrite !sumDurations_cons, IH. lia.
Qed.

Lemma exerciseLoop_seconds cid w len i todo :
  i + Z.of_nat (List.length todo) = len ->
  sumDurations (exerciseLoop cid w len i todo)
  = fold_right (fun ex acc => expectedDuration w ex + acc) 0 todo
    + (if 0 <? restBetweenExercisesSeconds w
       then Z.max 0 (Z.of_nat (List.length todo) - 1)
            * restBetweenExercisesSeconds w
       else 0).
Proof.
  revert i. induction todo as [|ex todo IH]; intros i Hlen.
  - cbn. now destruct (0 <? _).
  - cbn [exerciseLoop fold_right].
    rewrite sumDurations_cons, sumDurations_app.
    rewrite (IH (i + 1)) by (cbn [List.length] in Hlen; lia).
    cbn [durationSeconds List.length] in *. fold (expectedDuration w ex).
    rewrite Nat2Z.inj_succ in *. unfold Z.succ in *.
    set (n := Z.of_nat (List.length todo)) in *.
    assert (0 <= n) by (subst n; lia).
    destruct (0 <? restBetweenExercisesSeconds w) eqn:Hr;
      destruct (i =? len - 1) eqn:Hi; cbn [negb andb];
      rewrite ?sumDurations_cons; cbn [durationSeconds];
      change (sumDurations []) with 0.
    + apply Z.eqb_eq in Hi. rewrite !Z.max_l by lia. ring.
    + apply Z.eqb_neq in Hi. rewrite !Z.max_r by lia. ring.
    + ring.
    + ring.
Qed.

Lemma repeatLoop_seconds cid w exs r left rep :
  rep + Z.of_nat left = r + 1 ->
  sumDurations (repeatLoop cid w exs r left rep)
  = Z.of_nat left
    * (fold_right (fun ex acc => expectedDuration w ex + acc) 0 exs
       + (if 0 <? restBetweenExercisesSeconds w
          then Z.max 0 (Z.of_nat (List.length exs) - 1)
               * restBetweenExercisesSeconds w
          else 0))
    + (if 0 <? restBetweenCircuitsSeconds w
       then Z.max 0 (Z.of_nat left - 1) * restBetweenCircuitsSeconds w
       else 0).
Proof.
  revert rep. induction left as [|left IH]; intros rep Hrep.
  - cbn. now destruct (0 <? restBetweenCircuitsSeconds w).
  - cbn [repeatLoop]. rewrite !sumDurations_app.
    rewrite exerciseLoop_seconds by lia.
    rewrite (IH (rep + 1)) by lia.
    set (one := fold_right _ 0 exs + _).
    rewrite Nat2Z.inj_succ in *. unfold Z.succ in *.
    set (n := Z.of_nat left) in *.
    assert (0 <= n) by (subst n; lia).
    destruct (0 <? restBetweenCircuitsSeconds w) eqn:Hr;
      destruct (rep =? r) eqn:Hi; cbn [negb andb];
      rewrite ?sumDurations_cons; cbn [durationSeconds];
      change (sumDurations []) with 0.
    + apply Z.eqb_eq in Hi. rewrite !Z.max_l by lia.
      replace n with 0 by lia. ring.
    + apply Z.eqb_neq in Hi. rewrite !Z.max_r by lia. ring.
    + ring.
    + ring.
Qed.

Lemma buildStepsForCircuit_seconds cid w c :
  exercises c <> [] -> 1 <= repeats c ->
  sumDurations (buildStepsForCircuit cid w (exercises c) (repeats c))
  = circuitSeconds w c.
Proof.
  intros Hex Hr. unfold buildStepsForCircuit, circuitSeconds.
  rewrite repeatLoop_seconds by lia. rewrite Z2Nat.id by lia.
  assert (1 <= Z.of_nat (List.length (exercises c)))
    by (destruct (exercises c); [contradiction|cbn [List.length]; lia]).
  rewrite !Z.max_r by lia.
  destruct (0 <? restBetweenExercisesSeconds w),
           (0 <? restBetweenCircuitsSeconds w); ring.
Qed.

(** X6. The total [getTotalDurationSecondsForWorkout] shows for a valid
    workout read from the page, when it is at most [MAX_SAFE_INTEGER] (every
    duration is at least 1, so every partial sum of the program is exact
    then), is the time of circuit A, plus, when circuit B is enabled, the
    transition rest and the time of circuit B.  A circuit takes its
    repetitions times the durations of its exercises, plus a rest between
    consecutive exercises and between consecutive repetitions where those
    rests are positive. *)
Theorem X6_total_duration (w : Workout)
    (Hvalid : validWorkout w) (Hpage : fromInputs w)
    (Hsafe : getTotalDurationSecondsForWorkout w <= MAX_SAFE_INTEGER) :
  getTotalDurationSecondsForWorkout w
  = circuitSeconds w (circuitA w)
    + (if enabled (circuitB w)
       then (if 0 <? transitionRestSeconds w
             then transitionRestSeconds w else 0)
            + circuitSeconds w (circuitB w)
       else 0).
Proof.
  destruct Hvalid as (HexA & HrA & HB).
  unfold getTotalDurationSecondsForWorkout.
  change (fold_left _ (buildSteps w) 0) with (sumDurations (buildSteps w)).
  unfold buildSteps. rewrite sumDurations_app.
  rewrite (buildStepsForCircuit_seconds A w (circuitA w)) by assumption.
  destruct (enabled (circuitB w)); [|cbn; lia].
  destruct (HB eq_refl) as [HexB HrB].
  rewrite sumDurations_app.
  rewrite (buildStepsForCircuit_seconds B w (circuitB w)) by assumption.
  destruct (0 <? transitionRestSeconds w); cbn; lia.
Qed.

Lemma X6_total_duration_witness :
  getTotalDurationSecondsForWorkout sampleTwoCircuits
  = circuitSeconds sampleTwoCircuits (circuitA sampleTwoCircuits)
    + (30 + circuitSeconds sampleTwoCircuits (circuitB sampleTwoCircuits)).
Proof.
  apply (X6_total_duration sampleTwoCircuits).
  - repeat split; try discriminate; cbn; lia.
  - repeat split; try (cbn; lia).
    repeat constructor; cbn; intros d [= <-]; lia.
  - apply Z.leb_le. reflexivity.
Defined.

Lemma nextExerciseLoop_None l :
  nextExerciseLoop l = None <-> Forall (fun s => type s <> exercise) l.
Proof.
  induction l as [|s l IH]; [split; [constructor|reflexivity]|].
  cbn [nextExerciseLoop]. destruct (type s) eqn:Ht; cbn [StepType_eqb].
  - split; [discriminate|]. intro H. inversion H. congruence.
  - rewrite IH. split; [constructor; congruence|now inversion 1].
  - rewrite IH. split; [constructor; congruence|now inversion 1].
  - rewrite IH. split; [constructor; congruence|now inversion 1].
Qed.

Lemma nextExerciseLoop_Some l lbl :
  nextExerciseLoop l = Some lbl ->
  exists j s,
    nth_error l j = Some s /\ type s = exercise /\ label s = lbl
    /\ forall k s', (k < j)%nat -> nth_error l k = Some s' ->
                    type s' <> exercise.
Proof.
  induction l as [|x l IH]; [discriminate|].
  cbn [nextExerciseLoop].
  destruct (StepType_eqb (type x) exercise) eqn:Hx.
  - intros [= <-]. exists O, x. repeat split.
    + now destruct (type x).
    + intros k s' Hk. lia.
  - intro H. destruct (IH H) as (j & s & Hn & Ht & Hl & Hbefore).
    exists (S j), s. repeat split; try assumption.
    intros [|k] s' Hk Hs'.
    + cbn in Hs'. injection Hs' as <-. intro E. rewrite E in Hx.
      discriminate.
    + apply (Hbefore k); [lia|exact Hs'].
Qed.

Lemma skipn_nth_error {X} (l : list X) n x :
  nth_error l n = Some x -> skipn n l = x :: skipn (S n) l.
Proof.
  revert n. induction l as [|y l IH]; intros [|n] H; try discriminate.
  - cbn in H. now injection H as ->.
  - cbn [nth_error] in H. cbn [skipn]. now apply IH.
Qed.

(** X8. [getNextExerciseLabel(i)] is the label of the first Exercise step
    after index [i], and [null] exactly when no Exercise step follows.  On
    the steps built from a valid workout, at a rest of any kind it is the
    label of the very next step. *)
Theorem X8_getNextExerciseLabel (l : list Step) (i : nat) :
  (getNextExerciseLabel l i = None <->
   forall j s, (i < j)%nat -> nth_error l j = Some s -> type s <> exercise)
  /\ (forall lbl,
        getNextExerciseLabel l i = Some lbl ->
        exists j s,
          (i < j)%nat /\ nth_error l j = Some s /\ type s = exercise
          /\ label s = lbl
          /\ forall k s', (i < k < j)%nat -> nth_error l k = Some s' ->
                          type s' <> exercise)
  /\ (forall w step,
        validWorkout w -> l = buildSteps w ->
        nth_error l i = Some step -> type step <> exercise ->
        exists next,
          nth_error l (S i) = Some next
          /\ getNextExerciseLabel l i = Some (label next)).
Proof.
  unfold getNextExerciseLabel. split; [|split].
  - rewrite nextExerciseLoop_None, Forall_forall. split.
    + intros H j s Hj Hn. apply H.
      apply (nth_error_In _ (j - (i + 1))).
      rewrite nth_error_skipn. now replace (i + 1 + (j - (i + 1)))%nat with j
        by lia.
    + intros H s Hin. apply In_nth_error in Hin as [k Hk].
      rewrite nth_error_skipn in Hk. apply (H (i + 1 + k)%nat); [lia|exact Hk].
  - intros lbl H.
    destruct (nextExerciseLoop_Some _ _ H) as (j & s & Hn & Ht & Hl & Hb).
    rewrite nth_error_skipn in Hn.
    exists (i + 1 + j)%nat, s. repeat split; try assumption; try lia.
    intros k s' Hk Hs'. apply (Hb (k - (i + 1))%nat); [lia|].
    rewrite nth_error_skipn.
    now replace (i + 1 + (k - (i + 1)))%nat with k by lia.
  - intros w step Hv -> Hn Ht.
    destruct (buildSteps_shape w Hv) as [_ Hf].
    destruct (restsAreFollowed_nth _ _ _ Hf Hn Ht) as (next & Hnext & Hte).
    exists next. split; [exact Hnext|].
    replace (i + 1)%nat with (S i) by lia.
    rewrite (skipn_nth_error _ _ _ Hnext). cbn [nextExerciseLoop].
    now rewrite Hte.
Qed.

Lemma X8_getNextExerciseLabel_witness :
  exists next,
    nth_error (buildSteps sampleTwoCircuits) 8 = Some next
    /\ getNextExerciseLabel (buildSteps sampleTwoCircuits) 7
       = Some (label next).
Proof.
  apply (proj2 (proj2 (X8_getNextExerciseLabel
                         (buildSteps sampleTwoCircuits) 7))
           sampleTwoCircuits (theTransitionRest sampleTwoCircuits)).
  - repeat split; try discriminate; cbn; lia.
  - reflexivity.
  - reflexivity.
  - discriminate.
Defined.

(* ================================================================== *)
(** * Further properties: the time format *)
(* ================================================================== *)

Lemma decimalValue_app ds d :
  decimalValue (ds ++ [d]) = 10 * decimalValue ds + digitValue d.
Proof. unfold decimalValue. now rewrite fold_left_app. Qed.

Lemma decimalValue_zeros k ds :
  decimalValue (repeat 48%N k ++ ds) = decimalValue ds.
Proof.
  unfold decimalValue. rewrite fold_left_app.
  replace (fold_left _ (repeat 48%N k) 0) with 0; [reflexivity|].
  induction k as [|k IH]; [reflexivity|]. cbn [repeat fold_left].
  exact IH.
Qed.

Lemma digit_of_mod n :
  isDigit (Z.to_N (48 + n mod 10)) = true
  /\ digitValue (Z.to_N (48 + n mod 10)) = n mod 10.
Proof.
  pose proof (Z.mod_pos_bound n 10 ltac:(lia)) as H.
  unfold isDigit, digitValue. split.
  - apply andb_true_intro. split; apply N.leb_le; lia.
  - lia.
Qed.

(** [digitsLoop] writes the decimal numeral of [n] in front of [acc]. *)
Lemma digitsLoop_spec fuel :
  forall n acc,
    0 <= n < Z.of_nat fuel ->
    exists ds,
      digitsLoop fuel n acc = ds ++ acc /\ ds <> []
      /\ forallb isDigit ds = true /\ decimalValue ds = n
      /\ (n < 10 -> List.length ds = 1%nat)
      /\ (n < 100 -> (List.length ds <= 2)%nat).
Proof.
  induction fuel as [|fuel IH]; intros n acc Hn; [lia|].
  destruct (digit_of_mod n) as [Hd Hv].
  cbn [digitsLoop]. destruct (n <? 10) eqn:Hlt.
  - apply Z.ltb_lt in Hlt. exists [Z.to_N (48 + n mod 10)].
    repeat split; try discriminate.
    + cbn [forallb]. now rewrite Hd.
    + unfold decimalValue. cbn [fold_left]. rewrite Hv, Z.mod_small; lia.
    + intros _. cbn. lia.
  - apply Z.ltb_ge in Hlt.
    pose proof (Z.div_lt n 10 ltac:(lia) ltac:(lia)) as Hdiv.
    pose proof (Z.div_pos n 10 ltac:(lia) ltac:(lia)) as Hpos.
    destruct (IH (n / 10) (Z.to_N (48 + n mod 10) :: acc) ltac:(lia))
      as (ds & -> & Hne & Hall & Hval & Hone & Htwo).
    exists (ds ++ [Z.to_N (48 + n mod 10)]).
    rewrite <- app_assoc. repeat split.
    + destruct ds; discriminate.
    + rewrite forallb_app, Hall. cbn [forallb]. now rewrite Hd.
    + rewrite decimalValue_app, Hval, Hv. symmetry. apply Z.div_mod. lia.
    + intro. lia.
    + intro H100. rewrite length_app. cbn [List.length].
      rewrite Hone; [lia|].
      apply Z.div_lt_upper_bound; lia.
Qed.

Lemma NumberToString_spec n :
  0 <= n ->
  let ds := NumberToString n in
  ds <> [] /\ forallb isDigit ds = true /\ decimalValue ds = n
  /\ (n < 10 -> List.length ds = 1%nat)
  /\ (n < 100 -> (List.length ds <= 2)%nat).
Proof.
  intros Hn ds. subst ds. unfold NumberToString.
  destruct (n <? 0) eqn:E; [apply Z.ltb_lt in E; lia|].
  destruct (digitsLoop_spec (S (Z.to_nat n)) n [] ltac:(lia))
    as (ds & -> & H). rewrite app_nil_r. exact H.
Qed.

(** A numeral padded to two places: same value, at least two digits. *)
Lemma padStart_numeral n :
  0 <= n ->
  let ds := padStart 2 48 (NumberToString n) in
  forallb isDigit ds = true /\ decimalValue ds = n
  /\ (2 <= List.length ds)%nat
  /\ (n < 100 -> List.length ds = 2%nat).
Proof.
  intros Hn ds. subst ds. unfold padStart.
  destruct (NumberToString_spec n Hn) as (Hne & Hall & Hval & Hone & Htwo).
  set (s := NumberToString n) in *.
  assert (Hlen : (1 <= List.length s)%nat)
    by (destruct s; [contradiction|cbn; lia]).
  repeat split.
  - rewrite forallb_app, Hall, andb_true_r.
    apply forallb_forall. intros x Hx. apply repeat_spec in Hx. now subst x.
  - now rewrite decimalValue_zeros.
  - rewrite length_app, repeat_length. lia.
  - intro H. specialize (Htwo H). rewrite length_app, repeat_length. lia.
Qed.

Lemma parseInt_numeral ds rest :
  ds <> [] -> forallb isDigit ds = true -> startsWithDigit rest = false ->
  parseInt (ds ++ rest) = Some (decimalValue ds).
Proof.
  intros Hne Hall Hrest. rewrite decimalValue_valueOfDigits.
  replace (valueOfDigits ds) with (1 * valueOfDigits ds) by lia.
  apply parseInt_complete.
  apply (ParsesAs_intro [] [] 1 ds rest); try assumption;
    [reflexivity|constructor].
Qed.

(** X9. For a time of at most [MAX_SAFE_INTEGER] seconds, [formatTime]
    shows the minutes, a colon and the seconds of the time clamped at 0: both
    numerals are decimal digits, the seconds always have two places and the
    minutes at least two, and read back with [parseInt] they are the quotient
    and the remainder by 60, so the text determines the time.  Below 100
    minutes the text has exactly five code units. *)
Theorem X9_formatTime (totalSeconds : Z)
    (Hsafe : totalSeconds <= MAX_SAFE_INTEGER) :
  let s := Z.max 0 totalSeconds in
  exists mm ss,
    formatTime totalSeconds = mm ++ lit ":" ++ ss
    /\ forallb isDigit mm = true /\ forallb isDigit ss = true
    /\ (2 <= List.length mm)%nat /\ List.length ss = 2%nat
    /\ parseInt (formatTime totalSeconds) = Some (s / 60)
    /\ parseInt ss = Some (s mod 60)
    /\ 60 * decimalValue mm + decimalValue ss = s
    /\ (s < 6000 -> List.length (formatTime totalSeconds) = 5%nat).
Proof.
  intro s. unfold formatTime. fold s.
  assert (Hs : 0 <= s) by (subst s; lia).
  pose proof (Z.div_pos s 60 Hs ltac:(lia)) as Hq.
  pose proof (Z.mod_pos_bound s 60 ltac:(lia)) as Hr.
  rewrite Z.rem_mod_nonneg by lia.
  destruct (padStart_numeral (s / 60) Hq) as (Hm1 & Hm2 & Hm3 & Hm4).
  destruct (padStart_numeral (s mod 60) ltac:(lia))
    as (Hs1 & Hs2 & Hs3 & Hs4).
  set (mm := padStart 2 48 (NumberToString (s / 60))) in *.
  set (ss := padStart 2 48 (NumberToString (s mod 60))) in *.
  exists mm, ss. repeat split; try assumption.
  - apply Hs4. lia.
  - rewrite <- Hm2. apply parseInt_numeral; try assumption; [|reflexivity].
    destruct mm; [cbn in Hm3; lia|discriminate].
  - rewrite <- Hs2. rewrite <- (app_nil_r ss) at 1.
    apply parseInt_numeral; try assumption; [|reflexivity].
    destruct ss; [cbn in Hs3; lia|discriminate].
  - rewrite Hm2, Hs2. symmetry. apply Z.div_mod. lia.
  - intro H. rewrite !length_app, Hm4, Hs4; [reflexivity|lia|].
    apply Z.div_lt_upper_bound; lia.
Qed.

Lemma X9_formatTime_witness :
  exists mm ss,
    formatTime 65 = mm ++ lit ":" ++ ss
    /\ forallb isDigit mm = true /\ forallb isDigit ss = true
    /\ (2 <= List.length mm)%nat /\ List.length ss = 2%nat
    /\ parseInt (formatTime 65) = Some (65 / 60)
    /\ parseInt ss = Some (65 mod 60)
    /\ 60 * decimalValue mm + decimalValue ss = 65
    /\ List.length (formatTime 65) = 5%nat.
Proof.
  destruct (X9_formatTime 65) as (mm & ss & H1 & H2 & H3 & H4 & H5 & H6 & H7
                                  & H8 & H9);
    [apply Z.leb_le; reflexivity|].
  exists mm, ss.
  exact (conj H1 (conj H2 (conj H3 (conj H4 (conj H5 (conj H6 (conj H7
          (conj H8 (H9 eq_refl))))))))).
Defined.

(** 65 seconds read "01:05". *)
Example formatTime_65 : formatTime 65 = lit "01:05".
Proof. reflexivity. Qed.

(* ================================================================== *)
(** * Further properties: escaping and cues *)
(* ================================================================== *)

Lemma replaceAll_app c by_ s1 s2 :
  replaceAll c by_ (s1 ++ s2) = replaceAll c by_ s1 ++ replaceAll c by_ s2.
Proof. unfold replaceAll. apply flat_map_app. Qed.

Lemma escapeHtmlAttr_app s1 s2 :
  escapeHtmlAttr (s1 ++ s2) = escapeHtmlAttr s1 ++ escapeHtmlAttr s2.
Proof. unfold escapeHtmlAttr. now rewrite !replaceAll_app. Qed.

Lemma escapeHtmlAttr_unit c : escapeHtmlAttr [c] = escapeUnit c.
Proof.
  unfold escapeHtmlAttr, escapeUnit.
  destruct (c =? 38)%N eqn:E38.
  { apply N.eqb_eq in E38. subst c. reflexivity. }
  destruct (c =? 34)%N eqn:E34.
  { apply N.eqb_eq in E34. subst c. reflexivity. }
  destruct (c =? 60)%N eqn:E60.
  { apply N.eqb_eq in E60. subst c. reflexivity. }
  destruct (c =? 62)%N eqn:E62.
  { apply N.eqb_eq in E62. subst c. reflexivity. }
  unfold replaceAll. cbn [flat_map app].
  rewrite E38. cbn [flat_map app]. rewrite E34. cbn [flat_map app].
  rewrite E60. cbn [flat_map app]. now rewrite E62.
Qed.

Lemma escapeHtmlAttr_flat_map s : escapeHtmlAttr s = flat_map escapeUnit s.
Proof.
  induction s as [|c s IH]; [reflexivity|].
  change (c :: s) with ([c] ++ s).
  rewrite escapeHtmlAttr_app, escapeHtmlAttr_unit, IH. reflexivity.
Qed.

(** X19. [escapeHtmlAttr] replaces each ampersand, double quote, "<" and ">"
    by its entity and nothing else: the four passes do not escape each
    other's output, the result holds no double quote, "<" or ">", and a
    string without the four characters comes back as it is. *)
Theorem X19_escapeHtmlAttr (str : JSString) :
  escapeHtmlAttr str = flat_map escapeUnit str
  /\ Forall (fun c => c <> 34%N /\ c <> 60%N /\ c <> 62%N)
       (escapeHtmlAttr str)
  /\ (Forall (fun c => c <> 38%N /\ c <> 34%N /\ c <> 60%N /\ c <> 62%N) str ->
      escapeHtmlAttr str = str).
Proof.
  split; [apply escapeHtmlAttr_flat_map|].
  rewrite escapeHtmlAttr_flat_map. split.
  - induction str as [|c str IH]; [constructor|].
    cbn [flat_map]. apply Forall_app. split; [|exact IH].
    unfold escapeUnit.
    destruct (c =? 38)%N eqn:E38;
      [repeat constructor; discriminate|].
    destruct (c =? 34)%N eqn:E34;
      [repeat constructor; discriminate|].
    destruct (c =? 60)%N eqn:E60;
      [repeat constructor; discriminate|].
    destruct (c =? 62)%N eqn:E62;
      [repeat constructor; discriminate|].
    apply N.eqb_neq in E34, E60, E62. repeat constructor; assumption.
  - induction 1 as [|c str (H38 & H34 & H60 & H62) _ IH]; [reflexivity|].
    cbn [flat_map]. rewrite IH. unfold escapeUnit.
    apply N.eqb_neq in H38, H34, H60, H62.
    now rewrite H38, H34, H60, H62.
Qed.

Lemma X19_escapeHtmlAttr_witness :
  escapeHtmlAttr (lit "Side plank (L)") = lit "Side plank (L)".
Proof.
  apply (proj2 (proj2 (X19_escapeHtmlAttr (lit "Side plank (L)")))).
  repeat constructor; discriminate.
Defined.

(** A name with markup in it, escaped. *)
Example escapeHtmlAttr_sample :
  escapeHtmlAttr (lit "<b>R&D</b>") = lit "&lt;b&gt;R&amp;D&lt;/b&gt;".
Proof. reflexivity. Qed.

Lemma differs_nat_same i : differs_nat (Some i) i = false.
Proof. cbn. now rewrite Nat.eqb_refl. Qed.

Lemma differs_key_same i r : differs_key (Some (i, r)) (i, r) = false.
Proof. cbn. now rewrite Nat.eqb_refl, Z.eqb_refl. Qed.

Lemma tickCues_eq s step :
  nth_error (steps s) (currentStepIndex s) = Some step ->
  tickCues s
  = let s1 :=
      if halfCueDue s step
      then call cueHalf
             (set_lastHalfCueStepIndex (Some (currentStepIndex s)) s)
      else s in
    if finalCueDue s
    then call cueFinalTick
           (set_lastFinalCueKey
              (Some (currentStepIndex s, secondsRemaining s)) s1)
    else s1.
Proof.
  intro Hn. unfold tickCues, halfCueDue, finalCueDue. rewrite Hn.
  destruct (StepType_eqb (type step) exercise); cbn [andb];
    [destruct ((secondsRemaining s =? durationSeconds step / 2)
               && differs_nat (lastHalfCueStepIndex s) (currentStepIndex s))|];
    cbn;
    destruct ((secondsRemaining s <=? 3) && (1 <=? secondsRemaining s));
    cbn [andb];
    try destruct (differs_key (lastFinalCueKey s)
                    (currentStepIndex s, secondsRemaining s));
    reflexivity.
Qed.

(** X15. The cue block is one-shot: run again at the same step and second,
    it calls no helper and changes nothing.  What it adds to the log is at
    most one halfway cue, on an Exercise step whose time left is half its
    duration (rounded down), and at most one final countdown cue, with 1 to
    3 seconds left; it never speaks. *)
Theorem X15_cues_one_shot (s : State) :
  tickCues (tickCues s) = tickCues s
  /\ (exists new,
        calls (tickCues s) = new ++ calls s
        /\ (new = [] \/ new = [cueHalf] \/ new = [cueFinalTick]
            \/ new = [cueFinalTick; cueHalf])
        /\ (In cueHalf new ->
            exists step,
              nth_error (steps s) (currentStepIndex s) = Some step
              /\ type step = exercise
              /\ secondsRemaining s = durationSeconds step / 2)
        /\ (In cueFinalTick new -> 1 <= secondsRemaining s <= 3)).
Proof.
  destruct (nth_error (steps s) (currentStepIndex s)) as [step|] eqn:Hn.
  2:{ assert (E : tickCues s = s) by (unfold tickCues; now rewrite Hn).
      rewrite !E. split; [reflexivity|]. exists []. cbn. tauto. }
  assert (Hhalf : halfCueDue s step = true ->
                  type step = exercise
                  /\ secondsRemaining s = durationSeconds step / 2).
  { unfold halfCueDue. intro H. apply andb_prop in H as [H1 H2].
    apply andb_prop in H2 as [H2 _]. apply Z.eqb_eq in H2.
    split; [|exact H2]. now destruct (type step). }
  assert (Hfinal : finalCueDue s = true -> 1 <= secondsRemaining s <= 3).
  { unfold finalCueDue. intro H. apply andb_prop in H as [H _].
    apply andb_prop in H as [H1 H2].
    apply Z.leb_le in H1, H2. lia. }
  rewrite (tickCues_eq s step Hn). cbv zeta.
  destruct (halfCueDue s step) eqn:Hh; destruct (finalCueDue s) eqn:Hf.
  - split.
    + rewrite (tickCues_eq _ step) by exact Hn. cbv zeta.
      unfold halfCueDue, finalCueDue. cbn.
      now rewrite !Nat.eqb_refl, !Z.eqb_refl, !andb_false_r.
    + exists [cueFinalTick; cueHalf]. split; [reflexivity|]. split; [tauto|].
      split; intro Hin; cbn in Hin; try (exists step);
        intuition (try discriminate).
  - split.
    + rewrite (tickCues_eq _ step) by exact Hn. cbv zeta.
      unfold halfCueDue, finalCueDue in *. cbn.
      now rewrite !Nat.eqb_refl, !andb_false_r, Hf.
    + exists [cueHalf]. split; [reflexivity|]. split; [tauto|].
      split; intro Hin; cbn in Hin; try (exists step);
        intuition (try discriminate).
  - split.
    + rewrite (tickCues_eq _ step) by exact Hn. cbv zeta.
      unfold halfCueDue, finalCueDue in *. cbn.
      now rewrite Hh, !Nat.eqb_refl, !Z.eqb_refl, !andb_false_r.
    + exists [cueFinalTick]. split; [reflexivity|]. split; [tauto|].
      split; intro Hin; cbn in Hin; try (exists step);
        intuition (try discriminate).
  - split.
    + rewrite (tickCues_eq _ step) by exact Hn. cbv zeta. now rewrite Hh, Hf.
    + exists []. split; [reflexivity|]. split; [tauto|].
      split; intro Hin; cbn in Hin; try (exists step);
        intuition (try discriminate).
Qed.

Lemma X15_cues_one_shot_witness :
  tickCues (tickCues sampleRunning) = tickCues sampleRunning.
Proof. apply (proj1 (X15_cues_one_shot sampleRunning)). Defined.

(* ================================================================== *)
(** * Further properties: the run controller *)
(* ================================================================== *)

(** Without a previous step [setStep] only moves the index and loads the
    duration. *)
Lemma setStep_first index s step :
  nth_error (steps s) index = Some step ->
  setStep index None s
  = Some (set_secondsRemaining (durationSeconds step)
            (set_currentStepIndex index s)).
Proof.
  intro Hn. unfold setStep. cbn. rewrite Hn.
  now rewrite andb_false_r.
Qed.

Lemma resetWorkout_eq s step0 :
  nth_error (steps s) 0 = Some step0 ->
  resetWorkout s
  = Some (set_isFinished false
            (set_hasStarted false
               (set_secondsRemaining (durationSeconds step0)
                  (set_currentStepIndex 0
                     (set_lastSpokenRestStepIndex None
                        (set_lastFinalCueKey None
                           (set_lastHalfCueStepIndex None
                              (stopTimer s)))))))).
Proof.
  intro Hn. unfold resetWorkout. cbv zeta.
  assert (Es : steps (stopTimer s) = steps s)
    by (rewrite stopTimer_eq; reflexivity).
  rewrite Es.
  destruct (0 <? List.length (steps s))%nat eqn:E.
  - rewrite (setStep_first 0 _ step0); [reflexivity|].
    cbn [steps set_lastSpokenRestStepIndex set_lastFinalCueKey
           set_lastHalfCueStepIndex]. now rewrite Es.
  - apply Nat.ltb_ge in E. destruct (steps s); [discriminate|cbn in E; lia].
Qed.

(** [startBtn_click] either rejects the page and changes nothing, or sets
    up the steps of the workout it read, not started, with no interval. *)
Lemma startBtn_click_cases inp s :
  startBtn_click inp s = Some s
  \/ exists step0 l,
       buildSteps (getWorkoutFromInputs inp) = step0 :: l
       /\ startBtn_click inp s
          = Some (stopTimer
                    (set_secondsRemaining (durationSeconds step0)
                       (set_currentStepIndex 0
                          (set_lastSpokenRestStepIndex None
                             (set_lastFinalCueKey None
                                (set_lastHalfCueStepIndex None
                                   (set_isFinished false
                                      (set_hasStarted false
                                         (set_steps
                                            (buildSteps
                                               (getWorkoutFromInputs inp))
                                            (set_workout
                                               (Some
                                                  (getWorkoutFromInputs inp))
                                               s)))))))))).
Proof.
  unfold startBtn_click. cbv zeta.
  set (w := getWorkoutFromInputs inp).
  destruct (exercises (circuitA w)) as [|ex exs] eqn:HexA;
    cbn [List.length Nat.eqb]; [now left|].
  destruct (enabled (circuitB w)
            && (List.length (exercises (circuitB w)) =? 0)%nat);
    [now left|].
  right.
  pose proof (getWorkoutFromInputs_fromInputs inp) as (_ & HrA & _).
  fold w in HrA.
  assert (Hne : buildSteps w <> [])
    by (apply buildSteps_nonempty; [rewrite HexA; discriminate|exact HrA]).
  destruct (buildSteps w) as [|step0 l] eqn:Hb; [contradiction|].
  exists step0, l. split; [reflexivity|].
  rewrite (setStep_first 0 _ step0) by reflexivity. reflexivity.
Qed.

Lemma goToNextStep_Inv2 b s s' :
  Forall (fun step => 1 <= durationSeconds step) (steps s) ->
  goToNextStep b s = Some s' -> Inv2 s'.
Proof.
  intros Hd Hgo.
  destruct (nth_error (steps s) (currentStepIndex s + 1)) as [step|] eqn:Hn.
  - destruct (goToNextStep_next b s step Hn)
      as (s1 & E & H1 & H2 & H3 & H4 & H5 & H6 & H7 & H8 & H9).
    rewrite E in Hgo. injection Hgo as <-. constructor.
    + rewrite H6, H7. intros ->. apply orb_true_r.
    + intros step'. rewrite H1, H3, H4, Hn. intros [= <-]. lia.
  - apply nth_error_None in Hn. rewrite goToNextStep_last in Hgo by exact Hn.
    injection Hgo as <-. rewrite stopTimer_eq. constructor; cbn.
    + discriminate.
    + intros step Hs. pose proof (nth_error_duration _ _ _ Hd Hs). lia.
Qed.

Lemma dispatch_Inv2 e s s' :
  Inv s -> Inv2 s -> occurs e s -> dispatch e s = Some s' -> Inv2 s'.
Proof.
  intros HI [Hst Hw] Ho Hd. destruct e; cbn [dispatch] in Hd.
  - destruct (startBtn_click_cases inp s) as [E | (step0 & l & Hb & E)];
      rewrite E in Hd; injection Hd as <-; [now constructor|].
    rewrite stopTimer_eq. constructor; cbn; [discriminate|].
    rewrite Hb. cbn. intros step [= <-]. lia.
  - injection Hd as <-. unfold startTimer.
    destruct (isRunning s || _ || isFinished s); [now constructor|].
    constructor; cbn; [reflexivity|exact Hw].
  - injection Hd as <-. rewrite stopTimer_eq.
    constructor; cbn; [discriminate|exact Hw].
  - injection Hd as <-. unfold startTimer.
    destruct (isRunning s || _ || isFinished s); [now constructor|].
    constructor; cbn; [reflexivity|exact Hw].
  - unfold skipStep in Hd.
    destruct (List.length (steps s) =? 0)%nat;
      [injection Hd as <-; now constructor|].
    eapply goToNextStep_Inv2; [apply HI|exact Hd].
  - destruct (nth_error (steps s) 0) as [step0|] eqn:Hn.
    + rewrite (resetWorkout_eq s step0 Hn) in Hd. injection Hd as <-.
      rewrite stopTimer_eq. constructor; cbn; [discriminate|].
      cbn in Hn. rewrite Hn. intros step [= <-]. lia.
    + apply nth_error_None in Hn.
      unfold resetWorkout in Hd. cbv zeta in Hd.
      assert (Es : steps (stopTimer s) = steps s)
        by (rewrite stopTimer_eq; reflexivity).
      rewrite Es in Hd.
      destruct (0 <? List.length (steps s))%nat eqn:E;
        [apply Nat.ltb_lt in E; lia|].
      injection Hd as <-. rewrite stopTimer_eq.
      constructor; cbn; [discriminate|exact Hw].
  - injection Hd as <-. rewrite stopTimer_eq.
    constructor; cbn; [discriminate|exact Hw].
  - unfold intervalCallback in Hd. cbv zeta in Hd.
    set (s1 := set_secondsRemaining (secondsRemaining s - 1) s) in *.
    destruct (tickCues_frame s1)
      as (F1 & F2 & F3 & F4 & F5 & F6 & F7 & F8 & F9 & F10 & F11).
    subst s1. cbn in F1, F2, F3, F4, F5, F6, F7, F8, F9, F10, F11.
    destruct (secondsRemaining (tickCues _) <=? 0).
    + eapply goToNextStep_Inv2; [|exact Hd]. rewrite F1. apply HI.
    + injection Hd as <-. constructor.
      * rewrite F6, F7. exact Hst.
      * intros step. rewrite F1, F3, F4. intro Hs.
        specialize (Hw step Hs). lia.
Qed.

Lemma Inv2_initialState h0 : Inv2 (initialState h0).
Proof. constructor; cbn; [discriminate|intros step H; discriminate]. Qed.

Lemma reachable_Inv2 s : reachable s -> Inv2 s.
Proof.
  induction 1 as [h0 | s e s' Hr IH Ho Hd]; [apply Inv2_initialState|].
  eapply dispatch_Inv2; eauto using reachable_Inv.
Qed.

Lemma reachable_not_finished_running s :
  reachable s -> isRunning s = true -> isFinished s = false.
Proof.
  intros Hr Hrun. destruct (isFinished s) eqn:Hf; [|reflexivity].
  destruct (Inv_finished s (reachable_Inv s Hr) Hf) as [H _]. congruence.
Qed.

(** X10. No listener throws: from every state the page can be in, every
    click, and every firing of a registered interval, runs to its end, and
    leaves the index inside the steps when there are any. *)
Theorem X10_no_listener_throws (s : State) (e : Event)
    (Hreach : reachable s) (Hoccurs : occurs e s) :
  exists s',
    dispatch e s = Some s' /\ reachable s'
    /\ (steps s' <> [] ->
        (currentStepIndex s' < List.length (steps s'))%nat).
Proof.
  destruct (dispatch_Inv e s (reachable_Inv s Hreach) Hoccurs)
    as (s' & Hd & HI).
  exists s'. split; [exact Hd|]. split.
  - eapply reachable_step; eassumption.
  - now apply Inv_nonempty_index.
Qed.

Lemma X10_no_listener_throws_witness :
  exists s',
    dispatch (intervalFired 1) sampleRunning = Some s' /\ reachable s'
    /\ (steps s' <> [] ->
        (currentStepIndex s' < List.length (steps s'))%nat).
Proof.
  apply (X10_no_listener_throws sampleRunning (intervalFired 1)
           sampleRunning_reachable).
  left. reflexivity.
Defined.

(** X11. At most one interval is registered at any time, it is the one
    whose handle [intervalId] holds, and one is registered exactly in the
    Running phase: no tick can come in another phase. *)
Theorem X11_single_interval (s : State) (Hreach : reachable s) :
  (List.length (intervals s) <= 1)%nat
  /\ (forall h, In h (intervals s) <-> intervalId s = Some h)
  /\ (intervals s <> [] <-> phase s = Running)
  /\ (forall h, occurs (intervalFired h) s -> phase s = Running).
Proof.
  pose proof (reachable_Inv s Hreach) as HI.
  pose proof (Inv_intervals s HI) as H1.
  pose proof (Inv_isRunning s HI) as H2.
  assert (H3 : intervals s <> [] <-> phase s = Running).
  { unfold phase. split.
    - intro Hne.
      assert (Hr : isRunning s = true)
        by (rewrite H2; destruct (intervalId s); [reflexivity|];
            now contradiction Hne).
      now rewrite (reachable_not_finished_running s Hreach Hr), Hr.
    - intro Hp. apply phase_Running in Hp as [_ Hr].
      rewrite H1. rewrite Hr in H2.
      destruct (intervalId s); discriminate. }
  repeat split.
  - rewrite H1. destruct (intervalId s); cbn; lia.
  - rewrite H1. destruct (intervalId s) as [h'|]; [|contradiction].
    intros [->|[]]. reflexivity.
  - intro E. rewrite H1, E. now left.
  - apply H3.
  - apply H3.
  - intros h Ho. apply H3. cbn in Ho. intro E. rewrite E in Ho.
    contradiction.
Qed.

Lemma X11_single_interval_witness :
  (List.length (intervals sampleRunning) <= 1)%nat
  /\ (forall h, In h (intervals sampleRunning)
                <-> intervalId sampleRunning = Some h)
  /\ (intervals sampleRunning <> [] <-> phase sampleRunning = Running)
  /\ (forall h, occurs (intervalFired h) sampleRunning ->
                phase sampleRunning = Running).
Proof. apply (X11_single_interval sampleRunning sampleRunning_reachable). Defined.

Lemma remainingSeconds_eq s :
  remainingSeconds s
  = sumDurations (skipn (currentStepIndex s + 1) (steps s))
    + secondsRemaining s.
Proof. reflexivity. Qed.

Lemma sumDurations_nonneg l :
  Forall (fun step => 1 <= durationSeconds step) l -> 0 <= sumDurations l.
Proof.
  induction 1 as [|s l Hs _ IH]; [reflexivity|].
  rewrite sumDurations_cons. lia.
Qed.

Lemma Forall_skipn {X} (P : X -> Prop) n l :
  Forall P l -> Forall P (skipn n l).
Proof.
  intro H. rewrite <- (firstn_skipn n l) in H.
  now apply Forall_app in H as [_ H].
Qed.

(** X12. [reset] from any state with steps, of at most [MAX_SAFE_INTEGER]
    seconds in all, returns to the first step, not started: its whole
    duration is left, no interval is registered, the cue trackers are
    cleared, the steps and the log are kept, and the whole workout is left
    to do. *)
Theorem X12_reset (s : State)
    (Hreach : reachable s) (Hnonempty : steps s <> [])
    (Hsafe : totalSeconds s <= MAX_SAFE_INTEGER) :
  exists s' step0,
    run reset s = Some s'
    /\ nth_error (steps s) 0 = Some step0
    /\ steps s' = steps s /\ workout s' = workout s
    /\ phase s' = NotStarted
    /\ currentStepIndex s' = 0%nat
    /\ secondsRemaining s' = durationSeconds step0
    /\ intervalId s' = None /\ intervals s' = []
    /\ lastHalfCueStepIndex s' = None /\ lastFinalCueKey s' = None
    /\ lastSpokenRestStepIndex s' = None
    /\ calls s' = calls s
    /\ remainingSeconds s' = totalSeconds s'.
Proof.
  destruct (steps s) as [|step0 l] eqn:Hs; [contradiction|].
  assert (Hn : nth_error (steps s) 0 = Some step0) by now rewrite Hs.
  cbn [run dispatch]. rewrite (resetWorkout_eq s step0 Hn).
  pose proof (stopTimer_intervals s
                (Inv_intervals s (reachable_Inv s Hreach))) as Hiv.
  rewrite stopTimer_eq in Hiv |- *. cbn in Hiv.
  eexists. exists step0. split; [reflexivity|].
  unfold remainingSeconds, totalSeconds, phase. cbn.
  rewrite Hs. cbn [skipn fold_left].
  repeat split; try assumption.
  rewrite !fold_durations. lia.
Qed.

Lemma X12_reset_witness :
  exists s' step0,
    run reset sampleFinished = Some s'
    /\ nth_error (steps sampleFinished) 0 = Some step0
    /\ steps s' = steps sampleFinished
    /\ workout s' = workout sampleFinished
    /\ phase s' = NotStarted
    /\ currentStepIndex s' = 0%nat
    /\ secondsRemaining s' = durationSeconds step0
    /\ intervalId s' = None /\ intervals s' = []
    /\ lastHalfCueStepIndex s' = None /\ lastFinalCueKey s' = None
    /\ lastSpokenRestStepIndex s' = None
    /\ calls s' = calls sampleFinished
    /\ remainingSeconds s' = totalSeconds s'.
Proof.
  apply (X12_reset sampleFinished sampleFinished_reachable);
    [discriminate | apply Z.leb_le; reflexivity].
Defined.

(** X13. [skip] before the last step moves to the next step with its whole
    duration and keeps the phase: a running timer goes on, on a fresh
    interval, and a timer that is not running is not started. *)
Theorem X13_skip_keeps_phase (s : State)
    (Hreach : reachable s)
    (Hbefore : (currentStepIndex s + 1 < List.length (steps s))%nat) :
  exists s' step,
    run skip s = Some s'
    /\ nth_error (steps s) (currentStepIndex s + 1) = Some step
    /\ steps s' = steps s
    /\ currentStepIndex s' = (currentStepIndex s + 1)%nat
    /\ secondsRemaining s' = durationSeconds step
    /\ phase s' = phase s
    /\ intervals s' = (if isRunning s then [nextHandle s] else []).
Proof.
  pose proof (reachable_Inv s Hreach) as HI.
  destruct (nth_error (steps s) (currentStepIndex s + 1)) as [step|] eqn:Hn;
    [|apply nth_error_None in Hn; lia].
  cbn [run dispatch]. unfold skipStep.
  destruct (List.length (steps s) =? 0)%nat eqn:E;
    [apply Nat.eqb_eq in E; lia|].
  destruct (goToNextStep_next (isRunning s) s step Hn)
    as (s' & -> & H1 & H2 & H3 & H4 & H5 & H6 & H7 & H8 & H9).
  exists s', step. split; [reflexivity|].
  rewrite (stopTimer_intervals s (Inv_intervals s HI)), app_nil_r in H9.
  repeat split; try assumption.
  unfold phase. rewrite H5, H6, H7.
  assert (Hf : isFinished s = false).
  { destruct (isFinished s) eqn:Hf; [|reflexivity].
    destruct (Inv_finished s HI Hf) as (_ & _ & Hl). lia. }
  rewrite Hf. destruct (isRunning s); [reflexivity|].
  now rewrite orb_false_r.
Qed.

Lemma sampleReady2_reachable : reachable sampleReady2.
Proof.
  apply (reachable_step (initialState 1) (startBtn sampleInputs2)
           sampleReady2);
    [apply reachable_init | exact I | vm_compute; reflexivity].
Qed.

Lemma sampleRunning2_reachable : reachable sampleRunning2.
Proof.
  apply (reachable_step sampleReady2 runStartBtn sampleRunning2);
    [apply sampleReady2_reachable | exact I | vm_compute; reflexivity].
Qed.

Lemma X13_skip_keeps_phase_witness :
  exists s' step,
    run skip sampleRunning2 = Some s'
    /\ nth_error (steps sampleRunning2)
         (currentStepIndex sampleRunning2 + 1) = Some step
    /\ steps s' = steps sampleRunning2
    /\ currentStepIndex s' = (currentStepIndex sampleRunning2 + 1)%nat
    /\ secondsRemaining s' = durationSeconds step
    /\ phase s' = phase sampleRunning2
    /\ intervals s'
       = (if isRunning sampleRunning2 then [nextHandle sampleRunning2]
          else []).
Proof.
  apply (X13_skip_keeps_phase sampleRunning2 sampleRunning2_reachable).
  apply Nat.ltb_lt. reflexivity.
Defined.

(** X14. [pause] in the Running phase leads to Paused with the time left and
    the step untouched and no interval registered; [resume] from there leads
    back to Running, still with the same time left and step, on one fresh
    interval, and nothing is added to the log. *)
Theorem X14_pause_resume (s : State)
    (Hreach : reachable s) (Hrunning : phase s = Running) :
  exists s1 s2,
    run pause s = Some s1
    /\ phase s1 = Paused /\ intervals s1 = []
    /\ secondsRemaining s1 = secondsRemaining s
    /\ currentStepIndex s1 = currentStepIndex s
    /\ run resume s1 = Some s2
    /\ phase s2 = Running /\ intervals s2 = [nextHandle s]
    /\ secondsRemaining s2 = secondsRemaining s
    /\ currentStepIndex s2 = currentStepIndex s
    /\ steps s2 = steps s /\ calls s2 = calls s.
Proof.
  pose proof (reachable_Inv s Hreach) as HI.
  pose proof (reachable_Inv2 s Hreach) as HI2.
  destruct (phase_Running s Hrunning) as [Hf Hr].
  pose proof (Inv2_started s HI2 Hr) as Hst.
  pose proof (Inv_running_nonempty s HI Hr) as Hne.
  pose proof (stopTimer_intervals s (Inv_intervals s HI)) as Hiv.
  exists (stopTimer s), (startTimer (stopTimer s)). cbn [run dispatch].
  rewrite (startTimer_idle (stopTimer s));
    [ | rewrite stopTimer_eq; reflexivity
      | rewrite stopTimer_eq; exact Hne
      | rewrite stopTimer_eq; exact Hf ].
  rewrite stopTimer_eq in Hiv |- *. cbn in Hiv.
  unfold phase. cbn. rewrite Hf, Hst, !Hiv.
  repeat split.
Qed.

Lemma X14_pause_resume_witness :
  exists s1 s2,
    run pause sampleRunning = Some s1
    /\ phase s1 = Paused /\ intervals s1 = []
    /\ secondsRemaining s1 = secondsRemaining sampleRunning
    /\ currentStepIndex s1 = currentStepIndex sampleRunning
    /\ run resume s1 = Some s2
    /\ phase s2 = Running /\ intervals s2 = [nextHandle sampleRunning]
    /\ secondsRemaining s2 = secondsRemaining sampleRunning
    /\ currentStepIndex s2 = currentStepIndex sampleRunning
    /\ steps s2 = steps sampleRunning /\ calls s2 = calls sampleRunning.
Proof.
  apply (X14_pause_resume sampleRunning sampleRunning_reachable).
  reflexivity.
Defined.

(** X20. [start] in the NotStarted or the Paused phase of a run with steps
    leads to Running on one interval and changes neither the time left nor
    the step; in the Finished phase, or without steps, it changes nothing
    at all. *)
Theorem X20_start (s : State) (Hreach : reachable s) :
  (steps s <> [] -> phase s = NotStarted \/ phase s = Paused ->
   exists s',
     run start s = Some s'
     /\ phase s' = Running /\ intervals s' = [nextHandle s]
     /\ secondsRemaining s' = secondsRemaining s
     /\ currentStepIndex s' = currentStepIndex s
     /\ steps s' = steps s /\ calls s' = calls s)
  /\ (steps s = [] \/ phase s = Finished -> run start s = Some s).
Proof.
  pose proof (reachable_Inv s Hreach) as HI. split.
  - intros Hne Hp.
    assert (Hfr : isFinished s = false /\ isRunning s = false).
    { unfold phase in Hp.
      destruct (isFinished s), (isRunning s), (hasStarted s);
        destruct Hp; try discriminate; auto. }
    destruct Hfr as [Hf Hr]. cbn [run dispatch].
    rewrite startTimer_idle by assumption.
    eexists. split; [reflexivity|]. unfold phase. cbn. rewrite Hf.
    repeat split.
    rewrite (Inv_intervals s HI). pose proof (Inv_isRunning s HI) as H2.
    rewrite Hr in H2. destruct (intervalId s); [discriminate|reflexivity].
  - intros H. cbn [run dispatch]. rewrite startTimer_noop; [reflexivity|].
    destruct H as [H|H]; [auto|]. apply phase_Finished in H. auto.
Qed.

Lemma X20_start_witness :
  (exists s',
     run start sampleReady = Some s'
     /\ phase s' = Running /\ intervals s' = [nextHandle sampleReady]
     /\ secondsRemaining s' = secondsRemaining sampleReady
     /\ currentStepIndex s' = currentStepIndex sampleReady
     /\ steps s' = steps sampleReady /\ calls s' = calls sampleReady)
  /\ run start sampleFinished = Some sampleFinished.
Proof.
  split.
  - apply (proj1 (X20_start sampleReady sampleReady_reachable));
      [discriminate|left; reflexivity].
  - apply (proj2 (X20_start sampleFinished sampleFinished_reachable)).
    right. reflexivity.
Defined.

(** X18. The buttons [updateRunControls] shows follow the phase: Start alone
    before the run has started, Pause alone while it runs, Resume alone while
    it is paused, none of the three once it is finished or when there are no
    steps. *)
Theorem X18_run_controls (s : State) (Hreach : reachable s) :
  let c := updateRunControls s in
  let shown := (negb (runStartHidden c), negb (pauseHidden c),
                negb (resumeHidden c)) in
  (steps s = [] -> shown = (false, false, false))
  /\ (steps s <> [] ->
      shown = match phase s with
              | NotStarted => (true, false, false)
              | Running => (false, true, false)
              | Paused => (false, false, true)
              | Finished => (false, false, false)
              end).
Proof.
  intros c shown. subst shown c. unfold updateRunControls, phase.
  cbn [runStartHidden pauseHidden resumeHidden].
  pose proof (Inv2_started s (reachable_Inv2 s Hreach)) as Hst.
  pose proof (Inv_finished s (reachable_Inv s Hreach)) as Hfin.
  destruct (steps s) as [|step0 l]; split; intro H;
    try contradiction; try discriminate; cbn [List.length Nat.eqb Nat.ltb
                                                 Nat.leb].
  - now rewrite !orb_true_r, !andb_false_r.
  - destruct (isFinished s) eqn:Hf.
    + destruct (Hfin eq_refl) as [-> _]. cbn.
      now rewrite !orb_true_r, !andb_false_r.
    + destruct (isRunning s) eqn:Hr.
      * rewrite (Hst eq_refl). reflexivity.
      * destruct (hasStarted s); reflexivity.
Qed.

Lemma X18_run_controls_witness :
  (negb (runStartHidden (updateRunControls sampleRunning)),
   negb (pauseHidden (updateRunControls sampleRunning)),
   negb (resumeHidden (updateRunControls sampleRunning)))
  = (false, true, false).
Proof.
  apply (proj2 (X18_run_controls sampleRunning sampleRunning_reachable)).
  discriminate.
Defined.

Lemma sumDurations_split n l :
  sumDurations l = sumDurations (firstn n l) + sumDurations (skipn n l).
Proof. now rewrite <- sumDurations_app, firstn_skipn. Qed.

Lemma duration_le_prefix l i step :
  Forall (fun step => 1 <= durationSeconds step) l ->
  nth_error l i = Some step ->
  durationSeconds step <= sumDurations (firstn (i + 1) l).
Proof.
  intro Hd. revert i. induction Hd as [|x l Hx Hl IH]; intros i Hn;
    [destruct i; discriminate|].
  destruct i as [|i]; cbn [Nat.add firstn]; rewrite sumDurations_cons.
  - cbn in Hn. injection Hn as ->. cbn. lia.
  - cbn [nth_error] in Hn. specialize (IH i Hn). lia.
Qed.

(** When the durations are at least 1 and their sum is at most
    [MAX_SAFE_INTEGER], the sum of every run of steps from either end is a
    safe integer: the program forms no other sums, so each of its additions
    is exact. *)
Lemma partial_sums_safe l n :
  Forall (fun step => 1 <= durationSeconds step) l ->
  sumDurations l <= MAX_SAFE_INTEGER ->
  isSafeInteger (sumDurations (firstn n l))
  /\ isSafeInteger (sumDurations (skipn n l)).
Proof.
  intros Hd Hsafe.
  pose proof (sumDurations_split n l) as Hs.
  pose proof (sumDurations_nonneg _ (Forall_skipn _ n _ Hd)) as H2.
  assert (H1 : 0 <= sumDurations (firstn n l)).
  { apply sumDurations_nonneg. rewrite <- (firstn_skipn n l) in Hd.
    now apply Forall_app in Hd as [Hd _]. }
  unfold isSafeInteger, MAX_SAFE_INTEGER in *. lia.
Qed.

(** So it is for the total of a workout read from the page: every
    intermediate value of [getTotalDurationSecondsForWorkout] is a safe
    integer when the total is at most [MAX_SAFE_INTEGER]. *)
Lemma buildSteps_sums_safe w n :
  fromInputs w ->
  getTotalDurationSecondsForWorkout w <= MAX_SAFE_INTEGER ->
  isSafeInteger (sumDurations (firstn n (buildSteps w))).
Proof.
  intros Hpage Hsafe.
  apply (partial_sums_safe (buildSteps w) n);
    [now apply buildSteps_durations | exact Hsafe].
Qed.

(** In a state the page can be in, with steps of at most [MAX_SAFE_INTEGER]
    seconds in all, every number the timer and the progress bar compute with
    is a safe integer: each duration, the time left on the step, the time
    left in the workout, and the time left on the step less one second. *)
Lemma reachable_safe s :
  reachable s -> steps s <> [] -> totalSeconds s <= MAX_SAFE_INTEGER ->
  Forall (fun step => isSafeInteger (durationSeconds step)) (steps s)
  /\ isSafeInteger (secondsRemaining s)
  /\ isSafeInteger (secondsRemaining s - 1)
  /\ isSafeInteger (remainingSeconds s)
  /\ isSafeInteger (totalSeconds s - remainingSeconds s).
Proof.
  intros Hreach Hne Hsafe.
  pose proof (reachable_Inv s Hreach) as HI.
  pose proof (reachable_Inv2 s Hreach) as HI2.
  pose proof (Inv_nonempty_index s HI Hne) as Hlt.
  pose proof (Inv_durations s HI) as Hd.
  destruct (nth_error (steps s) (currentStepIndex s)) as [step|] eqn:Hn;
    [|apply nth_error_None in Hn; lia].
  pose proof (Inv2_within s HI2 step Hn) as Hw.
  pose proof (duration_le_prefix _ _ _ Hd Hn) as Hp.
  destruct (partial_sums_safe (steps s) (currentStepIndex s + 1) Hd Hsafe)
    as [Hf Hk].
  pose proof (sumDurations_split (currentStepIndex s + 1) (steps s)) as Ht.
  pose proof (sumDurations_nonneg _
                (Forall_skipn _ (currentStepIndex s + 1) _ Hd)) as Hs.
  assert (Hsec : 0 <= secondsRemaining s).
  { destruct (isFinished s) eqn:Hfin.
    - destruct (Inv_finished s HI Hfin) as (_ & H0 & _). lia.
    - pose proof (Inv_remaining s HI Hfin Hne). lia. }
  rewrite remainingSeconds_eq.
  change (totalSeconds s) with (sumDurations (steps s)) in *.
  unfold isSafeInteger, MAX_SAFE_INTEGER in *.
  split; [|lia].
  apply Forall_forall. intros x Hx.
  destruct (In_nth_error _ _ Hx) as [i Hi].
  pose proof (duration_le_prefix _ _ _ Hd Hi) as Hpi.
  destruct (partial_sums_safe (steps s) (i + 1) Hd Hsafe) as [Hfi _].
  rewrite Forall_forall in Hd. specialize (Hd x Hx).
  unfold isSafeInteger, MAX_SAFE_INTEGER in Hfi. lia.
Qed.



(** One tick of a running timer takes one second off the time remaining in
    the whole workout, and finishes the run exactly when none is left. *)
Lemma tick_remaining s :
  reachable s -> phase s = Running ->
  exists s',
    intervalCallback s = Some s' /\ reachable s' /\ steps s' = steps s
    /\ remainingSeconds s' = remainingSeconds s - 1
    /\ ((phase s' = Running /\ 1 <= remainingSeconds s')
        \/ (phase s' = Finished /\ remainingSeconds s' = 0)).
Proof.
  intros Hreach Hrunning.
  pose proof (reachable_Inv s Hreach) as HI.
  destruct (phase_Running s Hrunning) as [Hf Hr].
  pose proof (Inv_running_nonempty s HI Hr) as Hne.
  pose proof (Inv_remaining s HI Hf Hne) as Hsec.
  pose proof (Inv_durations s HI) as Hd.
  assert (Hocc : exists h, In h (intervals s)).
  { rewrite (Inv_intervals s HI). pose proof (Inv_isRunning s HI) as H2.
    rewrite Hr in H2. destruct (intervalId s) as [h|]; [|discriminate].
    exists h. now left. }
  destruct Hocc as [h Hh].
  assert (Hstep : forall s', intervalCallback s = Some s' -> reachable s').
  { intros s' E. apply (reachable_step s (intervalFired h) s'); assumption. }
  revert Hstep. unfold intervalCallback. cbv zeta.
  set (s1 := set_secondsRemaining (secondsRemaining s - 1) s).
  destruct (tickCues_frame s1)
    as (F1 & F2 & F3 & F4 & F5 & F6 & F7 & F8 & F9 & F10 & F11).
  subst s1. cbn in F1, F2, F3, F4, F5, F6, F7, F8, F9, F10, F11.
  rewrite F4. intro Hstep.
  destruct (secondsRemaining s - 1 <=? 0) eqn:Hz.
  - apply Z.leb_le in Hz.
    destruct (nth_error (steps s) (currentStepIndex s + 1))
      as [step|] eqn:Hn.
    + rewrite <- F1, <- F3 in Hn.
      destruct (goToNextStep_next true _ step Hn)
        as (s' & E & H1 & H2 & H3 & H4 & H5 & H6 & H7 & H8 & H9).
      rewrite F1, F3 in Hn. rewrite E in Hstep |- *.
      exists s'. split; [reflexivity|]. split; [now apply Hstep|].
      rewrite H1, F1. split; [reflexivity|].
      pose proof (nth_error_duration _ _ _ Hd Hn) as Hdur.
      pose proof (sumDurations_nonneg _
                    (Forall_skipn _ (currentStepIndex s + 1 + 1) _ Hd)).
      assert (Hrem : remainingSeconds s'
                     = sumDurations
                         (skipn (currentStepIndex s + 1 + 1) (steps s))
                       + durationSeconds step)
        by (rewrite remainingSeconds_eq, H1, H3, H4, F1, F3; reflexivity).
      rewrite Hrem, remainingSeconds_eq.
      rewrite (skipn_nth_error _ _ _ Hn), sumDurations_cons.
      replace (S (currentStepIndex s + 1)) with (currentStepIndex s + 1 + 1)%nat
        by lia.
      split; [lia|]. left. unfold phase. rewrite H5, H6. split;
        [reflexivity|lia].
    + apply nth_error_None in Hn.
      rewrite goToNextStep_last in Hstep |- * by (rewrite F1, F3; exact Hn).
      eexists. split; [reflexivity|]. split; [now apply Hstep|].
      rewrite stopTimer_eq. unfold phase, remainingSeconds. cbn.
      rewrite F1, F3. rewrite skipn_all2 by exact Hn. cbn.
      repeat split; try lia. right. split; reflexivity.
  - apply Z.leb_gt in Hz. eexists. split; [reflexivity|].
    split; [now apply Hstep|]. split; [exact F1|].
    unfold phase, remainingSeconds. rewrite F1, F3, F4, F6, F8, Hf, Hr.
    pose proof (sumDurations_nonneg _
                  (Forall_skipn _ (currentStepIndex s + 1) _ Hd)) as Hs.
    unfold sumDurations in Hs.
    split; [lia|]. left. split; [reflexivity|lia].
Qed.

Lemma ticks_running k :
  forall s,
    reachable s -> phase s = Running ->
    Z.of_nat k < remainingSeconds s ->
    exists s',
      ticks k s = Some s' /\ reachable s' /\ phase s' = Running
      /\ steps s' = steps s
      /\ remainingSeconds s' = remainingSeconds s - Z.of_nat k.
Proof.
  induction k as [|k IH]; intros s Hreach Hrun Hk.
  - exists s. cbn [ticks]. repeat split; try assumption. lia.
  - destruct (tick_remaining s Hreach Hrun)
      as (s1 & E & Hr1 & Hs1 & Hrem & [[Hp H1] | [_ H0]]); [|lia].
    destruct (IH s1 Hr1 Hp ltac:(lia)) as (s' & E' & Hr' & Hp' & Hs' & Hrem').
    exists s'. cbn [ticks]. rewrite E.
    repeat split; try assumption; [congruence|lia].
Qed.

Lemma ticks_finish n :
  forall s,
    reachable s -> phase s = Running ->
    remainingSeconds s = Z.of_nat (S n) ->
    exists s',
      ticks (S n) s = Some s' /\ phase s' = Finished
      /\ steps s' = steps s /\ remainingSeconds s' = 0.
Proof.
  induction n as [|n IH]; intros s Hreach Hrun Hrem;
    destruct (tick_remaining s Hreach Hrun)
      as (s1 & E & Hr1 & Hs1 & Hrem1 & Hcase).
  - destruct Hcase as [[_ H1] | [Hp H0]]; [lia|].
    exists s1. cbn [ticks]. rewrite E. repeat split; assumption.
  - destruct Hcase as [[Hp H1] | [_ H0]]; [|lia].
    destruct (IH s1 Hr1 Hp ltac:(lia)) as (s' & E' & Hp' & Hs' & Hrem').
    exists s'. change (ticks (S (S n)) s) with
      (match intervalCallback s with
       | Some s0 => ticks (S n) s0
       | None => None
       end).
    rewrite E. repeat split; try assumption. congruence.
Qed.

(** X17. A running timer left alone, on steps of at most
    [MAX_SAFE_INTEGER] seconds in all, finishes the workout after exactly as
    many ticks as [render] shows seconds remaining: before that the phase is
    Running and every tick takes one second off the time remaining; the tick
    that takes the last one leads to Finished. *)
Theorem X17_runs_to_completion (s : State)
    (Hreach : reachable s) (Hrunning : phase s = Running)
    (Hsafe : totalSeconds s <= MAX_SAFE_INTEGER) :
  1 <= remainingSeconds s
  /\ (forall k,
        Z.of_nat k < remainingSeconds s ->
        exists s',
          ticks k s = Some s' /\ phase s' = Running
          /\ remainingSeconds s' = remainingSeconds s - Z.of_nat k)
  /\ (exists s',
        ticks (Z.to_nat (remainingSeconds s)) s = Some s'
        /\ phase s' = Finished /\ steps s' = steps s
        /\ remainingSeconds s' = 0).
Proof.
  assert (H1 : 1 <= remainingSeconds s).
  { destruct (tick_remaining s Hreach Hrunning)
      as (s1 & _ & _ & _ & Hrem & [[_ H] | [_ H]]); lia. }
  split; [exact H1|]. split.
  - intros k Hk.
    destruct (ticks_running k s Hreach Hrunning Hk)
      as (s' & E & _ & Hp & _ & Hrem).
    exists s'. auto.
  - destruct (Z.to_nat (remainingSeconds s)) as [|n] eqn:En; [lia|].
    apply ticks_finish; [assumption..|lia].
Qed.

Lemma X17_runs_to_completion_witness :
  (exists s',
     ticks 45 sampleRunning2 = Some s' /\ phase s' = Running
     /\ remainingSeconds s' = remainingSeconds sampleRunning2 - 45)
  /\ (exists s',
        ticks (Z.to_nat (remainingSeconds sampleRunning2)) sampleRunning2
        = Some s'
        /\ phase s' = Finished /\ steps s' = steps sampleRunning2
        /\ remainingSeconds s' = 0).
Proof.
  destruct (X17_runs_to_completion sampleRunning2 sampleRunning2_reachable
              eq_refl) as (_ & Hbefore & Hlast);
    [apply Z.leb_le; reflexivity|].
  split; [|exact Hlast].
  apply (Hbefore 45%nat). apply Z.ltb_lt. reflexivity.
Defined.

(** The second sample takes 45 + 15 + 60 = 120 ticks. *)
Example sampleRunning2_remaining : remainingSeconds sampleRunning2 = 120.
Proof. reflexivity. Qed.

(* ================================================================== *)
(** * Further properties: the page as a whole *)
(* ================================================================== *)

(** X7. With circuit B enabled, the steps of a valid workout are the
    exercises of both circuits once per repetition, a rest between
    consecutive exercises and a circuit rest between consecutive repetitions
    of each circuit where those rests are positive, and the one transition
    rest when it is positive. *)
Theorem X7_step_count_two_circuits (w : Workout)
    (Hvalid : validWorkout w) (Henabled : enabled (circuitB w) = true) :
  let NA := Z.of_nat (List.length (exercises (circuitA w))) in
  let RA := repeats (circuitA w) in
  let NB := Z.of_nat (List.length (exercises (circuitB w))) in
  let RB := repeats (circuitB w) in
  countType exercise (buildSteps w) = RA * NA + RB * NB
  /\ countType rest (buildSteps w)
     = (if 0 <? restBetweenExercisesSeconds w
        then RA * (NA - 1) + RB * (NB - 1) else 0)
  /\ countType circuit_rest (buildSteps w)
     = (if 0 <? restBetweenCircuitsSeconds w
        then (RA - 1) + (RB - 1) else 0)
  /\ countType transition_rest (buildSteps w)
     = (if 0 <? transitionRestSeconds w then 1 else 0).
Proof.
  intros NA RA NB RB. destruct Hvalid as (HexA & HrA & HB).
  destruct (HB Henabled) as [HexB HrB].
  assert (HNA : 1 <= NA)
    by (subst NA; destruct (exercises (circuitA w));
        [contradiction|cbn [List.length]; lia]).
  assert (HNB : 1 <= NB)
    by (subst NB; destruct (exercises (circuitB w));
        [contradiction|cbn [List.length]; lia]).
  unfold buildSteps, buildStepsForCircuit. rewrite Henabled.
  rewrite !countType_app.
  rewrite !repeatLoop_count_exercise, !repeatLoop_count_rest,
    !repeatLoop_count_transition_rest.
  rewrite !repeatLoop_count_circuit_rest by lia.
  rewrite !Z2Nat.id by lia. fold NA NB RA RB.
  rewrite !Z.max_r by lia.
  destruct (0 <? transitionRestSeconds w);
    rewrite ?countType_cons, ?countType_nil; unfold hasType;
    cbn [type StepType_eqb theTransitionRest];
    destruct (0 <? restBetweenExercisesSeconds w),
             (0 <? restBetweenCircuitsSeconds w);
    repeat split; lia.
Qed.

Lemma X7_step_count_two_circuits_witness :
  countType exercise (buildSteps sampleTwoCircuits) = 2 * 2 + 1 * 1
  /\ countType rest (buildSteps sampleTwoCircuits)
     = 2 * (2 - 1) + 1 * (1 - 1)
  /\ countType circuit_rest (buildSteps sampleTwoCircuits)
     = (2 - 1) + (1 - 1)
  /\ countType transition_rest (buildSteps sampleTwoCircuits) = 1.
Proof.
  apply (X7_step_count_two_circuits sampleTwoCircuits);
    [repeat split; try discriminate; cbn; lia | reflexivity].
Defined.

(** X3. "Start workout" changes nothing when the page has no named exercise
    in circuit A, or circuit B is on without one.  Otherwise, from whatever
    state, even with a timer running, it installs the steps built from the
    page, which are not empty, on the first step with its whole duration,
    not started, with no interval registered and the cue trackers
    cleared. *)
Theorem X3_start_workout (inp : Inputs) (s : State)
    (Hreach : reachable s) :
  let w := getWorkoutFromInputs inp in
  (exercises (circuitA w) = []
   \/ (enabled (circuitB w) = true /\ exercises (circuitB w) = []) ->
   dispatch (startBtn inp) s = Some s)
  /\ (exercises (circuitA w) <> [] ->
      (enabled (circuitB w) = true -> exercises (circuitB w) <> []) ->
      exists s' step0 l,
        dispatch (startBtn inp) s = Some s'
        /\ buildSteps w = step0 :: l
        /\ steps s' = buildSteps w /\ workout s' = Some w
        /\ phase s' = NotStarted
        /\ currentStepIndex s' = 0%nat
        /\ secondsRemaining s' = durationSeconds step0
        /\ intervalId s' = None /\ intervals s' = []
        /\ lastHalfCueStepIndex s' = None /\ lastFinalCueKey s' = None
        /\ lastSpokenRestStepIndex s' = None
        /\ calls s' = calls s).
Proof.
  intro w. cbn [dispatch]. unfold startBtn_click. cbv zeta. fold w. split.
  - intros [HA | [HB1 HB2]].
    + now rewrite HA.
    + rewrite HB1, HB2. cbn [List.length Nat.eqb andb].
      now destruct (List.length (exercises (circuitA w)) =? 0)%nat.
  - intros HA HB.
    destruct (exercises (circuitA w)) as [|ex exs] eqn:HexA;
      [contradiction|]. cbn [List.length Nat.eqb].
    assert (Hchk : enabled (circuitB w)
                   && (List.length (exercises (circuitB w)) =? 0)%nat
                   = false).
    { destruct (enabled (circuitB w)); [|reflexivity].
      destruct (exercises (circuitB w)); [now contradiction HB|].
      reflexivity. }
    rewrite Hchk.
    pose proof (getWorkoutFromInputs_fromInputs inp) as (_ & HrA & _).
    fold w in HrA.
    assert (Hne : buildSteps w <> [])
      by (apply buildSteps_nonempty; [rewrite HexA; discriminate|exact HrA]).
    destruct (buildSteps w) as [|step0 l] eqn:Hb; [contradiction|].
    rewrite (setStep_first 0 _ step0) by reflexivity.
    eexists. exists step0, l. split; [reflexivity|].
    split; [reflexivity|].
    pose proof (Inv_intervals s (reachable_Inv s Hreach)) as Hiv.
    rewrite stopTimer_eq. unfold phase. cbn. rewrite Hiv.
    repeat split.
    destruct (intervalId s); [apply remove_single|reflexivity].
Qed.

Lemma X3_start_workout_witness :
  dispatch (startBtn (mkInputs (lit "45") (lit "15") (lit "60") None
                        (lit "1") (lit "2") false [(lit "  ", lit "30")] []))
    sampleRunning = Some sampleRunning
  /\ exists s' step0 l,
       dispatch (startBtn sampleInputs2) sampleRunning = Some s'
       /\ buildSteps (getWorkoutFromInputs sampleInputs2) = step0 :: l
       /\ steps s' = buildSteps (getWorkoutFromInputs sampleInputs2)
       /\ workout s' = Some (getWorkoutFromInputs sampleInputs2)
       /\ phase s' = NotStarted
       /\ currentStepIndex s' = 0%nat
       /\ secondsRemaining s' = durationSeconds step0
       /\ intervalId s' = None /\ intervals s' = []
       /\ lastHalfCueStepIndex s' = None /\ lastFinalCueKey s' = None
       /\ lastSpokenRestStepIndex s' = None
       /\ calls s' = calls sampleRunning.
Proof.
  split.
  - apply (proj1 (X3_start_workout _ sampleRunning sampleRunning_reachable)).
    left. reflexivity.
  - apply (proj2 (X3_start_workout sampleInputs2 sampleRunning
                    sampleRunning_reachable)); [discriminate|discriminate].
Defined.

Lemma goToNextStep_keeps b s s' :
  goToNextStep b s = Some s' ->
  steps s' = steps s /\ workout s' = workout s.
Proof.
  intro Hgo.
  destruct (nth_error (steps s) (currentStepIndex s + 1)) as [step|] eqn:Hn.
  - destruct (goToNextStep_next b s step Hn) as (s1 & E & H1 & H2 & _).
    rewrite E in Hgo. injection Hgo as <-. auto.
  - apply nth_error_None in Hn. rewrite goToNextStep_last in Hgo by exact Hn.
    injection Hgo as <-. rewrite stopTimer_eq. auto.
Qed.

(** Only "Start workout" changes the steps and the workout of the page. *)
Lemma dispatch_keeps e s s' :
  (forall inp, e <> startBtn inp) -> dispatch e s = Some s' ->
  steps s' = steps s /\ workout s' = workout s.
Proof.
  intros He Hd. destruct e; cbn [dispatch] in Hd.
  - now contradiction (He inp).
  - injection Hd as <-. unfold startTimer.
    destruct (isRunning s || _ || isFinished s); auto.
  - injection Hd as <-. rewrite stopTimer_eq. auto.
  - injection Hd as <-. unfold startTimer.
    destruct (isRunning s || _ || isFinished s); auto.
  - unfold skipStep in Hd. destruct (List.length (steps s) =? 0)%nat.
    + injection Hd as <-. auto.
    + eapply goToNextStep_keeps. exact Hd.
  - destruct (nth_error (steps s) 0) as [step0|] eqn:Hn.
    + rewrite (resetWorkout_eq s step0 Hn) in Hd. injection Hd as <-.
      rewrite stopTimer_eq. auto.
    + apply nth_error_None in Hn. unfold resetWorkout in Hd.
      cbv zeta in Hd.
      assert (Es : steps (stopTimer s) = steps s)
        by (rewrite stopTimer_eq; reflexivity).
      rewrite Es in Hd.
      destruct (0 <? List.length (steps s))%nat eqn:E;
        [apply Nat.ltb_lt in E; lia|].
      injection Hd as <-. rewrite stopTimer_eq. auto.
  - injection Hd as <-. rewrite stopTimer_eq. auto.
  - unfold intervalCallback in Hd. cbv zeta in Hd.
    set (s1 := set_secondsRemaining (secondsRemaining s - 1) s) in *.
    destruct (tickCues_frame s1) as (F1 & F2 & _).
    subst s1. cbn in F1, F2.
    destruct (secondsRemaining (tickCues _) <=? 0).
    + destruct (goToNextStep_keeps _ _ _ Hd) as [H1 H2].
      split; congruence.
    + injection Hd as <-. auto.
Qed.

Lemma reachable_builtFromWorkout s : reachable s -> builtFromWorkout s.
Proof.
  induction 1 as [h0 | s e s' Hr IH Ho Hd]; [reflexivity|].
  destruct e;
    try (match type of Hd with
         | dispatch ?e0 _ = _ =>
             assert (He : forall inp, e0 <> startBtn inp)
               by (intros; discriminate);
             destruct (dispatch_keeps e0 s s' He Hd) as [E1 E2]
         end;
         unfold builtFromWorkout; rewrite E1, E2; exact IH).
  cbn [dispatch] in Hd. revert Hd. unfold startBtn_click. cbv zeta.
  set (w := getWorkoutFromInputs inp).
  destruct (exercises (circuitA w)) as [|ex exs] eqn:HexA;
    cbn [List.length Nat.eqb]; [intros [= <-]; exact IH|].
  destruct (enabled (circuitB w)
            && (List.length (exercises (circuitB w)) =? 0)%nat) eqn:Hchk;
    [intros [= <-]; exact IH|].
  pose proof (getWorkoutFromInputs_fromInputs inp) as (_ & HrA & HrB & _).
  fold w in HrA, HrB.
  assert (Hne : buildSteps w <> [])
    by (apply buildSteps_nonempty; [rewrite HexA; discriminate|exact HrA]).
  destruct (buildSteps w) as [|step0 l] eqn:Hb; [contradiction|].
  rewrite (setStep_first 0 _ step0) by reflexivity.
  intros [= <-]. unfold builtFromWorkout. rewrite stopTimer_eq. cbn.
  split; [now rewrite Hb|]. repeat split.
  - rewrite HexA. discriminate.
  - exact HrA.
  - intro E.
    match goal with
    | H : enabled (circuitB w) = true |- _ => rewrite H, E in Hchk
    end.
    discriminate.
  - exact HrB.
Qed.

(** What [getProgressForStep] returns at a step of a sequence built from a
    valid workout. *)
Lemma getProgressForStep_built w stepIndex step :
  validWorkout w ->
  nth_error (buildSteps w) stepIndex = Some step ->
  exists p,
    getProgressForStep (Some w) (buildSteps w) stepIndex = Some p
    /\ Progress.circuitId p = circuitId step
    /\ 1 <= Progress.exercise p <= Progress.exercisesPerRound p
    /\ 1 <= Progress.round p <= Progress.totalRounds p.
Proof.
  intros Hv Hn.
  destruct (exerciseCount_bound w stepIndex step Hv Hn) as (HN & HR & Hc).
  unfold getProgressForStep. rewrite Hn. cbv zeta.
  rewrite circuit_of_step, exerciseCountLoop_exerciseCount.
  set (c := circuitOf w (circuitId step)) in *.
  set (N := Z.of_nat (List.length (exercises c))) in *.
  set (n := exerciseCount (circuitId step) (buildSteps w) stepIndex) in *.
  destruct (N <=? 0) eqn:HN0; [apply Z.leb_le in HN0; lia|].
  destruct (n =? 0) eqn:Hn0.
  - eexists. split; [reflexivity|]. cbn. repeat split; lia.
  - apply Z.eqb_neq in Hn0. eexists. split; [reflexivity|]. cbn.
    destruct (round_and_position n N (repeats c) HN ltac:(lia))
      as (H1 & H2 & _).
    repeat split; lia.
Qed.

(** X21. While a workout is on the run screen, the steps are those built
    from the valid workout the page holds, so the progress line [render]
    asks for at the current step is never blank, with the round between 1
    and the repeats and the exercise between 1 and the exercises of the
    circuit of the step; and at a rest of any kind the next exercise
    [render] names is the very next step. *)
Theorem X21_run_screen (s : State)
    (Hreach : reachable s) (Hnonempty : steps s <> []) :
  exists w step p,
    workout s = Some w /\ validWorkout w /\ steps s = buildSteps w
    /\ nth_error (steps s) (currentStepIndex s) = Some step
    /\ getProgressForStep (workout s) (steps s) (currentStepIndex s) = Some p
    /\ Progress.circuitId p = circuitId step
    /\ 1 <= Progress.exercise p <= Progress.exercisesPerRound p
    /\ 1 <= Progress.round p <= Progress.totalRounds p
    /\ (type step <> exercise ->
        exists next,
          nth_error (steps s) (currentStepIndex s + 1) = Some next
          /\ type next = exercise
          /\ getNextExerciseLabel (steps s) (currentStepIndex s)
             = Some (label next)).
Proof.
  pose proof (reachable_builtFromWorkout s Hreach) as Hb.
  unfold builtFromWorkout in Hb.
  destruct (workout s) as [w|] eqn:Hw; [|contradiction].
  destruct Hb as [Hs Hv].
  pose proof (Inv_nonempty_index s (reachable_Inv s Hreach) Hnonempty) as Hlt.
  destruct (nth_error (steps s) (currentStepIndex s)) as [step|] eqn:Hn;
    [|apply nth_error_None in Hn; lia].
  rewrite Hs in Hn |- *.
  destruct (getProgressForStep_built w _ step Hv Hn) as (p & Hp & H1 & H2 & H3).
  exists w, step, p.
  split; [reflexivity|]. split; [exact Hv|]. split; [reflexivity|].
  split; [reflexivity|]. split; [exact Hp|]. split; [exact H1|].
  split; [exact H2|]. split; [exact H3|].
  intro Ht. destruct (buildSteps_shape w Hv) as [_ Hf].
  destruct (restsAreFollowed_nth _ _ _ Hf Hn Ht) as (next & Hnext & Hte).
  exists next. replace (currentStepIndex s + 1)%nat
    with (S (currentStepIndex s)) by lia.
  repeat split; try assumption.
  unfold getNextExerciseLabel.
  replace (currentStepIndex s + 1)%nat with (S (currentStepIndex s)) by lia.
  rewrite (skipn_nth_error _ _ _ Hnext). cbn [nextExerciseLoop].
  now rewrite Hte.
Qed.

Lemma X21_run_screen_witness :
  exists w step p,
    workout sampleRunning2 = Some w /\ validWorkout w
    /\ steps sampleRunning2 = buildSteps w
    /\ nth_error (steps sampleRunning2) (currentStepIndex sampleRunning2)
       = Some step
    /\ getProgressForStep (workout sampleRunning2) (steps sampleRunning2)
         (currentStepIndex sampleRunning2) = Some p
    /\ Progress.circuitId p = circuitId step
    /\ 1 <= Progress.exercise p <= Progress.exercisesPerRound p
    /\ 1 <= Progress.round p <= Progress.totalRounds p
    /\ (type step <> exercise ->
        exists next,
          nth_error (steps sampleRunning2)
            (currentStepIndex sampleRunning2 + 1) = Some next
          /\ type next = exercise
          /\ getNextExerciseLabel (steps sampleRunning2)
               (currentStepIndex sampleRunning2) = Some (label next)).
Proof.
  apply (X21_run_screen sampleRunning2 sampleRunning2_reachable).
  discriminate.
Defined.
